(** * react-data-grid: column metrics, viewport rows and the selection state machine

    A shallow embedding of [src/lib/bundle.cjs].  JavaScript numbers that
    carry pixel sizes and indices are integers ([Z]); [Math.floor (a / b)] is
    [Z.div].  Row objects are opaque to the grid: the type [R] stands for row
    references, and its decidable equality for [===] on them.  Arrays are
    lists; [undefined] read from an array is [None]. *)

From Stdlib Require Import ZArith Lia List String Ascii Bool.
From stdpp Require Import gmap strings list.

Local Open Scope Z_scope.

(** ** JavaScript array and number helpers *)

(** [l[i]] for an integer [i]: [undefined] outside [0 .. length - 1]. *)
Definition js_get {A : Type} (l : list A) (i : Z) : option A :=
  if i <? 0 then None else l !! Z.to_nat i.

(** [l.length] as a number. *)
Definition js_length {A : Type} (l : list A) : Z := Z.of_nat (length l).

(** [l.indexOf (x)]: the first index holding [x], or [-1]. *)
Fixpoint indexOf {A : Type} `{EqDecision A} (l : list A) (x : A) : Z :=
  match l with
  | [] => -1
  | y :: l' =>
      if decide (y = x) then 0
      else let i := indexOf l' x in if i <? 0 then -1 else i + 1
  end.

(** [l.includes (x)]. *)
Definition includes {A : Type} `{EqDecision A} (l : list A) (x : A) : bool :=
  bool_decide (x ∈ l).

(** [Math.floor (a / b)] and [Math.ceil (a / b)] on integers. *)
Definition floorDiv (a b : Z) : Z := a / b.
Definition ceilDiv (a b : Z) : Z := - ((- a) / b).

(** An array that may have holes, as [a[i] = x] past the end leaves them:
    [None] is a hole (it reads as [undefined]). *)
Abbreviation JsArray A := (list (option A)).

(** [[...l]]. *)
Definition spread {A : Type} (l : list A) : JsArray A := map Some l.

(** [a[i] = x].  Inside the array the entry is replaced; past the end the
    array grows, with holes in between; a negative [i] names no element (the
    assignment creates a property such as ["-1"] on the object and the
    elements stay as they are). *)
Definition arraySet {A : Type} (a : JsArray A) (i : Z) (x : A) : JsArray A :=
  if i <? 0 then a
  else if i <? js_length a then <[Z.to_nat i := Some x]> a
  else a ++ replicate (Z.to_nat i - length a) None ++ [Some x].

(** [a[i]] on an array with holes. *)
Definition arrayGet {A : Type} (a : JsArray A) (i : Z) : option A :=
  mjoin (js_get a i).

(** [Array.prototype.sort (compareFn)].  ECMAScript requires the sort to be
    stable; when [compareFn] is a consistent comparator the result is the
    unique stable arrangement, which insertion from the right computes.  An
    element moves in front of another only when [compareFn] puts it there
    ([<= 0] keeps the earlier element first). *)
Fixpoint insertSorted {A : Type} (compareFn : A → A → Z) (x : A) (l : list A) : list A :=
  match l with
  | [] => [x]
  | y :: l' =>
      if compareFn x y <=? 0 then x :: y :: l'
      else y :: insertSorted compareFn x l'
  end.

Definition sort {A : Type} (compareFn : A → A → Z) (l : list A) : list A :=
  foldr (insertSorted compareFn) [] l.

(** ** Columns *)

(** A renderer component (formatter, editor, ...) is opaque to the grid; it is
    named here, not run. *)
Definition Renderer : Type := string.
Definition ValueFormatter : Renderer := "ValueFormatter"%string.
Definition ToggleGroupFormatter : Renderer := "ToggleGroupFormatter"%string.

Definition SELECT_COLUMN_KEY : string := "select-row"%string.

(** The fields of a keyboard event the grid reads.  [targetIsSoleEditorInput]
    is the DOM test of [onEditorNavigation]: the target is an input, textarea
    or select element and the only child of the editor container. *)
Record KeyboardEvent : Type := {
  ev_key : string;
  ev_keyCode : Z;
  ev_ctrlKey : bool;
  ev_metaKey : bool;
  ev_shiftKey : bool;
  ev_targetIsSoleEditorInput : bool
}.

(** [column.width]: a number, a string (possibly a percentage) or unset. *)
Inductive ColumnWidth : Type :=
| WidthNumber (w : Z)
| WidthString (s : string)
| WidthUnset.

(** [column.editor]: the code tells [undefined] from [null]. *)
Inductive EditorProp : Type :=
| EditorUndefined
| EditorNull
| EditorComponent (e : Renderer).

(** [column.editable]: unset, a flag, or a predicate on the row (which is
    [undefined], [None], when the row index names no row). *)
Inductive Editable (R : Type) : Type :=
| EditableUnset
| EditableFlag (b : bool)
| EditablePredicate (f : option R → bool).
Arguments EditableUnset {R}.
Arguments EditableFlag {R} b.
Arguments EditablePredicate {R} f.

(** [column.editorOptions].  A handler that may call [event.preventDefault ()]
    answers whether it did. *)
Record EditorOptions : Type := {
  editOnClick : bool;
  onCellKeyDown : option (KeyboardEvent → bool);
  onNavigation : option (KeyboardEvent → bool)
}.

Module Column.
Record t (R : Type) : Type := mk {
  key : string;
  width : ColumnWidth;
  minWidth : option Z;
  maxWidth : option Z;
  frozen : bool;
  sortable : option bool;
  resizable : option bool;
  formatter : option Renderer;
  groupFormatter : option Renderer;
  editor : EditorProp;
  editable : Editable R;
  editorOptions : option EditorOptions
}.
Arguments mk {R}.
Arguments key {R}.
Arguments width {R}.
Arguments minWidth {R}.
Arguments maxWidth {R}.
Arguments frozen {R}.
Arguments sortable {R}.
Arguments resizable {R}.
Arguments formatter {R}.
Arguments groupFormatter {R}.
Arguments editor {R}.
Arguments editable {R}.
Arguments editorOptions {R}.
End Column.

(** The object built by the first [map] of [getColumnMetrics]:
    [{ ...metricsColumn, width }] with [frozen] and [rowGroup] forced for a
    grouped column.  [width] is [None] while the column is unassigned. *)
Module MappedColumn.
Record t (R : Type) : Type := mk {
  column : Column.t R;
  width : option Z;
  frozen : bool;
  rowGroup : bool
}.
Arguments mk {R}.
Arguments column {R}.
Arguments width {R}.
Arguments frozen {R}.
Arguments rowGroup {R}.
Definition key {R : Type} (c : t R) : string := Column.key (column c).
End MappedColumn.

(** A calculated column: [{ ...column, idx, width, left, sortable, resizable,
    formatter }], then [groupFormatter] and [isLastFrozenColumn]. *)
Module CalculatedColumn.
Record t (R : Type) : Type := mk {
  column : Column.t R;
  idx : Z;
  width : Z;
  left : Z;
  frozen : bool;
  rowGroup : bool;
  sortable : bool;
  resizable : bool;
  formatter : Renderer;
  groupFormatter : option Renderer;
  isLastFrozenColumn : bool
}.
Arguments mk {R}.
Arguments column {R}.
Arguments idx {R}.
Arguments width {R}.
Arguments left {R}.
Arguments frozen {R}.
Arguments rowGroup {R}.
Arguments sortable {R}.
Arguments resizable {R}.
Arguments formatter {R}.
Arguments groupFormatter {R}.
Arguments isLastFrozenColumn {R}.
Definition key {R : Type} (c : t R) : string := Column.key (column c).
Definition editor {R : Type} (c : t R) : EditorProp := Column.editor (column c).
Definition editable {R : Type} (c : t R) : Editable R := Column.editable (column c).
Definition editorOptions {R : Type} (c : t R) : option EditorOptions :=
  Column.editorOptions (column c).
Definition setLastFrozen {R : Type} (c : t R) : t R :=
  mk (column c) (idx c) (width c) (left c) (frozen c) (rowGroup c) (sortable c)
     (resizable c) (formatter c) (groupFormatter c) true.
End CalculatedColumn.

(** ** Column metrics ([getColumnMetrics]) *)

(** [/^\d+%$/.test (s)]: one or more ASCII digits, then a percent sign, then
    the end of the string. *)
Definition isDigit (c : ascii) : bool :=
  let n := nat_of_ascii c in (48 <=? n)%nat && (n <=? 57)%nat.

Fixpoint digitsThenPercent (seenDigit : bool) (s : string) : bool :=
  match s with
  | EmptyString => false
  | String c s' =>
      if isDigit c then digitsThenPercent true s'
      else seenDigit && Ascii.eqb c "%"%char && String.eqb s' EmptyString
  end.

Definition isPercentage (s : string) : bool := digitsThenPercent false s.

(** [parseInt (s, 10)] on a string that starts with a digit: the value of its
    leading digits.  (It is only called after [isPercentage].) *)
Fixpoint parseDigits (acc : Z) (s : string) : Z :=
  match s with
  | EmptyString => acc
  | String c s' =>
      if isDigit c then parseDigits (10 * acc + (Z.of_nat (nat_of_ascii c) - 48)) s'
      else acc
  end.

Definition parseInt10 (s : string) : Z := parseDigits 0 s.

Record Metrics (R : Type) : Type := {
  rawColumns : list (Column.t R);
  columnWidths : gmap string Z;
  minColumnWidth : Z;
  viewportWidth : Z;
  defaultSortable : bool;
  defaultResizable : bool;
  defaultFormatter : Renderer;
  rawGroupBy : option (list string)
}.
Arguments rawColumns {R}.
Arguments columnWidths {R}.
Arguments minColumnWidth {R}.
Arguments viewportWidth {R}.
Arguments defaultSortable {R}.
Arguments defaultResizable {R}.
Arguments defaultFormatter {R}.
Arguments rawGroupBy {R}.

Record ColumnMetrics (R : Type) : Type := {
  columns : list (CalculatedColumn.t R);
  lastFrozenColumnIndex : Z;
  totalFrozenColumnWidth : Z;
  totalColumnWidth : Z;
  groupBy : list string
}.
Arguments columns {R}.
Arguments lastFrozenColumnIndex {R}.
Arguments totalFrozenColumnWidth {R}.
Arguments totalColumnWidth {R}.
Arguments groupBy {R}.

Section ColumnMetrics.
Context {R : Type}.

Definition getSpecifiedWidth (c : Column.t R) (columnWidths : gmap string Z)
    (viewportWidth : Z) : option Z :=
  match columnWidths !! Column.key c with
  | Some resized => Some resized
  | None =>
      match Column.width c with
      | WidthNumber w => Some w
      | WidthString s =>
          if isPercentage s then Some (floorDiv (viewportWidth * parseInt10 s) 100)
          else None
      | WidthUnset => None
      end
  end.

Definition clampColumnWidth (width : Z) (minWidth maxWidth : option Z)
    (minColumnWidth : Z) : Z :=
  let width := Z.max width (default minColumnWidth minWidth) in
  match maxWidth with
  | Some maxWidth => Z.min width maxWidth
  | None => width
  end.

(** [rawGroupBy?.includes (key)]: [undefined] (falsy) without a list. *)
Definition groupByIncludes (rawGroupBy : option (list string)) (key : string) : bool :=
  match rawGroupBy with
  | Some keys => includes keys key
  | None => false
  end.

(** The counters the first [map] updates as it goes, and the columns it has
    produced. *)
Record FirstPass : Type := {
  allocatedWidths : Z;
  unassignedColumnsCount : Z;
  lastFrozenAcc : Z;
  mapped : list (MappedColumn.t R)
}.

Definition mapColumn (m : Metrics R) (st : FirstPass) (metricsColumn : Column.t R)
    : FirstPass :=
  let '(width, allocated, unassigned) :=
    match getSpecifiedWidth metricsColumn (columnWidths m) (viewportWidth m) with
    | None => (None, allocatedWidths st, unassignedColumnsCount st + 1)
    | Some width =>
        let width :=
          clampColumnWidth width (Column.minWidth metricsColumn)
            (Column.maxWidth metricsColumn) (minColumnWidth m) in
        (Some width, allocatedWidths st + width, unassignedColumnsCount st)
    end in
  let grouped := groupByIncludes (rawGroupBy m) (Column.key metricsColumn) in
  let frozen := if grouped then true else Column.frozen metricsColumn in
  {| allocatedWidths := allocated;
     unassignedColumnsCount := unassigned;
     lastFrozenAcc := if frozen then lastFrozenAcc st + 1 else lastFrozenAcc st;
     mapped := mapped st ++ [MappedColumn.mk metricsColumn width frozen grouped] |}.

Definition firstPass (m : Metrics R) : FirstPass :=
  foldl (mapColumn m)
    {| allocatedWidths := 0; unassignedColumnsCount := 0; lastFrozenAcc := -1;
       mapped := [] |}
    (rawColumns m).

(** The comparator handed to [columns.sort]. *)
Definition compareColumns (rawGroupBy : option (list string))
    (a b : MappedColumn.t R) : Z :=
  let aKey := MappedColumn.key a in
  let bKey := MappedColumn.key b in
  if String.eqb aKey SELECT_COLUMN_KEY then -1
  else if String.eqb bKey SELECT_COLUMN_KEY then 1
  else if groupByIncludes rawGroupBy aKey then
    if groupByIncludes rawGroupBy bKey then
      indexOf (default [] rawGroupBy) aKey - indexOf (default [] rawGroupBy) bKey
    else -1
  else if groupByIncludes rawGroupBy bKey then 1
  else if MappedColumn.frozen a then
    if MappedColumn.frozen b then 0 else -1
  else if MappedColumn.frozen b then 1
  else 0.

(** The accumulators of the second [map]: the running [left], [totalWidth],
    the [groupBy] array being pushed to, and the calculated columns so far
    (their number is the next [idx]). *)
Record SecondPass : Type := {
  leftAcc : Z;
  totalWidth : Z;
  groupByAcc : list string;
  calculated : list (CalculatedColumn.t R)
}.

Definition calculateColumn (m : Metrics R) (unallocatedColumnWidth : Z)
    (st : SecondPass) (column : MappedColumn.t R) : SecondPass :=
  let raw := MappedColumn.column column in
  let width :=
    match MappedColumn.width column with
    | Some w => w
    | None => clampColumnWidth unallocatedColumnWidth (Column.minWidth raw)
                (Column.maxWidth raw) (minColumnWidth m)
    end in
  let newColumn :=
    CalculatedColumn.mk raw (js_length (calculated st)) width (leftAcc st)
      (MappedColumn.frozen column) (MappedColumn.rowGroup column)
      (default (defaultSortable m) (Column.sortable raw))
      (default (defaultResizable m) (Column.resizable raw))
      (default (defaultFormatter m) (Column.formatter raw))
      (if MappedColumn.rowGroup column
       then Some (default ToggleGroupFormatter (Column.groupFormatter raw))
       else Column.groupFormatter raw)
      false in
  {| leftAcc := leftAcc st + width;
     totalWidth := totalWidth st + width;
     groupByAcc :=
       if MappedColumn.rowGroup column
       then groupByAcc st ++ [Column.key raw] else groupByAcc st;
     calculated := calculated st ++ [newColumn] |}.

Definition secondPass (m : Metrics R) (unallocatedColumnWidth : Z)
    (sorted : list (MappedColumn.t R)) : SecondPass :=
  foldl (calculateColumn m unallocatedColumnWidth)
    {| leftAcc := 0; totalWidth := 0; groupByAcc := []; calculated := [] |} sorted.

(** [Math.max (Math.floor (unallocatedWidth / unassignedColumnsCount),
    minColumnWidth)].  With no unassigned column the quotient is [Infinity] or
    [NaN] in JavaScript and is never read; here it is whatever [Z.div] by [0]
    gives. *)
Definition unallocatedColumnWidthOf (m : Metrics R) (p : FirstPass) : Z :=
  let unallocatedWidth := viewportWidth m - allocatedWidths p in
  Z.max (floorDiv unallocatedWidth (unassignedColumnsCount p)) (minColumnWidth m).

Definition sortedColumns (m : Metrics R) : list (MappedColumn.t R) :=
  sort (compareColumns (rawGroupBy m)) (mapped (firstPass m)).

Definition getColumnMetrics (m : Metrics R) : ColumnMetrics R :=
  let p := firstPass m in
  let lastFrozenColumnIndex := lastFrozenAcc p in
  let columns := sortedColumns m in
  let q := secondPass m (unallocatedColumnWidthOf m p) columns in
  let calculatedColumns := calculated q in
  if lastFrozenColumnIndex =? -1 then
    {| columns := calculatedColumns;
       lastFrozenColumnIndex := lastFrozenColumnIndex;
       totalFrozenColumnWidth := 0;
       totalColumnWidth := totalWidth q;
       groupBy := groupByAcc q |}
  else
    {| columns :=
         alter CalculatedColumn.setLastFrozen (Z.to_nat lastFrozenColumnIndex)
           calculatedColumns;
       lastFrozenColumnIndex := lastFrozenColumnIndex;
       (* the frozen columns are counted among the columns, so the lookup
          finds one ([lastFrozenColumn_defined]) *)
       totalFrozenColumnWidth :=
         match js_get calculatedColumns lastFrozenColumnIndex with
         | Some lastFrozenColumn =>
             CalculatedColumn.left lastFrozenColumn + CalculatedColumn.width lastFrozenColumn
         | None => 0
         end;
       totalColumnWidth := totalWidth q;
       groupBy := groupByAcc q |}.

End ColumnMetrics.

(** ** Row grouping, flattening and the row window ([useViewportRows]) *)

(** What [groupRows] builds: at the last group-by key the child rows
    themselves (an array), above it an object from group key to group, listed
    in property order. *)
Inductive GroupedRows (R : Type) : Type :=
| RowArray (rows : list R)
| GroupObject (groups : list (string * Group R))
with Group (R : Type) : Type :=
| mkGroup (childRows : list R) (childGroups : GroupedRows R) (startRowIndex : Z).
Arguments RowArray {R} rows.
Arguments GroupObject {R} groups.
Arguments mkGroup {R} childRows childGroups startRowIndex.

(** A group header of the flattened sequence. *)
Record GroupRow (R : Type) : Type := {
  id : string;
  parentId : option string;
  groupKey : string;
  isExpanded : bool;
  childRows : list R;
  level : Z;
  posInSet : Z;
  startRowIndex : Z;
  setSize : Z
}.
Arguments id {R}.
Arguments parentId {R}.
Arguments groupKey {R}.
Arguments isExpanded {R}.
Arguments childRows {R}.
Arguments level {R}.
Arguments posInSet {R}.
Arguments startRowIndex {R}.
Arguments setSize {R}.

(** An entry of [rows]: a row of the caller, or a group header.  The set
    [allGroupRows] holds exactly the headers pushed by [expandGroup], so
    membership in it is the constructor. *)
Inductive ViewRow (R : Type) : Type :=
| Row (row : R)
| GroupHeader (groupRow : GroupRow R).
Arguments Row {R} row.
Arguments GroupHeader {R} groupRow.

(** [isGroupRow (rows[i])]; [undefined] is in no set. *)
Definition isGroupRow {R : Type} (row : option (ViewRow R)) : bool :=
  match row with
  | Some (GroupHeader _) => true
  | _ => false
  end.

(** The caller's [rowGrouper (rows, columnKey)], read through
    [Object.entries]: the groups in property order, each key once. *)
Definition RowGrouper (R : Type) : Type := list R → string → list (string * list R).

(** An assignment that writes a property of the object's own: the value of
    the key is replaced where the key is listed, and the key is added at the
    end where it is not. *)
Fixpoint setOwnProperty {V : Type} (o : list (string * V)) (key : string) (v : V)
    : list (string * V) :=
  match o with
  | [] => [(key, v)]
  | (k, v') :: o' =>
      if String.eqb k key then (k, v) :: o' else (k, v') :: setOwnProperty o' key v
  end.

(** [o[key] = v] on an object made by [{}], listed as [Object.keys] and
    [Object.entries] list it: the properties of its own, in property order.
    The key [__proto__] is the accessor inherited from [Object.prototype]:
    assigning an object to it sets the prototype of [o] and adds no property
    of its own, so the listing stays as it is.  Every other key writes a
    property of [o]'s own.  (The entries written here come from
    [Object.entries], index keys first, so adding at the end keeps the
    property order.) *)
Definition objSet {V : Type} (o : list (string * V)) (key : string) (v : V)
    : list (string * V) :=
  if String.eqb key "__proto__" then o else setOwnProperty o key v.

Definition RENDER_BACTCH_SIZE : Z := 8.

Record ViewportRows (R : Type) : Type := {
  rowOverscanStartIdx : Z;
  rowOverscanEndIdx : Z;
  rows : list (ViewRow R);
  rowsCount : Z
}.
Arguments rowOverscanStartIdx {R}.
Arguments rowOverscanEndIdx {R}.
Arguments rows {R}.
Arguments rowsCount {R}.

Section ViewportRows.
Context {R : Type}.

(** [groupRows (rows, [groupByKey, ...remainingGroupByKeys], startRowIndex)]:
    the groups and the number of rows they account for. *)
Fixpoint groupRows (rowGrouper : RowGrouper R) (rows : list R) (groupByKey : string)
    (remainingGroupByKeys : list string) (startRowIndex : Z)
    {struct remainingGroupByKeys} : list (string * Group R) * Z :=
  foldl
    (fun (acc : list (string * Group R) * Z) (entry : string * list R) =>
       let '(groups, groupRowsCount) := acc in
       let '(key, childRows) := entry in
       let '(childGroups, childRowsCount) :=
         match remainingGroupByKeys with
         | [] => (RowArray childRows, js_length childRows)
         | nextKey :: keys =>
             let '(g, n) :=
               groupRows rowGrouper childRows nextKey keys
                 (startRowIndex + groupRowsCount + 1) in
             (GroupObject g, n)
         end in
       (objSet groups key
          (mkGroup childRows childGroups (startRowIndex + groupRowsCount)),
        groupRowsCount + childRowsCount + 1))
    ([], 0) (rowGrouper rows groupByKey).

(** [`${parentId}__${groupKey}`], or [groupKey] at the root. *)
Definition groupId (parentId : option string) (groupKey : string) : string :=
  match parentId with
  | Some parent => (parent +:+ "__" +:+ groupKey)%string
  | None => groupKey
  end.

(** [expandedGroupIds?.has (id) ?? false]. *)
Definition isExpandedId (expandedGroupIds : option (gset string)) (id : string) : bool :=
  match expandedGroupIds with
  | Some ids => bool_decide (id ∈ ids)
  | None => false
  end.

Definition makeGroupRow (expandedGroupIds : option (gset string))
    (parentId : option string) (level setSize posInSet : Z) (groupKey : string)
    (group : Group R) : GroupRow R :=
  let '(mkGroup childRows _ startRowIndex) := group in
  {| id := groupId parentId groupKey;
     parentId := parentId;
     groupKey := groupKey;
     isExpanded := isExpandedId expandedGroupIds (groupId parentId groupKey);
     childRows := childRows;
     level := level;
     posInSet := posInSet;
     startRowIndex := startRowIndex;
     setSize := setSize |}.

Definition childGroupsOf (group : Group R) : GroupedRows R :=
  let '(mkGroup _ childGroups _) := group in childGroups.

(** [expandGroup (rows, parentId, level)], with the array [flattenedRows] it
    pushes to passed in and handed back. *)
Fixpoint expandGroup (expandedGroupIds : option (gset string)) (rows : GroupedRows R)
    (parentId : option string) (level : Z) (flattenedRows : list (ViewRow R))
    : list (ViewRow R) :=
  match rows with
  | RowArray rows => flattenedRows ++ map Row rows
  | GroupObject groups =>
      (fix forEach (entries : list (string * Group R)) (posInSet : Z)
           (flattenedRows : list (ViewRow R)) : list (ViewRow R) :=
         match entries with
         | [] => flattenedRows
         | (groupKey, group) :: entries' =>
             let groupRow :=
               makeGroupRow expandedGroupIds parentId level (js_length groups)
                 posInSet groupKey group in
             let flattenedRows := flattenedRows ++ [GroupHeader groupRow] in
             let flattenedRows :=
               if isExpanded groupRow then
                 match group with
                 | mkGroup _ childGroups _ =>
                     expandGroup expandedGroupIds childGroups (Some (id groupRow))
                       (level + 1) flattenedRows
                 end
               else flattenedRows in
             forEach entries' (posInSet + 1) flattenedRows
         end) groups 0 flattenedRows
  end.

(** The first memo of [useViewportRows]: [[groupedRows, rowsCount]]. *)
Definition groupedRowsOf (rawRows : list R) (groupBy : list string)
    (rowGrouper : option (RowGrouper R)) : option (list (string * Group R)) * Z :=
  match groupBy, rowGrouper with
  | groupByKey :: remainingGroupByKeys, Some rowGrouper =>
      let '(groups, n) := groupRows rowGrouper rawRows groupByKey remainingGroupByKeys 0 in
      (Some groups, n)
  | _, _ => (None, js_length rawRows)
  end.

(** The second memo: the flattened [rows]. *)
Definition flattenRows (rawRows : list R) (groupedRows : option (list (string * Group R)))
    (expandedGroupIds : option (gset string)) : list (ViewRow R) :=
  match groupedRows with
  | None => map Row rawRows
  | Some groups => expandGroup expandedGroupIds (GroupObject groups) None 0 []
  end.

Definition overscanThreshold : Z := 4.

(** The visible range the overscan window is built around. *)
Definition rowVisibleStartIdx (rowHeight scrollTop : Z) : Z := floorDiv scrollTop rowHeight.
Definition rowVisibleEndIdx (len rowHeight clientHeight scrollTop : Z) : Z :=
  Z.min (len - 1) (floorDiv (scrollTop + clientHeight) rowHeight).

Definition useViewportRows (rawRows : list R) (rowHeight clientHeight scrollTop : Z)
    (groupBy : list string) (rowGrouper : option (RowGrouper R))
    (expandedGroupIds : option (gset string)) : ViewportRows R :=
  let '(groupedRows, rowsCount) := groupedRowsOf rawRows groupBy rowGrouper in
  let rows := flattenRows rawRows groupedRows expandedGroupIds in
  let rowVisibleStartIdx := rowVisibleStartIdx rowHeight scrollTop in
  let rowVisibleEndIdx :=
    rowVisibleEndIdx (js_length rows) rowHeight clientHeight scrollTop in
  let rowOverscanStartIdx :=
    Z.max 0
      (floorDiv (rowVisibleStartIdx - overscanThreshold) RENDER_BACTCH_SIZE
       * RENDER_BACTCH_SIZE) in
  let rowOverscanEndIdx :=
    Z.min (js_length rows - 1)
      (ceilDiv (rowVisibleEndIdx + overscanThreshold) RENDER_BACTCH_SIZE
       * RENDER_BACTCH_SIZE) in
  {| rowOverscanStartIdx := rowOverscanStartIdx;
     rowOverscanEndIdx := rowOverscanEndIdx;
     rows := rows;
     rowsCount := rowsCount |}.

(** The flattening as the specification words it: depth first, in insertion
    order, a header for every group that is reached and the content of a
    group only when its id is expanded. *)
Fixpoint flattenDepthFirst (expandedGroupIds : option (gset string))
    (rows : GroupedRows R) (parentId : option string) (level : Z) : list (ViewRow R) :=
  match rows with
  | RowArray rows => map Row rows
  | GroupObject groups =>
      (fix each (entries : list (string * Group R)) (posInSet : Z) : list (ViewRow R) :=
         match entries with
         | [] => []
         | (groupKey, group) :: entries' =>
             let header :=
               makeGroupRow expandedGroupIds parentId level (js_length groups)
                 posInSet groupKey group in
             let content :=
               if isExpandedId expandedGroupIds (groupId parentId groupKey) then
                 match group with
                 | mkGroup _ childGroups _ =>
                     flattenDepthFirst expandedGroupIds childGroups
                       (Some (groupId parentId groupKey)) (level + 1)
                 end
               else [] in
             GroupHeader header :: content ++ each entries' (posInSet + 1)
         end) groups 0
  end.

End ViewportRows.

(** ** Cell positions and keyboard navigation *)

Inductive CellNavigationMode : Type := NONE | CHANGE_ROW | LOOP_OVER_ROW.

Module Position.
Record t : Type := mk { idx : Z; rowIdx : Z }.
End Position.

(** [selectedPosition.mode] with what an open editor carries: the key that
    opened it, the staged row and the row as it was when the editor opened. *)
Inductive Mode (R : Type) : Type :=
| SELECT
| EDIT (key : option string) (row originalRow : R).
Arguments SELECT {R}.
Arguments EDIT {R} key row originalRow.

Record SelectedPosition (R : Type) : Type := {
  position : Position.t;
  mode : Mode R
}.
Arguments position {R}.
Arguments mode {R}.

(** The initial [selectedPosition]: nothing is selected. *)
Definition unselected {R : Type} : SelectedPosition R :=
  {| position := Position.mk (-1) (-1); mode := SELECT |}.

Definition isEditMode {R : Type} (m : Mode R) : bool :=
  match m with
  | SELECT => false
  | EDIT _ _ _ => true
  end.

Definition isPrintable (keycode : Z) : bool :=
  ((47 <? keycode) && (keycode <? 58))
  || (keycode =? 32) || (keycode =? 13)
  || ((64 <? keycode) && (keycode <? 91))
  || ((95 <? keycode) && (keycode <? 112))
  || ((185 <? keycode) && (keycode <? 193))
  || ((218 <? keycode) && (keycode <? 223)).

Definition isCtrlKeyHeldDown (e : KeyboardEvent) : bool :=
  (ev_ctrlKey e || ev_metaKey e) && negb (String.eqb (ev_key e) "Control").

Definition isDefaultCellInput (event : KeyboardEvent) : bool :=
  isPrintable (ev_keyCode event)
  || includes ["Enter"; "F2"; "Backspace"; "Delete"]%string (ev_key event).

(** The default [onNavigation] of an open editor. *)
Definition onEditorNavigation (event : KeyboardEvent) : bool :=
  String.eqb (ev_key event) "Tab" && ev_targetIsSoleEditorInput event.

Definition getNextSelectedCellPosition (cellNavigationMode : CellNavigationMode)
    (columnsCount rowsCount : Z) (nextPosition : Position.t) : Position.t :=
  match cellNavigationMode with
  | NONE => nextPosition
  | _ =>
      let idx := Position.idx nextPosition in
      let rowIdx := Position.rowIdx nextPosition in
      let isAfterLastColumn := idx =? columnsCount in
      let isBeforeFirstColumn := idx =? -1 in
      if isAfterLastColumn then
        match cellNavigationMode with
        | CHANGE_ROW =>
            let isLastRow := rowIdx =? rowsCount - 1 in
            if negb isLastRow then Position.mk 0 (rowIdx + 1) else nextPosition
        | LOOP_OVER_ROW => Position.mk 0 rowIdx
        | NONE => nextPosition
        end
      else if isBeforeFirstColumn then
        match cellNavigationMode with
        | CHANGE_ROW =>
            let isFirstRow := rowIdx =? 0 in
            if negb isFirstRow then Position.mk (columnsCount - 1) (rowIdx - 1)
            else nextPosition
        | LOOP_OVER_ROW => Position.mk (columnsCount - 1) rowIdx
        | NONE => nextPosition
        end
      else nextPosition
  end.

Definition canExitGrid (cellNavigationMode : CellNavigationMode)
    (columnsCount rowsCount : Z) (selectedPosition : Position.t) (shiftKey : bool) : bool :=
  match cellNavigationMode with
  | NONE | CHANGE_ROW =>
      let atLastCellInRow := Position.idx selectedPosition =? columnsCount - 1 in
      let atFirstCellInRow := Position.idx selectedPosition =? 0 in
      let atLastRow := Position.rowIdx selectedPosition =? rowsCount - 1 in
      let atFirstRow := Position.rowIdx selectedPosition =? 0 in
      if shiftKey then atFirstCellInRow && atFirstRow else atLastCellInRow && atLastRow
  | LOOP_OVER_ROW => false
  end.

(** ** Handlers: effects and exceptions *)

Inductive JsError : Type :=
| TypeError
| Error (message : string).

(** [copiedCell]: the row is read from [rawRows] and may be [undefined]. *)
Record CopiedCell (R : Type) : Type := {
  copiedRow : option R;
  copiedColumnKey : string
}.
Arguments copiedRow {R}.
Arguments copiedColumnKey {R}.

(** The argument of the caller's [onPaste]. *)
Record PasteEvent (R : Type) : Type := {
  sourceRow : option R;
  sourceColumnKey : string;
  targetRow : option R;
  targetColumnKey : string
}.
Arguments sourceRow {R}.
Arguments sourceColumnKey {R}.
Arguments targetRow {R}.
Arguments targetColumnKey {R}.

(** What a handler does to the world: queued state updates
    ([setSelectedPosition] with a value or an updater, ...), writes to refs,
    and calls of the caller's callbacks with their argument. *)
Inductive Effect (R K : Type) `{Countable K} : Type :=
| SetSelectedPosition (update : SelectedPosition R → SelectedPosition R)
| SetCopiedCell (cell : option (CopiedCell R))
| SetDraggedOverRowIdx (rowIdx : option Z)
| SetLastSelectedRowIdx (rowIdx : Z)
| OnRowsChange (updatedRows : JsArray R)
| OnSelectedCellChange (position : Position.t)
| OnSelectedRowsChange (selectedRows : gset K)
| OnExpandedGroupIdsChange (ids : gset string)
| PreventDefault.
Arguments SetSelectedPosition {R K _ _} update.
Arguments SetCopiedCell {R K _ _} cell.
Arguments SetDraggedOverRowIdx {R K _ _} rowIdx.
Arguments SetLastSelectedRowIdx {R K _ _} rowIdx.
Arguments OnRowsChange {R K _ _} updatedRows.
Arguments OnSelectedCellChange {R K _ _} position.
Arguments OnSelectedRowsChange {R K _ _} selectedRows.
Arguments OnExpandedGroupIdsChange {R K _ _} ids.
Arguments PreventDefault {R K _ _}.

Inductive Outcome (A : Type) : Type :=
| Returned (a : A)
| Threw (e : JsError).
Arguments Returned {A} a.
Arguments Threw {A} e.

(** A handler run: the effects in the order they happened, and how it ended.
    The effects before a [throw] have happened. *)
Definition Run (R K : Type) `{Countable K} (A : Type) : Type :=
  (list (Effect R K) * Outcome A)%type.

Section RunMonad.
Context {R K : Type} `{Countable K}.

Definition ret {A : Type} (a : A) : Run R K A := ([], Returned a).
Definition throw {A : Type} (e : JsError) : Run R K A := ([], Threw e).
Definition emit (e : Effect R K) : Run R K unit := ([e], Returned tt).

Definition bind {A B : Type} (m : Run R K A) (f : A → Run R K B) : Run R K B :=
  match m with
  | (effects, Returned a) => let '(effects', out) := f a in (effects ++ effects', out)
  | (effects, Threw e) => (effects, Threw e)
  end.

Definition effectsOf {A : Type} (m : Run R K A) : list (Effect R K) := m.1.
Definition outcomeOf {A : Type} (m : Run R K A) : Outcome A := m.2.

End RunMonad.

Declare Scope run_scope.
Delimit Scope run_scope with run.
Notation "'let*' x := m 'in' k" := (bind m (fun x => k))
  (at level 10, x name, m at level 100, k at level 200) : run_scope.
Notation "m ;; k" := (bind m (fun _ => k))
  (at level 100, k at level 200, right associativity) : run_scope.

(** ** The grid ([DataGrid]) *)

(** The props of [DataGrid], with the pieces of its state that the selection
    handlers only read ([gridWidth], [gridHeight], [scrollTop],
    [columnWidths]).  A callback prop whose call is recorded as an [Effect] is
    a flag: whether the caller supplied it.  [rowKeyGetter] is [None] when the
    prop is not a function; a key getter or an [editable] predicate may be
    handed [undefined] ([None]) when a row index is stale. *)
Record Grid (R K : Type) `{Countable K} : Type := {
  g_rawColumns : list (Column.t R);
  rawRows : list R;
  summaryRowsCount : Z;
  rowKeyGetter : option (option R → K);
  onRowsChange : bool;
  rowHeight : Z;
  headerRowHeight : option Z;
  headerFiltersHeight : Z;
  selectedRows : option (gset K);
  onSelectedRowsChange : bool;
  defaultMinWidth : option Z;
  defaultColumnFormatter : option Renderer;
  defaultColumnSortable : option bool;
  defaultColumnResizable : option bool;
  g_rawGroupBy : option (list string);
  rowGrouper : option (RowGrouper R);
  expandedGroupIds : option (gset string);
  onExpandedGroupIdsChange : bool;
  onSelectedCellChange : bool;
  onPaste : option (PasteEvent R → R);
  enableFilterRow : bool;
  cellNavigationMode : CellNavigationMode;
  gridWidth : Z;
  gridHeight : Z;
  scrollTop : Z;
  g_columnWidths : gmap string Z
}.
Arguments g_rawColumns {R K _ _}.
Arguments rawRows {R K _ _}.
Arguments summaryRowsCount {R K _ _}.
Arguments rowKeyGetter {R K _ _}.
Arguments onRowsChange {R K _ _}.
Arguments rowHeight {R K _ _}.
Arguments headerRowHeight {R K _ _}.
Arguments headerFiltersHeight {R K _ _}.
Arguments selectedRows {R K _ _}.
Arguments onSelectedRowsChange {R K _ _}.
Arguments defaultMinWidth {R K _ _}.
Arguments defaultColumnFormatter {R K _ _}.
Arguments defaultColumnSortable {R K _ _}.
Arguments defaultColumnResizable {R K _ _}.
Arguments g_rawGroupBy {R K _ _}.
Arguments rowGrouper {R K _ _}.
Arguments expandedGroupIds {R K _ _}.
Arguments onExpandedGroupIdsChange {R K _ _}.
Arguments onSelectedCellChange {R K _ _}.
Arguments onPaste {R K _ _}.
Arguments enableFilterRow {R K _ _}.
Arguments cellNavigationMode {R K _ _}.
Arguments gridWidth {R K _ _}.
Arguments gridHeight {R K _ _}.
Arguments scrollTop {R K _ _}.
Arguments g_columnWidths {R K _ _}.

(** The state the selection handlers write. *)
Record State (R : Type) : Type := {
  selectedPosition : SelectedPosition R;
  copiedCell : option (CopiedCell R);
  draggedOverRowIdx : option Z;
  lastSelectedRowIdx : Z
}.
Arguments selectedPosition {R}.
Arguments copiedCell {R}.
Arguments draggedOverRowIdx {R}.
Arguments lastSelectedRowIdx {R}.

Definition initialState {R : Type} : State R :=
  {| selectedPosition := unselected;
     copiedCell := None;
     draggedOverRowIdx := None;
     lastSelectedRowIdx := -1 |}.

Section DataGrid.
Context {R K : Type} `{EqDecision R} `{Countable K}.
Local Open Scope run_scope.

(** *** Computed values of a render *)

(** [useViewportColumns]: the metrics of the columns. *)
Definition gridMetrics (g : Grid R K) : ColumnMetrics R :=
  getColumnMetrics
    {| rawColumns := g_rawColumns g;
       columnWidths := g_columnWidths g;
       minColumnWidth := default 80 (defaultMinWidth g);
       viewportWidth := gridWidth g;
       defaultSortable := default false (defaultColumnSortable g);
       defaultResizable := default false (defaultColumnResizable g);
       defaultFormatter := default ValueFormatter (defaultColumnFormatter g);
       rawGroupBy := if rowGrouper g is Some _ then g_rawGroupBy g else None |}.

Definition gridColumns (g : Grid R K) : list (CalculatedColumn.t R) :=
  columns (gridMetrics g).

Definition gridGroupBy (g : Grid R K) : list string := groupBy (gridMetrics g).

Definition clientHeight (g : Grid R K) : Z :=
  let totalHeaderHeight :=
    default (rowHeight g) (headerRowHeight g)
    + (if enableFilterRow g then headerFiltersHeight g else 0) in
  gridHeight g - totalHeaderHeight - summaryRowsCount g * rowHeight g.

Definition gridViewportRows (g : Grid R K) : ViewportRows R :=
  useViewportRows (rawRows g) (rowHeight g) (clientHeight g) (scrollTop g)
    (gridGroupBy g) (rowGrouper g) (expandedGroupIds g).

Definition gridRows (g : Grid R K) : list (ViewRow R) := rows (gridViewportRows g).

Definition hasGroups (g : Grid R K) : bool :=
  (0 <? js_length (gridGroupBy g)) && (if rowGrouper g is Some _ then true else false).

Definition minColIdx (g : Grid R K) : Z := if hasGroups g then -1 else 0.

(** *** Utilities *)

Definition isCellWithinBounds (g : Grid R K) (p : Position.t) : bool :=
  (0 <=? Position.rowIdx p) && (Position.rowIdx p <? js_length (gridRows g))
  && (minColIdx g <=? Position.idx p) && (Position.idx p <? js_length (gridColumns g)).

(** [(typeof column.editable === 'function' ? column.editable (row)
    : column.editable) !== false]. *)
Definition editableAllows (e : Editable R) (row : option R) : bool :=
  match e with
  | EditableUnset => true
  | EditableFlag b => b
  | EditablePredicate f => f row
  end.

(** The caller's row in a [rows] entry, as a callback receives it. *)
Definition callerRow (row : option (ViewRow R)) : option R :=
  match row with
  | Some (Row r) => Some r
  | _ => None
  end.

(** [isSelectedCellEditable]; reading [column.editor] of a missing column is
    a [TypeError]. *)
Definition isSelectedCellEditable (columns : list (CalculatedColumn.t R))
    (rows : list (ViewRow R)) (selectedPosition : Position.t) : Run R K bool :=
  match js_get columns (Position.idx selectedPosition) with
  | None => throw TypeError
  | Some column =>
      let row := js_get rows (Position.rowIdx selectedPosition) in
      ret
        ((if CalculatedColumn.editor column is EditorComponent _ then true else false)
         && negb (CalculatedColumn.rowGroup column)
         && negb (isGroupRow row)
         && editableAllows (CalculatedColumn.editable column) (callerRow row))
  end.

Definition isCellEditable (g : Grid R K) (p : Position.t) : Run R K bool :=
  if isCellWithinBounds g p then isSelectedCellEditable (gridColumns g) (gridRows g) p
  else ret false.

(** [getRawRowIdx]: a group header or [undefined] is not among [rawRows]. *)
Definition getRawRowIdx (g : Grid R K) (rowIdx : Z) : Z :=
  if hasGroups g then
    match js_get (gridRows g) rowIdx with
    | Some (Row row) => indexOf (rawRows g) row
    | _ => -1
    end
  else rowIdx.

(** *** Editing *)

Definition closeEditor (s : State R) : Run R K unit :=
  match mode (selectedPosition s) with
  | SELECT => ret tt
  | EDIT _ _ _ =>
      emit (SetSelectedPosition
              (fun sp => {| position := position sp; mode := SELECT |}))
  end.

Definition commitEditorChanges (g : Grid R K) (s : State R) : Run R K unit :=
  let sp := selectedPosition s in
  let editorUndefined :=
    match js_get (gridColumns g) (Position.idx (position sp)) with
    | None => true
    | Some column =>
        if CalculatedColumn.editor column is EditorUndefined then true else false
    end in
  match mode sp with
  | SELECT => ret tt
  | EDIT _ row originalRow =>
      if editorUndefined || bool_decide (row = originalRow) then ret tt
      else
        let updatedRows :=
          arraySet (spread (rawRows g))
            (getRawRowIdx g (Position.rowIdx (position sp))) row in
        if onRowsChange g then emit (OnRowsChange updatedRows) else ret tt
  end.

Definition handleRowChange (g : Grid R K) (s : State R) (row : R) (commitChanges : bool)
    : Run R K unit :=
  match mode (selectedPosition s) with
  | SELECT => ret tt
  | EDIT _ _ _ =>
      if commitChanges then
        let updatedRows :=
          arraySet (spread (rawRows g))
            (getRawRowIdx g (Position.rowIdx (position (selectedPosition s)))) row in
        (if onRowsChange g then emit (OnRowsChange updatedRows) else ret tt);;
        closeEditor s
      else
        emit (SetSelectedPosition
                (fun sp =>
                   {| position := position sp;
                      mode := match mode sp with
                              | EDIT key _ originalRow => EDIT key row originalRow
                              | SELECT => SELECT
                              end |}))
  end.

Definition handleOnClose (g : Grid R K) (s : State R) (commitChanges : bool) : Run R K unit :=
  (if commitChanges then commitEditorChanges g s else ret tt);;
  closeEditor s.

(** *** Selecting a cell *)

Definition selectCell (g : Grid R K) (s : State R) (p : Position.t) (enableEditor : bool)
    : Run R K unit :=
  if negb (isCellWithinBounds g p) then ret tt
  else
    commitEditorChanges g s;;
    let* editable := (if enableEditor then isCellEditable g p else ret false) in
    (if editable then
       match js_get (gridRows g) (Position.rowIdx p) with
       | Some (Row row) =>
           emit (SetSelectedPosition
                   (fun _ => {| position := p; mode := EDIT None row row |}))
       | _ =>
           (* not reached: an editable cell is on a row of the caller
              ([isCellEditable_row]) *)
           emit (SetSelectedPosition (fun _ => {| position := p; mode := SELECT |}))
       end
     else emit (SetSelectedPosition (fun _ => {| position := p; mode := SELECT |})));;
    (if onSelectedCellChange g then emit (OnSelectedCellChange p) else ret tt).

(** *** Copy and paste *)

Definition handleCopy (g : Grid R K) (s : State R) : Run R K unit :=
  let idx := Position.idx (position (selectedPosition s)) in
  let rowIdx := Position.rowIdx (position (selectedPosition s)) in
  match js_get (gridColumns g) idx with
  | None => throw TypeError
  | Some column =>
      emit (SetCopiedCell
              (Some {| copiedRow := js_get (rawRows g) (getRawRowIdx g rowIdx);
                       copiedColumnKey := CalculatedColumn.key column |}))
  end.

Definition handlePaste (g : Grid R K) (s : State R) : Run R K unit :=
  let idx := Position.idx (position (selectedPosition s)) in
  let rowIdx := Position.rowIdx (position (selectedPosition s)) in
  let targetRow := js_get (rawRows g) (getRawRowIdx g rowIdx) in
  match onPaste g with
  | None => ret tt
  | Some onPaste =>
      if negb (onRowsChange g) then ret tt
      else
        match copiedCell s with
        | None => ret tt
        | Some copied =>
            let* editable := isCellEditable g (position (selectedPosition s)) in
            if negb editable then ret tt
            else
              match js_get (gridColumns g) idx with
              | None => throw TypeError
              | Some column =>
                  let updatedTargetRow :=
                    onPaste {| sourceRow := copiedRow copied;
                               sourceColumnKey := copiedColumnKey copied;
                               targetRow := targetRow;
                               targetColumnKey := CalculatedColumn.key column |} in
                  let updatedRows := arraySet (spread (rawRows g)) rowIdx updatedTargetRow in
                  emit (OnRowsChange updatedRows)
              end
        end
  end.

(** *** Keyboard *)

Definition handleCellInput (g : Grid R K) (s : State R) (event : KeyboardEvent)
    : Run R K unit :=
  let sp := selectedPosition s in
  if negb (isCellWithinBounds g (position sp)) then ret tt
  else
    match js_get (gridRows g) (Position.rowIdx (position sp)) with
    | None => ret tt (* not reached: the position is within bounds *)
    | Some (GroupHeader _) => ret tt
    | Some (Row row) =>
        match mode sp with
        | EDIT _ _ _ =>
            if String.eqb (ev_key event) "Enter" then
              commitEditorChanges g s;; closeEditor s
            else ret tt
        | SELECT =>
            match js_get (gridColumns g) (Position.idx (position sp)) with
            | None => throw TypeError
            | Some column =>
                let defaultPrevented :=
                  match CalculatedColumn.editorOptions column with
                  | Some options =>
                      match onCellKeyDown options with
                      | Some handler => handler event
                      | None => false
                      end
                  | None => false
                  end in
                if defaultPrevented then ret tt
                else
                  let* editable := isCellEditable g (position sp) in
                  if editable && isDefaultCellInput event then
                    emit (SetSelectedPosition
                            (fun sp =>
                               {| position := position sp;
                                  mode := EDIT (Some (ev_key event)) row row |}))
                  else ret tt
            end
        end
    end.

(** The loop of [getNextPosition] that looks for the parent group row:
    [rows[n - 1]], [rows[n - 2]], ... down to [rows[0]]; [-1] when none. *)
Fixpoint findParentRowIdx (rows : list (ViewRow R)) (parentId : option string) (n : nat) : Z :=
  match n with
  | O => -1
  | S i =>
      match rows !! i with
      | Some (GroupHeader parentRow) =>
          if bool_decide (Some (id parentRow) = parentId) then Z.of_nat i
          else findParentRowIdx rows parentId i
      | _ => findParentRowIdx rows parentId i
      end
  end.

Definition getNextPosition (g : Grid R K) (s : State R) (key : string)
    (ctrlKey shiftKey : bool) : Position.t :=
  let sp := selectedPosition s in
  let idx := Position.idx (position sp) in
  let rowIdx := Position.rowIdx (position sp) in
  let row := js_get (gridRows g) rowIdx in
  let isRowSelected := isCellWithinBounds g (position sp) && (idx =? -1) in
  let rowsLength := js_length (gridRows g) in
  let columnsLength := js_length (gridColumns g) in
  let byKey :=
    if String.eqb key "ArrowUp" then Position.mk idx (rowIdx - 1)
    else if String.eqb key "ArrowDown" then Position.mk idx (rowIdx + 1)
    else if String.eqb key "ArrowLeft" then Position.mk (idx - 1) rowIdx
    else if String.eqb key "ArrowRight" then Position.mk (idx + 1) rowIdx
    else if String.eqb key "Tab" then
      if (idx =? -1) && (rowIdx =? -1) then
        if shiftKey then Position.mk (columnsLength - 1) (rowsLength - 1)
        else Position.mk 0 0
      else Position.mk (idx + (if shiftKey then -1 else 1)) rowIdx
    else if String.eqb key "Home" then
      if isRowSelected then Position.mk idx 0
      else if ctrlKey then Position.mk 0 0 else Position.mk 0 rowIdx
    else if String.eqb key "End" then
      if isRowSelected then Position.mk idx (rowsLength - 1)
      else if ctrlKey then Position.mk (columnsLength - 1) (rowsLength - 1)
      else Position.mk (columnsLength - 1) rowIdx
    else if String.eqb key "PageUp" then
      Position.mk idx (rowIdx - floorDiv (clientHeight g) (rowHeight g))
    else if String.eqb key "PageDown" then
      Position.mk idx (rowIdx + floorDiv (clientHeight g) (rowHeight g))
    else position sp in
  match row with
  | Some (GroupHeader groupRow) =>
      if String.eqb key "ArrowLeft" && isRowSelected
         && negb (isExpanded groupRow) && negb (level groupRow =? 0) then
        let parentRowIdx :=
          findParentRowIdx (gridRows g) (parentId groupRow) (Z.to_nat rowIdx) in
        if negb (parentRowIdx =? -1) then Position.mk idx parentRowIdx else byKey
      else byKey
  | _ => byKey
  end.

Definition navigationKeys : list string :=
  ["ArrowUp"; "ArrowDown"; "ArrowLeft"; "ArrowRight"; "Tab"; "Home"; "End";
   "PageUp"; "PageDown"]%string.

Definition navigate (g : Grid R K) (s : State R) (event : KeyboardEvent) : Run R K unit :=
  let sp := selectedPosition s in
  let* proceed :=
    (if isEditMode (mode sp) then
       match js_get (gridColumns g) (Position.idx (position sp)) with
       | None => throw TypeError
       | Some column =>
           let onNavigation :=
             default onEditorNavigation
               (CalculatedColumn.editorOptions column ≫= onNavigation) in
           ret (onNavigation event)
       end
     else ret true) in
  if negb proceed then ret tt
  else
    let key := ev_key event in
    let shiftKey := ev_shiftKey event in
    let ctrlKey := isCtrlKeyHeldDown event in
    let nextPosition := getNextPosition g s key ctrlKey shiftKey in
    let columnsCount := js_length (gridColumns g) in
    let rowsCount := js_length (gridRows g) in
    if String.eqb key "Tab"
       && canExitGrid (cellNavigationMode g) columnsCount rowsCount (position sp) shiftKey
    then ret tt
    else
      let mode :=
        if String.eqb key "Tab" then
          match cellNavigationMode g with
          | NONE => CHANGE_ROW
          | m => m
          end
        else cellNavigationMode g in
      emit PreventDefault;;
      selectCell g s
        (getNextSelectedCellPosition mode columnsCount rowsCount nextPosition) false.

(** [eventBus.dispatch ('ToggleGroup', id)]: the handler [toggleGroup] is
    subscribed only when [onExpandedGroupIdsChange] is supplied. *)
Definition toggleGroup (g : Grid R K) (expandedGroupId : string) : Run R K unit :=
  if onExpandedGroupIdsChange g then
    let ids := default ∅ (expandedGroupIds g) in
    emit (OnExpandedGroupIdsChange
            (if bool_decide (expandedGroupId ∈ ids) then ids ∖ {[expandedGroupId]}
             else ids ∪ {[expandedGroupId]}))
  else ret tt.

Definition handleKeyDown (g : Grid R K) (s : State R) (event : KeyboardEvent)
    : Run R K unit :=
  let sp := selectedPosition s in
  let key := ev_key event in
  let keyCode := ev_keyCode event in
  let row := js_get (gridRows g) (Position.rowIdx (position sp)) in
  let clipboard :=
    (if onPaste g is Some _ then true else false)
    && isCtrlKeyHeldDown event
    && isCellWithinBounds g (position sp)
    && negb (isGroupRow row)
    && negb (Position.idx (position sp) =? -1)
    && negb (isEditMode (mode sp)) in
  if clipboard && (keyCode =? 67) then handleCopy g s
  else if clipboard && (keyCode =? 86) then handlePaste g s
  else
    let toggled :=
      match row with
      | Some (GroupHeader groupRow) =>
          if isCellWithinBounds g (position sp)
             && (Position.idx (position sp) =? -1)
             && ((String.eqb key "ArrowLeft" && isExpanded groupRow)
                 || (String.eqb key "ArrowRight" && negb (isExpanded groupRow)))
          then Some (id groupRow) else None
      | _ => None
      end in
    match toggled with
    | Some groupId => emit PreventDefault;; toggleGroup g groupId
    | None =>
        if String.eqb key "Escape" then emit (SetCopiedCell None);; closeEditor s
        else if includes navigationKeys key then navigate g s event
        else handleCellInput g s event
    end.

(** *** The checks made while rendering *)

(** [rows[selectedPosition.rowIdx] !== selectedPosition.originalRow]: a
    missing entry or a group header is never the snapshotted row. *)
Definition isStaleEdit (g : Grid R K) (sp : SelectedPosition R) : bool :=
  match mode sp with
  | SELECT => false
  | EDIT _ _ originalRow =>
      match js_get (gridRows g) (Position.rowIdx (position sp)) with
      | Some (Row row) => negb (bool_decide (row = originalRow))
      | _ => true
      end
  end.

(** The state updates [DataGrid] queues while it renders: the reset of a
    position past the columns or rows, then the close of a stale editor. *)
Definition renderChecks (g : Grid R K) (s : State R) : Run R K unit :=
  let sp := selectedPosition s in
  (if (js_length (gridColumns g) <=? Position.idx (position sp))
      || (js_length (gridRows g) <=? Position.rowIdx (position sp))
   then
     emit (SetSelectedPosition (fun _ => unselected));;
     emit (SetDraggedOverRowIdx None)
   else ret tt);;
  (if isStaleEdit g sp then closeEditor s else ret tt).

(** *** Row selection *)

Definition assertIsValidKeyGetter (keyGetter : option (option R → K))
    : Run R K (option R → K) :=
  match keyGetter with
  | Some f => ret f
  | None => throw (Error "Please specify the rowKeyGetter prop to use selection")
  end.

Record SelectRowEvent : Type := {
  sr_rowIdx : Z;
  sr_checked : bool;
  sr_isShiftClick : bool
}.

(** The shift-click loop [for (i = previousRowIdx + step; i !== rowIdx;
    i += step)], with [fuel] bounding the number of rounds. *)
Fixpoint selectRange (rows : list (ViewRow R)) (rowKeyGetter : option R → K)
    (fuel : nat) (i step rowIdx : Z) (newSelectedRows : gset K) : gset K :=
  match fuel with
  | O => newSelectedRows
  | S fuel' =>
      if i =? rowIdx then newSelectedRows
      else
        let row := js_get rows i in
        selectRange rows rowKeyGetter fuel' (i + step) step rowIdx
          (if isGroupRow row then newSelectedRows
           else newSelectedRows ∪ {[rowKeyGetter (callerRow row)]})
  end.

Definition handleRowSelectionChange (g : Grid R K) (s : State R) (e : SelectRowEvent)
    : Run R K unit :=
  let rowIdx := sr_rowIdx e in
  let checked := sr_checked e in
  let* rowKeyGetter := assertIsValidKeyGetter (rowKeyGetter g) in
  let newSelectedRows := default ∅ (selectedRows g) in
  let row := js_get (gridRows g) rowIdx in
  match row with
  | Some (GroupHeader groupRow) =>
      let keys : gset K :=
        list_to_set ((fun childRow => rowKeyGetter (Some childRow)) <$> childRows groupRow) in
      emit (OnSelectedRowsChange
              (if checked then newSelectedRows ∪ keys else newSelectedRows ∖ keys))
  | _ =>
      let rowKey := rowKeyGetter (callerRow row) in
      if checked then
        let newSelectedRows := newSelectedRows ∪ {[rowKey]} in
        let previousRowIdx := lastSelectedRowIdx s in
        emit (SetLastSelectedRowIdx rowIdx);;
        emit (OnSelectedRowsChange
                (if sr_isShiftClick e && negb (previousRowIdx =? -1)
                    && negb (previousRowIdx =? rowIdx)
                 then
                   let step := Z.sgn (rowIdx - previousRowIdx) in
                   selectRange (gridRows g) rowKeyGetter
                     (Z.to_nat (Z.abs (rowIdx - previousRowIdx)))
                     (previousRowIdx + step) step rowIdx newSelectedRows
                 else newSelectedRows))
      else
        emit (SetLastSelectedRowIdx (-1));;
        emit (OnSelectedRowsChange (newSelectedRows ∖ {[rowKey]}))
  end.

(** [eventBus.dispatch ('SelectRow', e)]: the effect that subscribes
    [handleRowSelectionChange] returns early without [onSelectedRowsChange], so
    the event then reaches no handler. *)
Definition dispatchSelectRow (g : Grid R K) (s : State R) (e : SelectRowEvent)
    : Run R K unit :=
  if negb (onSelectedRowsChange g) then ret tt
  else handleRowSelectionChange g s e.

(** [handleAllRowsSelectionChange] of [HeaderRow], whose [rows] prop is
    [rawRows]. *)
Definition handleAllRowsSelectionChange (g : Grid R K) (checked : bool) : Run R K unit :=
  if negb (onSelectedRowsChange g) then ret tt
  else
    let* rowKeyGetter := assertIsValidKeyGetter (rowKeyGetter g) in
    emit (OnSelectedRowsChange
            (if checked
             then list_to_set ((fun row => rowKeyGetter (Some row)) <$> rawRows g)
             else ∅)).

(** *** How a run changes the state *)

Definition applyEffect (s : State R) (e : Effect R K) : State R :=
  match e with
  | SetSelectedPosition update =>
      {| selectedPosition := update (selectedPosition s);
         copiedCell := copiedCell s;
         draggedOverRowIdx := draggedOverRowIdx s;
         lastSelectedRowIdx := lastSelectedRowIdx s |}
  | SetCopiedCell cell =>
      {| selectedPosition := selectedPosition s;
         copiedCell := cell;
         draggedOverRowIdx := draggedOverRowIdx s;
         lastSelectedRowIdx := lastSelectedRowIdx s |}
  | SetDraggedOverRowIdx rowIdx =>
      {| selectedPosition := selectedPosition s;
         copiedCell := copiedCell s;
         draggedOverRowIdx := rowIdx;
         lastSelectedRowIdx := lastSelectedRowIdx s |}
  | SetLastSelectedRowIdx rowIdx =>
      {| selectedPosition := selectedPosition s;
         copiedCell := copiedCell s;
         draggedOverRowIdx := draggedOverRowIdx s;
         lastSelectedRowIdx := rowIdx |}
  | _ => s
  end.

(** The state after a run: its updates applied in the order they were queued. *)
Definition stateAfter {A : Type} (s : State R) (run : Run R K A) : State R :=
  foldl applyEffect s (effectsOf run).

(** The row arrays a run handed to [onRowsChange], in call order. *)
Definition rowsChanges {A : Type} (run : Run R K A) : list (JsArray R) :=
  omap (fun e => if e is OnRowsChange updatedRows then Some updatedRows else None)
    (effectsOf run).

(** A render of the grid [g] in state [s]: the state its checks leave. *)
Definition render (g : Grid R K) (s : State R) : State R :=
  stateAfter s (renderChecks g s).

(** *** The selection state machine *)

(** What can happen to the grid between two renders.  Cells dispatch
    [SelectCell] and callers use the imperative [selectCell]; keys go to
    [handleKeyDown]; an open editor calls [onRowChange] and [onClose]; the
    checkboxes dispatch [SelectRow]. *)
Inductive Operation : Type :=
| OpSelectCell (p : Position.t) (enableEditor : bool)
| OpKeyDown (event : KeyboardEvent)
| OpRowChange (row : R) (commitChanges : bool)
| OpClose (commitChanges : bool)
| OpSelectRow (e : SelectRowEvent)
| OpSelectAllRows (checked : bool).

Definition runOperation (g : Grid R K) (s : State R) (op : Operation) : Run R K unit :=
  match op with
  | OpSelectCell p enableEditor => selectCell g s p enableEditor
  | OpKeyDown event => handleKeyDown g s event
  | OpRowChange row commitChanges => handleRowChange g s row commitChanges
  | OpClose commitChanges => handleOnClose g s commitChanges
  | OpSelectRow e => dispatchSelectRow g s e
  | OpSelectAllRows checked => handleAllRowsSelectionChange g checked
  end.

(** An operation on the grid as rendered, then the render that follows it. *)
Definition step (g : Grid R K) (s : State R) (op : Operation) : State R :=
  render g (stateAfter s (runOperation g s op)).

(** The invariant of the selected position: nothing selected, or a cell (or,
    with groups, a whole row) of the grid. *)
Definition isUnselected (sp : SelectedPosition R) : bool :=
  (Position.idx (position sp) =? -1) && (Position.rowIdx (position sp) =? -1)
  && negb (isEditMode (mode sp)).

Definition positionValid (g : Grid R K) (sp : SelectedPosition R) : bool :=
  isUnselected sp || isCellWithinBounds g (position sp).

End DataGrid.

(** ** Vocabulary of the statements *)

(** The sum of the widths of calculated columns. *)
Definition sumWidths {R : Type} (cols : list (CalculatedColumn.t R)) : Z :=
  foldr (fun c acc => CalculatedColumn.width c + acc) 0 cols.

(** Each column starts where the one before it ends, the first at [start]. *)
Fixpoint contiguousFrom {R : Type} (start : Z) (cols : list (CalculatedColumn.t R)) : Prop :=
  match cols with
  | [] => True
  | c :: cols' =>
      CalculatedColumn.left c = start
      ∧ contiguousFrom (start + CalculatedColumn.width c) cols'
  end.

(** The accumulators of the second pass agree with the columns built so far. *)
Definition secondPassInv {R : Type} (st : SecondPass (R:=R)) : Prop :=
  leftAcc st = sumWidths (calculated st)
  ∧ totalWidth st = sumWidths (calculated st)
  ∧ contiguousFrom 0 (calculated st).

(** The reserved select column. *)
Definition isSelectColumn {R : Type} (c : Column.t R) : bool :=
  String.eqb (Column.key c) SELECT_COLUMN_KEY.

(** The keys of a list in the order of their first occurrence. *)
Fixpoint firstOccurrences (keys : list string) : list string :=
  match keys with
  | [] => []
  | k :: keys' => k :: List.filter (λ k', negb (String.eqb k' k)) (firstOccurrences keys')
  end.

(** The column the first [map] of [getColumnMetrics] makes of a raw column. *)
Definition toMapped {R : Type} (m : Metrics R) (c : Column.t R) : MappedColumn.t R :=
  let grouped := groupByIncludes (rawGroupBy m) (Column.key c) in
  MappedColumn.mk c
    ((λ w, clampColumnWidth w (Column.minWidth c) (Column.maxWidth c) (minColumnWidth m))
       <$> getSpecifiedWidth c (columnWidths m) (viewportWidth m))
    (if grouped then true else Column.frozen c) grouped.

(** The two tests the comparator makes first. *)
Definition selectFirst {R : Type} (a : MappedColumn.t R) : bool :=
  String.eqb (MappedColumn.key a) SELECT_COLUMN_KEY.
Definition groupedNext {R : Type} (gb : option (list string)) (a : MappedColumn.t R) : bool :=
  groupByIncludes gb (MappedColumn.key a).

(** The place of a column in the order the comparator describes. *)
Definition columnRank {R : Type} (rawGroupBy : option (list string))
    (a : MappedColumn.t R) : Z :=
  let keys := default [] rawGroupBy in
  if String.eqb (MappedColumn.key a) SELECT_COLUMN_KEY then -1
  else if groupByIncludes rawGroupBy (MappedColumn.key a)
       then indexOf keys (MappedColumn.key a)
  else if MappedColumn.frozen a then js_length keys
  else js_length keys + 1.

(** Both overscan indices name a row. *)
Definition rowWindowWithinRows {R : Type} (v : ViewportRows R) : Prop :=
  0 <= rowOverscanStartIdx v <= js_length (rows v) - 1
  ∧ 0 <= rowOverscanEndIdx v <= js_length (rows v) - 1.

(** The overscan window reaches from the first visible row, or before it, to
    the last visible row, or past it. *)
Definition rowWindowContainsVisible {R : Type} (v : ViewportRows R)
    (rowHeight clientHeight scrollTop : Z) : Prop :=
  rowOverscanStartIdx v <= rowVisibleStartIdx rowHeight scrollTop
  ∧ rowVisibleEndIdx (js_length (rows v)) rowHeight clientHeight scrollTop
    <= rowOverscanEndIdx v.

(** The updates of the selected position among the effects of a run. *)
Definition positionUpdates {R K : Type} `{Countable K} (effects : list (Effect R K))
    : list (SelectedPosition R → SelectedPosition R) :=
  omap (fun e => if e is SetSelectedPosition update then Some update else None) effects.

Definition selectionErrorMessage : string :=
  "Please specify the rowKeyGetter prop to use selection".

Section GridVocabulary.
Context {R K : Type} `{EqDecision R} `{Countable K}.

(** [columns[idx]?.editor !== undefined]. *)
Definition editorDefined (g : Grid R K) (idx : Z) : bool :=
  match js_get (gridColumns g) idx with
  | Some column =>
      if CalculatedColumn.editor column is EditorUndefined then false else true
  | None => false
  end.

(** [selectedPosition.idx >= columns.length
    || selectedPosition.rowIdx >= rows.length]. *)
Definition pastColumnsOrRows (g : Grid R K) (p : Position.t) : bool :=
  (js_length (gridColumns g) <=? Position.idx p)
  || (js_length (gridRows g) <=? Position.rowIdx p).

(** A run queues no update of the selected position. *)
Definition leavesPosition {A : Type} (run : Run R K A) : Prop :=
  positionUpdates (effectsOf run) = [].

(** A run from a valid selected position leaves a valid one. *)
Definition keepsValid {A : Type} (g : Grid R K) (s : State R) (run : Run R K A) : Prop :=
  positionValid g (selectedPosition s) = true →
  positionValid g (selectedPosition (stateAfter s run)) = true.

(** New props that do not switch grouping off. *)
Definition keepsGrouping (g g' : Grid R K) : Prop :=
  hasGroups g = true → hasGroups g' = true.

(** The states the grid reaches: from the initial state by operations, each
    followed by its render, and by renders with new props that [allowed]
    admits after the old ones. *)
Inductive Reachable (allowed : Grid R K → Grid R K → Prop) : Grid R K → State R → Prop :=
| reach_initial g : Reachable allowed g initialState
| reach_operation g s op : Reachable allowed g s → Reachable allowed g (step g s op)
| reach_props g g' s :
    Reachable allowed g s → allowed g g' → Reachable allowed g' (render g' s).

End GridVocabulary.

(** ** Example data *)

(** A row of the examples.  Two rows are the same object when they are equal. *)
Record DemoRow : Type := { rowId : Z; region : string; amount : Z }.

#[global] Instance DemoRow_eq_dec : EqDecision DemoRow.
Proof. solve_decision. Defined.

(** [o[key].push (row)], creating the array when the key is new.  Every key,
    [__proto__] too, is a property of the answer's own, as in the answer of
    lodash's [groupBy]. *)
Fixpoint objPush (o : list (string * list DemoRow)) (key : string) (row : DemoRow)
    : list (string * list DemoRow) :=
  match o with
  | [] => [(key, [row])]
  | (k, rows) :: o' =>
      if String.eqb k key then (k, rows ++ [row]) :: o' else (k, rows) :: objPush o' key row
  end.

(** A row grouper for the key ["region"]. *)
Definition groupByRegion : RowGrouper DemoRow :=
  fun rows _ => foldl (fun o row => objPush o (region row) row) [] rows.

Definition demoColumn (key : string) (width : ColumnWidth) (editor : EditorProp)
    : Column.t DemoRow :=
  Column.mk key width None None false None None None None editor EditableUnset None.

Definition regionColumn : Column.t DemoRow := demoColumn "region" WidthUnset EditorUndefined.
Definition amountColumn : Column.t DemoRow :=
  demoColumn "amount" (WidthNumber 100) (EditorComponent "TextEditor").
Definition selectColumn : Column.t DemoRow :=
  Column.mk SELECT_COLUMN_KEY (WidthNumber 35) None (Some 35) true (Some false) (Some false)
    (Some "SelectFormatter"%string) (Some "SelectGroupFormatter"%string)
    EditorUndefined EditableUnset None.

Definition north1 : DemoRow := {| rowId := 1; region := "north"; amount := 10 |}.
Definition south1 : DemoRow := {| rowId := 2; region := "south"; amount := 20 |}.
Definition north2 : DemoRow := {| rowId := 3; region := "north"; amount := 30 |}.

(** The caller's [onPaste]: the target row with the source's amount. *)
Definition pasteAmount (e : PasteEvent DemoRow) : DemoRow :=
  match sourceRow e, targetRow e with
  | Some source, Some target =>
      {| rowId := rowId target; region := region target; amount := amount source |}
  | _, _ => {| rowId := 0; region := ""; amount := 0 |}
  end.

Definition demoKeyGetter (row : option DemoRow) : Z :=
  if row is Some r then rowId r else 0.

Definition demoGrid (columns : list (Column.t DemoRow)) (rows : list DemoRow)
    (groupBy : option (list string)) (rowGrouper : option (RowGrouper DemoRow))
    (expanded : option (gset string)) (keyGetter : option (option DemoRow → Z))
    (onSelectedRowsChange : bool) : Grid DemoRow Z :=
  {| g_rawColumns := columns;
     rawRows := rows;
     summaryRowsCount := 0;
     rowKeyGetter := keyGetter;
     onRowsChange := true;
     rowHeight := 35;
     headerRowHeight := None;
     headerFiltersHeight := 45;
     selectedRows := Some ∅;
     onSelectedRowsChange := onSelectedRowsChange;
     defaultMinWidth := None;
     defaultColumnFormatter := None;
     defaultColumnSortable := None;
     defaultColumnResizable := None;
     g_rawGroupBy := groupBy;
     rowGrouper := rowGrouper;
     expandedGroupIds := expanded;
     onExpandedGroupIdsChange := true;
     onSelectedCellChange := true;
     onPaste := Some pasteAmount;
     enableFilterRow := false;
     cellNavigationMode := CHANGE_ROW;
     gridWidth := 300;
     gridHeight := 385;
     scrollTop := 0;
     g_columnWidths := ∅ |}.

(** Rows grouped by region, both groups expanded. *)
Definition groupedGrid : Grid DemoRow Z :=
  demoGrid [regionColumn; amountColumn] [north1; south1; north2]
    (Some ["region"%string]) (Some groupByRegion) (Some {["north"%string; "south"%string]})
    (Some demoKeyGetter) true.

(** The same rows and columns without grouping. *)
Definition plainGrid : Grid DemoRow Z :=
  demoGrid [regionColumn; amountColumn] [north1; south1; north2] None None None
    (Some demoKeyGetter) true.

Definition stateAt (idx rowIdx : Z) (mode : Mode DemoRow)
    (copied : option (CopiedCell DemoRow)) : State DemoRow :=
  {| selectedPosition := {| position := Position.mk idx rowIdx; mode := mode |};
     copiedCell := copied;
     draggedOverRowIdx := None;
     lastSelectedRowIdx := -1 |}.


(** The plain grid after the caller replaced the first row by a new object. *)
Definition north1' : DemoRow := {| rowId := 1; region := "north"; amount := 11 |}.
Definition refreshedGrid : Grid DemoRow Z :=
  demoGrid [regionColumn; amountColumn] [north1'; south1; north2] None None None
    (Some demoKeyGetter) true.

(** The same, with the amount column removed as well. *)
Definition narrowedGrid : Grid DemoRow Z :=
  demoGrid [regionColumn] [north1'; south1; north2] None None None
    (Some demoKeyGetter) true.

(** A grid with the select column and no [rowKeyGetter], with and without
    [onSelectedRowsChange]. *)
Definition keylessGrid (onSelectedRowsChange : bool) : Grid DemoRow Z :=
  demoGrid [selectColumn; amountColumn] [north1; south1; north2] None None None
    None onSelectedRowsChange.

(** The same grid with a [rowKeyGetter] and without [onSelectedRowsChange]. *)
Definition keyedGridWithoutCallback : Grid DemoRow Z :=
  demoGrid [selectColumn; amountColumn] [north1; south1; north2] None None None
    (Some demoKeyGetter) false.

(** An editor open on the amount of the first row. *)
Definition editingFirstAmount : State DemoRow :=
  stateAt 1 0 (EDIT None north1 north1) None.

(** Ctrl+V with a copied cell of [north2], the cursor on [north1]: row 1 of
    the grouped grid, row 0 of the plain one. *)
Definition ctrlV : KeyboardEvent :=
  {| ev_key := "v"; ev_keyCode := 86; ev_ctrlKey := true; ev_metaKey := false;
     ev_shiftKey := false; ev_targetIsSoleEditorInput := false |}.

Definition copiedNorth2 : option (CopiedCell DemoRow) :=
  Some {| copiedRow := Some north2; copiedColumnKey := "amount" |}.

Definition pasted : DemoRow := {| rowId := 1; region := "north"; amount := 30 |}.

Definition arrowRight : KeyboardEvent :=
  {| ev_key := "ArrowRight"; ev_keyCode := 39; ev_ctrlKey := false; ev_metaKey := false;
     ev_shiftKey := false; ev_targetIsSoleEditorInput := false |}.

Definition arrowDown : KeyboardEvent :=
  {| ev_key := "ArrowDown"; ev_keyCode := 40; ev_ctrlKey := false; ev_metaKey := false;
     ev_shiftKey := false; ev_targetIsSoleEditorInput := false |}.

(** Three columns and two rows, as in the navigation scenario. *)
Definition threeByTwoGrid : Grid DemoRow Z :=
  demoGrid [regionColumn; amountColumn; demoColumn "note" WidthUnset EditorUndefined]
    [north1; south1] None None None (Some demoKeyGetter) true.

(** Two groups of three rows. *)
Definition sixRows : list DemoRow :=
  [ {| rowId := 1; region := "north"; amount := 1 |};
    {| rowId := 2; region := "south"; amount := 2 |};
    {| rowId := 3; region := "north"; amount := 3 |};
    {| rowId := 4; region := "south"; amount := 4 |};
    {| rowId := 5; region := "north"; amount := 5 |};
    {| rowId := 6; region := "south"; amount := 6 |} ].

(** Two groups of three rows, one of them of the region [__proto__]. *)
Definition protoRows : list DemoRow :=
  [ {| rowId := 1; region := "__proto__"; amount := 1 |};
    {| rowId := 2; region := "south"; amount := 2 |};
    {| rowId := 3; region := "__proto__"; amount := 3 |};
    {| rowId := 4; region := "south"; amount := 4 |};
    {| rowId := 5; region := "__proto__"; amount := 5 |};
    {| rowId := 6; region := "south"; amount := 6 |} ].

Definition noteColumn : Column.t DemoRow :=
  demoColumn "note" (WidthString "25%") EditorUndefined.
Definition pinnedColumn : Column.t DemoRow :=
  Column.mk "pinned" WidthUnset (Some 50) None true None None None None
    EditorUndefined EditableUnset None.
Definition cityColumn : Column.t DemoRow := demoColumn "city" WidthUnset EditorUndefined.

(** Six columns out of order, grouped by city, then region. *)
Definition demoMetrics : Metrics DemoRow :=
  {| rawColumns :=
       [amountColumn; noteColumn; regionColumn; pinnedColumn; selectColumn; cityColumn];
     columnWidths := {["note"%string := 60]};
     minColumnWidth := 80;
     viewportWidth := 600;
     defaultSortable := false;
     defaultResizable := false;
     defaultFormatter := ValueFormatter;
     rawGroupBy := Some ["city"; "region"]%string |}.

(** Scenario A: a column of width 100 and an unassigned one in 300 pixels. *)
Definition scenarioAMetrics : Metrics DemoRow :=
  {| rawColumns := [demoColumn "a" (WidthNumber 100) EditorUndefined;
                    demoColumn "b" WidthUnset EditorUndefined];
     columnWidths := ∅;
     minColumnWidth := 80;
     viewportWidth := 300;
     defaultSortable := false;
     defaultResizable := false;
     defaultFormatter := ValueFormatter;
     rawGroupBy := None |}.

(** A staged edit of [south1], shown at row 4 of the grouped grid. *)
Definition south1' : DemoRow := {| rowId := 2; region := "south"; amount := 21 |}.
Definition editingSouthAmount : State DemoRow :=
  stateAt 1 4 (EDIT None south1' south1) None.

Definition selectFirstRow : SelectRowEvent :=
  {| sr_rowIdx := 0; sr_checked := true; sr_isShiftClick := false |}.

(** The grouped grid after a click on its first group row. *)
Definition groupRowSelected : State DemoRow :=
  step groupedGrid initialState (OpSelectCell (Position.mk (-1) 0) false).

(** ** More of the grid: the column window, scrolling, sorting, the event bus
    and the fill handle *)

(** *** The column window ([useViewportColumns]) *)

(** What [useViewportColumns] adds to the column metrics. *)
Record ViewportColumns (R : Type) : Type := {
  vc_metrics : ColumnMetrics R;
  colOverscanStartIdx : Z;
  colOverscanEndIdx : Z;
  viewportColumns : JsArray (CalculatedColumn.t R)
}.
Arguments vc_metrics {R}.
Arguments colOverscanStartIdx {R}.
Arguments colOverscanEndIdx {R}.
Arguments viewportColumns {R}.

Section ViewportColumns.
Context {R : Type}.

(** The [while (i < lastColIdx)] loops: read [columns[i]], stop when [stop]
    accepts it, else go one column to the right.  Destructuring a missing
    column is a [TypeError].  A round moves [i] by one, so the loop makes at
    most [lastColIdx - i] rounds, which is what [fuel] is given. *)
Fixpoint scanColumns (columns : list (CalculatedColumn.t R))
    (stop : CalculatedColumn.t R → bool) (lastColIdx : Z) (fuel : nat) (i : Z)
    : Outcome Z :=
  match fuel with
  | O => Returned i
  | S fuel' =>
      if i <? lastColIdx then
        match js_get columns i with
        | None => Threw TypeError
        | Some column =>
            if stop column then Returned i
            else scanColumns columns stop lastColIdx fuel' (i + 1)
        end
      else Returned i
  end.

(** The memo that computes [[colOverscanStartIdx, colOverscanEndIdx]]. *)
Definition colOverscanWindow (columns : list (CalculatedColumn.t R))
    (lastFrozenColumnIndex totalFrozenColumnWidth scrollLeft viewportWidth : Z)
    : Outcome (Z * Z) :=
  let viewportLeft := scrollLeft + totalFrozenColumnWidth in
  let viewportRight := scrollLeft + viewportWidth in
  let lastColIdx := js_length columns - 1 in
  let firstUnfrozenColumnIdx := Z.min (lastFrozenColumnIndex + 1) lastColIdx in
  if viewportRight <=? viewportLeft then
    Returned (firstUnfrozenColumnIdx, firstUnfrozenColumnIdx)
  else
    match
      scanColumns columns
        (fun column =>
           viewportLeft <? CalculatedColumn.left column + CalculatedColumn.width column)
        lastColIdx (Z.to_nat (lastColIdx - firstUnfrozenColumnIdx)) firstUnfrozenColumnIdx
    with
    | Threw e => Threw e
    | Returned colVisibleStartIdx =>
        match
          scanColumns columns
            (fun column =>
               viewportRight <=? CalculatedColumn.left column + CalculatedColumn.width column)
            lastColIdx (Z.to_nat (lastColIdx - colVisibleStartIdx)) colVisibleStartIdx
        with
        | Threw e => Threw e
        | Returned colVisibleEndIdx =>
            Returned (Z.max firstUnfrozenColumnIdx (colVisibleStartIdx - 1),
                      Z.min lastColIdx (colVisibleEndIdx + 1))
        end
    end.

(** The loop that fills [viewportColumns], from [colIdx] for [fuel] rounds.
    [column.frozen] is read only left of the window; there a missing column
    throws, elsewhere it is pushed as it is. *)
Fixpoint collectViewportColumns (columns : list (CalculatedColumn.t R))
    (colOverscanStartIdx : Z) (fuel : nat) (colIdx : Z)
    : Outcome (JsArray (CalculatedColumn.t R)) :=
  match fuel with
  | O => Returned []
  | S fuel' =>
      let column := js_get columns colIdx in
      let rest := collectViewportColumns columns colOverscanStartIdx fuel' (colIdx + 1) in
      if colIdx <? colOverscanStartIdx then
        match column with
        | None => Threw TypeError
        | Some c =>
            if negb (CalculatedColumn.frozen c) then rest
            else
              match rest with
              | Returned l => Returned (column :: l)
              | Threw e => Threw e
              end
        end
      else
        match rest with
        | Returned l => Returned (column :: l)
        | Threw e => Threw e
        end
  end.

Definition useViewportColumns (m : Metrics R) (scrollLeft : Z)
    : Outcome (ViewportColumns R) :=
  let r := getColumnMetrics m in
  match
    colOverscanWindow (columns r) (lastFrozenColumnIndex r) (totalFrozenColumnWidth r)
      scrollLeft (viewportWidth m)
  with
  | Threw e => Threw e
  | Returned (colOverscanStartIdx, colOverscanEndIdx) =>
      match
        collectViewportColumns (columns r) colOverscanStartIdx
          (Z.to_nat (colOverscanEndIdx + 1)) 0
      with
      | Threw e => Threw e
      | Returned viewportColumns =>
          Returned {| vc_metrics := r;
                      colOverscanStartIdx := colOverscanStartIdx;
                      colOverscanEndIdx := colOverscanEndIdx;
                      viewportColumns := viewportColumns |}
      end
  end.

(** *** Scrolling a cell into view *)

(** The loop of [getColumnScrollPosition] over [i = 0 .. idx - 1], from [i]
    for [fuel] rounds: the widths of the columns and of the frozen ones. *)
Fixpoint scrollSums (columns : list (CalculatedColumn.t R)) (fuel : nat) (i : Z)
    (left frozen : Z) : Z * Z :=
  match fuel with
  | O => (left, frozen)
  | S fuel' =>
      match js_get columns i with
      | Some column =>
          scrollSums columns fuel' (i + 1)
            (if CalculatedColumn.width column =? 0 then left
             else left + CalculatedColumn.width column)
            (if CalculatedColumn.frozen column then frozen + CalculatedColumn.width column
             else frozen)
      | None => scrollSums columns fuel' (i + 1) left frozen
      end
  end.

Definition getColumnScrollPosition (columns : list (CalculatedColumn.t R))
    (idx currentScrollLeft currentClientWidth : Z) : Z :=
  let sums := scrollSums columns (Z.to_nat idx) 0 0 0 in
  let left := sums.1 in
  let frozen := sums.2 in
  match js_get columns idx with
  | Some selectedColumn =>
      let scrollLeft := left - frozen - currentScrollLeft in
      let scrollRight := left + CalculatedColumn.width selectedColumn - currentScrollLeft in
      if scrollLeft <? 0 then scrollLeft
      else if currentClientWidth <? scrollRight then scrollRight - currentClientWidth
      else 0
  | None => 0
  end.

End ViewportColumns.

(** *** Sorting from a header cell ([SortableHeaderCell]) *)

Inductive SortDirection : Type := ASC | DESC | SORT_NONE.

(** [sortColumn === column.key && sortDirection || 'NONE']: the direction the
    header cell shows. *)
Definition shownSortDirection (columnKey : string) (sortColumn : option string)
    (sortDirection : option SortDirection) : SortDirection :=
  if bool_decide (sortColumn = Some columnKey) then default SORT_NONE sortDirection
  else SORT_NONE.

(** The [switch] of [onClick]: the direction a click asks for. *)
Definition nextSortDirection (sortDescendingFirst : bool) (sortDirection : SortDirection)
    : SortDirection :=
  match sortDirection with
  | ASC => if sortDescendingFirst then SORT_NONE else DESC
  | DESC => if sortDescendingFirst then ASC else SORT_NONE
  | SORT_NONE => if sortDescendingFirst then DESC else ASC
  end.

(** [onClick]: the call of [onSort], if the caller supplied it. *)
Definition sortableHeaderClick (onSort : bool) (columnKey : string)
    (sortDescendingFirst : bool) (sortColumn : option string)
    (sortDirection : option SortDirection) : option (string * SortDirection) :=
  if onSort then
    Some (columnKey,
          nextSortDirection sortDescendingFirst
            (shownSortDirection columnKey sortColumn sortDirection))
  else None.

Definition getAriaSort (sortDirection : option SortDirection) : string :=
  match sortDirection with
  | Some ASC => "ascending"
  | Some DESC => "descending"
  | _ => "none"
  end.

(** *** The event bus ([EventBus]) *)

(** [this.subscribers]: a map from the event type to its set of handlers.
    Handlers are compared by reference; [H] stands for the references. *)
Abbreviation Subscribers H := (gmap string (list H)).

Section EventBus.
Context {H : Type} `{EqDecision H}.

(** [Set.prototype.add] and [delete] on a set listed in insertion order. *)
Definition setAdd (handlers : list H) (handler : H) : list H :=
  if bool_decide (handler ∈ handlers) then handlers else handlers ++ [handler].

Definition setDelete (handlers : list H) (handler : H) : list H :=
  List.filter (fun h => negb (bool_decide (h = handler))) handlers.

Definition newEventBus : Subscribers H := ∅.

(** [subscribe (type, handler)]: the bus afterwards.  The function it returns
    is [unsubscribe] below, for the same [type] and [handler]. *)
Definition subscribe (bus : Subscribers H) (type : string) (handler : H)
    : Subscribers H :=
  <[type := setAdd (default [] (bus !! type)) handler]> bus.

(** The returned function: [handlers.delete (handler)] on the set of [type],
    which stays the one in the map. *)
Definition unsubscribe (bus : Subscribers H) (type : string) (handler : H)
    : Subscribers H :=
  alter (fun handlers => setDelete handlers handler) type bus.

(** [dispatch (type, ...args)]: the handlers it calls, in call order. *)
Definition dispatch (bus : Subscribers H) (type : string) : list H :=
  match bus !! type with
  | Some handlers => handlers
  | None => []
  end.

(** What is done to a bus during its life. *)
Inductive BusOperation : Type :=
| Subscribe (type : string) (handler : H)
| Unsubscribe (type : string) (handler : H).

Definition runBusOperation (bus : Subscribers H) (op : BusOperation) : Subscribers H :=
  match op with
  | Subscribe type handler => subscribe bus type handler
  | Unsubscribe type handler => unsubscribe bus type handler
  end.

End EventBus.

(** *** The fill handle, scrolling and the selection marks of [DataGrid] *)

(** [l.slice (start, end)], with the indices from the end that negative
    arguments name. *)
Definition js_slice {A : Type} (l : list A) (start end_ : Z) : list A :=
  let len := js_length l in
  let k := if start <? 0 then Z.max (len + start) 0 else Z.min start len in
  let final := if end_ <? 0 then Z.max (len + end_) 0 else Z.min end_ len in
  take (Z.to_nat (final - k)) (drop (Z.to_nat k) l).

(** [a[i] = v] where [v] may be [undefined]. *)
Definition arrayPut {A : Type} (a : JsArray A) (i : Z) (v : option A) : JsArray A :=
  if i <? 0 then a
  else if i <? js_length a then <[Z.to_nat i := v]> a
  else a ++ replicate (Z.to_nat i - length a) None ++ [v].

(** The argument of the caller's [onFill]. *)
Record FillEvent (R : Type) : Type := {
  fill_columnKey : string;
  fill_sourceRow : option R;
  fill_targetRows : list R
}.
Arguments fill_columnKey {R}.
Arguments fill_sourceRow {R}.
Arguments fill_targetRows {R}.

Section FillAndScroll.
Context {R K : Type} `{EqDecision R} `{Countable K}.
Local Open Scope run_scope.

(** The loop [for (i = ...; i < endRowIndex; i++)
    updatedRows[i] = updatedTargetRows[i - startRowIndex]], from [i] for
    [fuel] rounds. *)
Fixpoint fillRows (updatedRows : JsArray R) (updatedTargetRows : list R)
    (startRowIndex : Z) (fuel : nat) (i : Z) : JsArray R :=
  match fuel with
  | O => updatedRows
  | S fuel' =>
      fillRows (arrayPut updatedRows i (js_get updatedTargetRows (i - startRowIndex)))
        updatedTargetRows startRowIndex fuel' (i + 1)
  end.

(** [handleDragEnd]; [onFill] is the caller's prop.  The dragged-over row is
    read from the ref that [setDraggedOverRowIdx] keeps equal to the state. *)
Definition handleDragEnd (g : Grid R K) (s : State R)
    (onFill : option (FillEvent R → list R)) : Run R K unit :=
  match draggedOverRowIdx s, onFill with
  | Some overRowIdx, Some onFill =>
      if negb (onRowsChange g) then ret tt
      else
        let idx := Position.idx (position (selectedPosition s)) in
        let rowIdx := Position.rowIdx (position (selectedPosition s)) in
        let sourceRow := js_get (rawRows g) rowIdx in
        let startRowIndex := if rowIdx <? overRowIdx then rowIdx + 1 else overRowIdx in
        let endRowIndex := if rowIdx <? overRowIdx then overRowIdx + 1 else rowIdx in
        let targetRows := js_slice (rawRows g) startRowIndex endRowIndex in
        match js_get (gridColumns g) idx with
        | None => throw TypeError
        | Some column =>
            let updatedTargetRows :=
              onFill {| fill_columnKey := CalculatedColumn.key column;
                        fill_sourceRow := sourceRow;
                        fill_targetRows := targetRows |} in
            let updatedRows :=
              fillRows (spread (rawRows g)) updatedTargetRows startRowIndex
                (Z.to_nat (endRowIndex - startRowIndex)) startRowIndex in
            emit (OnRowsChange updatedRows);;
            emit (SetDraggedOverRowIdx None)
        end
  | _, _ => ret tt
  end.

(** [handleDoubleClick] on the drag handle: fill down to the last row.  Its
    first statement, [event.stopPropagation ()], acts on the event only and is
    not among the recorded effects. *)
Definition handleDoubleClick (g : Grid R K) (s : State R)
    (onFill : option (FillEvent R → list R)) : Run R K unit :=
  match onFill with
  | Some onFill =>
      if negb (onRowsChange g) then ret tt
      else
        let idx := Position.idx (position (selectedPosition s)) in
        let rowIdx := Position.rowIdx (position (selectedPosition s)) in
        let sourceRow := js_get (rawRows g) rowIdx in
        let targetRows := js_slice (rawRows g) (rowIdx + 1) (js_length (rawRows g)) in
        match js_get (gridColumns g) idx with
        | None => throw TypeError
        | Some column =>
            let updatedTargetRows :=
              onFill {| fill_columnKey := CalculatedColumn.key column;
                        fill_sourceRow := sourceRow;
                        fill_targetRows := targetRows |} in
            let updatedRows :=
              fillRows (spread (rawRows g)) updatedTargetRows (rowIdx + 1)
                (Z.to_nat (js_length (rawRows g) - (rowIdx + 1))) (rowIdx + 1) in
            emit (OnRowsChange updatedRows)
        end
  | None => ret tt
  end.

(** [getDraggedOverCellIdx (currentRowIdx)]: the column to mark in a row the
    drag passes over. *)
Definition getDraggedOverCellIdx (s : State R) (currentRowIdx : Z) : option Z :=
  match draggedOverRowIdx s with
  | None => None
  | Some draggedOverRowIdx =>
      let rowIdx := Position.rowIdx (position (selectedPosition s)) in
      let isDraggedOver :=
        if rowIdx <? draggedOverRowIdx
        then (rowIdx <? currentRowIdx) && (currentRowIdx <=? draggedOverRowIdx)
        else (currentRowIdx <? rowIdx) && (draggedOverRowIdx <=? currentRowIdx) in
      if isDraggedOver then Some (Position.idx (position (selectedPosition s))) else None
  end.

(** The row half of [scrollToCell]: the value assigned to [scrollTop], if
    one is. *)
Definition scrollTopForRow (g : Grid R K) (rowIdx : Z) : option Z :=
  if rowIdx * rowHeight g <? scrollTop g then Some (rowIdx * rowHeight g)
  else if scrollTop g + clientHeight g <? (rowIdx + 1) * rowHeight g
       then Some ((rowIdx + 1) * rowHeight g - clientHeight g)
  else None.

(** The column half of [scrollToCell]: the value assigned to [scrollLeft], if
    one is.  [scrollLeft] is the grid's state, [clientWidth] is read from the
    element. *)
Definition scrollLeftForColumn (g : Grid R K) (scrollLeft clientWidth idx : Z)
    : Outcome (option Z) :=
  if lastFrozenColumnIndex (gridMetrics g) <? idx then
    match js_get (gridColumns g) idx with
    | None => Threw TypeError
    | Some column =>
        let left := CalculatedColumn.left column in
        let width := CalculatedColumn.width column in
        let isCellAtLeftBoundary :=
          left <? scrollLeft + width + totalFrozenColumnWidth (gridMetrics g) in
        let isCellAtRightBoundary := clientWidth + scrollLeft <? left + width in
        if isCellAtLeftBoundary || isCellAtRightBoundary then
          Returned
            (Some (scrollLeft
                   + getColumnScrollPosition (gridColumns g) idx scrollLeft clientWidth))
        else Returned None
    end
  else Returned None.

(** [handleColumnResize]: the [columnWidths] it stores with
    [setColumnWidths]; the call of the caller's [onColumnResize] that follows
    is not part of it. *)
Definition handleColumnResize (g : Grid R K) (column : CalculatedColumn.t R) (width : Z)
    : gmap string Z :=
  <[CalculatedColumn.key column := width]> (g_columnWidths g).

(** [allRowsSelected], the value of the header checkbox:
    [selectedRows?.size === rawRows.length]. *)
Definition allRowsSelected (g : Grid R K) : bool :=
  match selectedRows g with
  | Some selected => Z.of_nat (size selected) =? js_length (rawRows g)
  | None => false
  end.

(** [isRowSelected] of a row in [getViewportRows]. *)
Definition isRowSelected (g : Grid R K) (row : R) : bool :=
  match rowKeyGetter g with
  | Some rowKeyGetter =>
      match selectedRows g with
      | Some selected => bool_decide (rowKeyGetter (Some row) ∈ selected)
      | None => false
      end
  | None => false
  end.

(** [isRowSelected] of a group row: [isSelectable && row.childRows.every (cr
    => selectedRows?.has (rowKeyGetter (cr)))].  Without a key getter the
    call in [every] is a [TypeError] as soon as there is a child row. *)
Definition isGroupRowSelected (g : Grid R K) (groupRow : GroupRow R) : Outcome bool :=
  match selectedRows g with
  | Some selected =>
      if onSelectedRowsChange g then
        match childRows groupRow, rowKeyGetter g with
        | [], _ => Returned true
        | _ :: _, None => Threw TypeError
        | rows, Some rowKeyGetter =>
            Returned
              (forallb (fun cr => bool_decide (rowKeyGetter (Some cr) ∈ selected)) rows)
        end
      else Returned false
  | None => Returned false
  end.

End FillAndScroll.

(** *** Vocabulary of the further statements *)

Section MoreVocabulary.
Context {R K : Type} `{EqDecision R} `{Countable K}.

(** The grid after the caller adopted what a callback handed over: the
    selected rows, the expanded group ids, the rows, or the widths set by a
    resize. *)
Definition withSelectedRows (g : Grid R K) (selected : gset K) : Grid R K :=
  {| g_rawColumns := g_rawColumns g; rawRows := rawRows g;
     summaryRowsCount := summaryRowsCount g; rowKeyGetter := rowKeyGetter g;
     onRowsChange := onRowsChange g; rowHeight := rowHeight g;
     headerRowHeight := headerRowHeight g; headerFiltersHeight := headerFiltersHeight g;
     selectedRows := Some selected; onSelectedRowsChange := onSelectedRowsChange g;
     defaultMinWidth := defaultMinWidth g;
     defaultColumnFormatter := defaultColumnFormatter g;
     defaultColumnSortable := defaultColumnSortable g;
     defaultColumnResizable := defaultColumnResizable g;
     g_rawGroupBy := g_rawGroupBy g; rowGrouper := rowGrouper g;
     expandedGroupIds := expandedGroupIds g;
     onExpandedGroupIdsChange := onExpandedGroupIdsChange g;
     onSelectedCellChange := onSelectedCellChange g; onPaste := onPaste g;
     enableFilterRow := enableFilterRow g; cellNavigationMode := cellNavigationMode g;
     gridWidth := gridWidth g; gridHeight := gridHeight g; scrollTop := scrollTop g;
     g_columnWidths := g_columnWidths g |}.

Definition withExpandedGroupIds (g : Grid R K) (ids : gset string) : Grid R K :=
  {| g_rawColumns := g_rawColumns g; rawRows := rawRows g;
     summaryRowsCount := summaryRowsCount g; rowKeyGetter := rowKeyGetter g;
     onRowsChange := onRowsChange g; rowHeight := rowHeight g;
     headerRowHeight := headerRowHeight g; headerFiltersHeight := headerFiltersHeight g;
     selectedRows := selectedRows g; onSelectedRowsChange := onSelectedRowsChange g;
     defaultMinWidth := defaultMinWidth g;
     defaultColumnFormatter := defaultColumnFormatter g;
     defaultColumnSortable := defaultColumnSortable g;
     defaultColumnResizable := defaultColumnResizable g;
     g_rawGroupBy := g_rawGroupBy g; rowGrouper := rowGrouper g;
     expandedGroupIds := Some ids;
     onExpandedGroupIdsChange := onExpandedGroupIdsChange g;
     onSelectedCellChange := onSelectedCellChange g; onPaste := onPaste g;
     enableFilterRow := enableFilterRow g; cellNavigationMode := cellNavigationMode g;
     gridWidth := gridWidth g; gridHeight := gridHeight g; scrollTop := scrollTop g;
     g_columnWidths := g_columnWidths g |}.

Definition withColumnWidths (g : Grid R K) (widths : gmap string Z) : Grid R K :=
  {| g_rawColumns := g_rawColumns g; rawRows := rawRows g;
     summaryRowsCount := summaryRowsCount g; rowKeyGetter := rowKeyGetter g;
     onRowsChange := onRowsChange g; rowHeight := rowHeight g;
     headerRowHeight := headerRowHeight g; headerFiltersHeight := headerFiltersHeight g;
     selectedRows := selectedRows g; onSelectedRowsChange := onSelectedRowsChange g;
     defaultMinWidth := defaultMinWidth g;
     defaultColumnFormatter := defaultColumnFormatter g;
     defaultColumnSortable := defaultColumnSortable g;
     defaultColumnResizable := defaultColumnResizable g;
     g_rawGroupBy := g_rawGroupBy g; rowGrouper := rowGrouper g;
     expandedGroupIds := expandedGroupIds g;
     onExpandedGroupIdsChange := onExpandedGroupIdsChange g;
     onSelectedCellChange := onSelectedCellChange g; onPaste := onPaste g;
     enableFilterRow := enableFilterRow g; cellNavigationMode := cellNavigationMode g;
     gridWidth := gridWidth g; gridHeight := gridHeight g; scrollTop := scrollTop g;
     g_columnWidths := widths |}.

(** The sets a run handed to [onSelectedRowsChange] and to
    [onExpandedGroupIdsChange], in call order. *)
Definition selectedRowsChanges {A : Type} (run : Run R K A) : list (gset K) :=
  omap (fun e => if e is OnSelectedRowsChange selected then Some selected else None)
    (effectsOf run).

Definition expandedGroupIdsChanges {A : Type} (run : Run R K A) : list (gset string) :=
  omap (fun e => if e is OnExpandedGroupIdsChange ids then Some ids else None)
    (effectsOf run).

End MoreVocabulary.

(** The width a column ends up with: its specified width, clamped, or the
    clamped share of what is left. *)
Definition finalWidth {R : Type} (m : Metrics R) (c : Column.t R) : Z :=
  clampColumnWidth
    (default (unallocatedColumnWidthOf m (firstPass m))
       (getSpecifiedWidth c (columnWidths m) (viewportWidth m)))
    (Column.minWidth c) (Column.maxWidth c) (minColumnWidth m).

(** A column lies, at least in part, in the range between two horizontal
    positions, which is not empty. *)
Definition columnOverlaps {R : Type} (c : CalculatedColumn.t R) (from to : Z) : Prop :=
  from < to
  ∧ from < CalculatedColumn.left c + CalculatedColumn.width c
  ∧ CalculatedColumn.left c < to.

(** One or more decimal digits. *)
Fixpoint allDigits (s : string) : bool :=
  match s with
  | EmptyString => true
  | String c s' => isDigit c && allDigits s'
  end.

(** A calculated column made of a sorted column: the fields it copies and the
    width it settles on, [w] being the share of an unassigned column. *)
Definition madeOf {R : Type} (m : Metrics R) (w : Z) (a : MappedColumn.t R)
    (c : CalculatedColumn.t R) : Prop :=
  CalculatedColumn.column c = MappedColumn.column a
  ∧ CalculatedColumn.width c
    = default
        (clampColumnWidth w (Column.minWidth (MappedColumn.column a))
           (Column.maxWidth (MappedColumn.column a)) (minColumnWidth m))
        (MappedColumn.width a)
  ∧ CalculatedColumn.frozen c = MappedColumn.frozen a
  ∧ CalculatedColumn.rowGroup c = MappedColumn.rowGroup a.

(** The number of rows grouped rows take when every group is expanded: the
    rows themselves, and a header for every group. *)
Fixpoint fullSize {R : Type} (rows : GroupedRows R) : Z :=
  match rows with
  | RowArray rows => js_length rows
  | GroupObject groups =>
      (fix each (entries : list (string * Group R)) : Z :=
         match entries with
         | [] => 0
         | (_, mkGroup _ childGroups _) :: entries' =>
             1 + fullSize childGroups + each entries'
         end) groups
  end.

(** Every group carries, as [startRowIndex], the place its header has when
    every group is expanded and the first row is numbered [start]. *)
Fixpoint numberedFrom {R : Type} (start : Z) (rows : GroupedRows R) : Prop :=
  match rows with
  | RowArray _ => True
  | GroupObject groups =>
      (fix each (entries : list (string * Group R)) (start : Z) : Prop :=
         match entries with
         | [] => True
         | (_, mkGroup _ childGroups startRowIndex) :: entries' =>
             startRowIndex = start
             ∧ numberedFrom (start + 1) childGroups
             ∧ each entries' (start + 1 + fullSize childGroups)
         end) groups start
  end.

(** A row grouper answers an object: every key once. *)
Definition keysOnce {R : Type} (rowGrouper : option (RowGrouper R)) : Prop :=
  ∀ grouper rows key, rowGrouper = Some grouper → NoDup (grouper rows key).*1.

(** A row grouper never answers a group with the key [__proto__]. *)
Definition noProtoKey {R : Type} (rowGrouper : option (RowGrouper R)) : Prop :=
  ∀ grouper rows key,
    rowGrouper = Some grouper → "__proto__"%string ∉ (grouper rows key).*1.

(** The positions a run handed to [onSelectedCellChange], in call order. *)
Definition selectedCellChanges {R K : Type} `{Countable K} {A : Type} (run : Run R K A)
    : list Position.t :=
  omap (fun e => if e is OnSelectedCellChange p then Some p else None) (effectsOf run).

(** *** Further example data *)

Definition keyEvent (key : string) (keyCode : Z) (ctrlKey : bool) : KeyboardEvent :=
  {| ev_key := key; ev_keyCode := keyCode; ev_ctrlKey := ctrlKey; ev_metaKey := false;
     ev_shiftKey := false; ev_targetIsSoleEditorInput := false |}.

Definition ctrlC : KeyboardEvent := keyEvent "c" 67 true.
Definition enterKey : KeyboardEvent := keyEvent "Enter" 13 false.
Definition escapeKey : KeyboardEvent := keyEvent "Escape" 27 false.
Definition tabKey : KeyboardEvent := keyEvent "Tab" 9 false.
Definition letterKey : KeyboardEvent := keyEvent "a" 65 false.

(** A row grouper with two fixed groups, as
    [rows => ({ small: rows.filter (...), large: rows.filter (...) })]. *)
Definition groupBySize : RowGrouper DemoRow :=
  fun rows _ =>
    [("small"%string, List.filter (fun row => amount row <? 20) rows);
     ("large"%string, List.filter (fun row => 20 <=? amount row) rows)].

(** The first row was checked last; a shift-click on the third row. *)
Definition anchoredAtFirstRow : State DemoRow :=
  {| selectedPosition := unselected;
     copiedCell := None;
     draggedOverRowIdx := None;
     lastSelectedRowIdx := 0 |}.

Definition shiftClickThirdRow : SelectRowEvent :=
  {| sr_rowIdx := 2; sr_checked := true; sr_isShiftClick := true |}.

(** An editor on the amount of the first row with a changed row staged. *)
Definition editingFirstAmountChanged : State DemoRow :=
  stateAt 1 0 (EDIT None north1' north1) None.

(** The caller's [onFill]: every target row with the amount of the source. *)
Definition fillAmount (e : FillEvent DemoRow) : list DemoRow :=
  map (fun target =>
         {| rowId := rowId target; region := region target;
            amount := if fill_sourceRow e is Some source then amount source else 0 |})
    (fill_targetRows e).

(** The amount of the first row selected, the fill handle dragged to the
    third row. *)
Definition draggingToThirdRow : State DemoRow :=
  {| selectedPosition := {| position := Position.mk 1 0; mode := SELECT |};
     copiedCell := None;
     draggedOverRowIdx := Some 2;
     lastSelectedRowIdx := -1 |}.
(** * Proofs *)

(** ** Lists and arrays *)

Lemma foldl_invariant {A B : Type} (P : A → Prop) (f : A → B → A) (l : list B) (a : A) :
  P a → (∀ a b, P a → P (f a b)) → P (foldl f a l).
Proof.
  intros Ha Hstep. revert a Ha.
  induction l as [|b l IH]; intros a Ha; simpl; auto.
Qed.

Section ArrayFacts.
Context {A : Type}.

Lemma js_get_lookup (l : list A) (i : Z) :
  0 <= i → js_get l i = l !! Z.to_nat i.
Proof. intros Hi. unfold js_get. destruct (Z.ltb_spec i 0); [lia|reflexivity]. Qed.

Lemma js_get_Some_bounds (l : list A) (i : Z) x :
  js_get l i = Some x → 0 <= i < js_length l.
Proof.
  unfold js_get, js_length. destruct (Z.ltb_spec i 0); [done|].
  intros Hx. apply lookup_lt_Some in Hx. lia.
Qed.

Lemma js_get_in_bounds (l : list A) (i : Z) :
  0 <= i < js_length l → ∃ x, js_get l i = Some x.
Proof.
  unfold js_length. intros Hi. rewrite js_get_lookup by lia.
  apply lookup_lt_is_Some. lia.
Qed.

Lemma js_get_out_of_bounds (l : list A) (i : Z) :
  i < 0 ∨ js_length l <= i → js_get l i = None.
Proof.
  unfold js_get, js_length. intros Hi. destruct (Z.ltb_spec i 0); [reflexivity|].
  apply lookup_ge_None. lia.
Qed.

End ArrayFacts.

Section JsArrayFacts.
Context {A : Type}.

Lemma arrayGet_spread (l : list A) (i : Z) : arrayGet (spread l) i = js_get l i.
Proof.
  unfold arrayGet, spread, js_get. destruct (i <? 0); [reflexivity|].
  rewrite list_lookup_fmap. by destruct (l !! Z.to_nat i).
Qed.

(** Reading back what [a[i] = x] wrote. *)
Lemma arrayGet_arraySet_eq (a : JsArray A) (i : Z) (x : A) :
  0 <= i → arrayGet (arraySet a i x) i = Some x.
Proof.
  intros Hi. unfold arrayGet, arraySet, js_length.
  destruct (Z.ltb_spec i 0); [lia|]. rewrite js_get_lookup by lia.
  destruct (Z.ltb_spec i (Z.of_nat (length a))).
  - rewrite list_lookup_insert_eq by lia. reflexivity.
  - rewrite lookup_app_r by lia. rewrite lookup_app_r by (rewrite length_replicate; lia).
    rewrite length_replicate. replace (_ - _ - _)%nat with 0%nat by lia. reflexivity.
Qed.

(** [a[i] = x] leaves every other entry as it was. *)
Lemma arrayGet_arraySet_ne (a : JsArray A) (i j : Z) (x : A) :
  j ≠ i → arrayGet (arraySet a i x) j = arrayGet a j.
Proof.
  intros Hne. unfold arrayGet, arraySet, js_length.
  destruct (Z.ltb_spec i 0); [reflexivity|].
  unfold js_get. destruct (Z.ltb_spec j 0); [reflexivity|].
  destruct (Z.ltb_spec i (Z.of_nat (length a))).
  - rewrite list_lookup_insert_ne by lia. reflexivity.
  - destruct (decide (Z.to_nat j < length a)%nat).
    + rewrite lookup_app_l by lia. reflexivity.
    + rewrite lookup_app_r by lia. rewrite (lookup_ge_None_2 a) by lia. simpl.
      destruct (decide (Z.to_nat j - length a < Z.to_nat i - length a)%nat).
      * rewrite lookup_app_l by (rewrite length_replicate; lia).
        rewrite lookup_replicate_2 by lia. reflexivity.
      * rewrite lookup_app_r by (rewrite length_replicate; lia).
        rewrite length_replicate.
        rewrite lookup_ge_None_2; [reflexivity|]. simpl. lia.
Qed.

Lemma arraySet_in_bounds (l : list A) (i : nat) (x : A) :
  (i < length l)%nat → arraySet (spread l) (Z.of_nat i) x = spread (<[i := x]> l).
Proof.
  intros Hi. unfold arraySet, spread, js_length. rewrite length_map.
  destruct (Z.ltb_spec (Z.of_nat i) 0); [lia|].
  destruct (Z.ltb_spec (Z.of_nat i) (Z.of_nat (length l))); [|lia].
  rewrite Nat2Z.id. by rewrite list_fmap_insert.
Qed.

End JsArrayFacts.

Section ListFacts.
Context {A B : Type}.

Lemma filter_filter_and (P Q : A → bool) (l : list A) :
  List.filter P (List.filter Q l) = List.filter (λ x, Q x && P x) l.
Proof.
  induction l as [|x l IH]; simpl; [reflexivity|].
  destruct (Q x); simpl; [destruct (P x)|]; rewrite <- IH; reflexivity.
Qed.

Lemma filter_map_comm (f : A → B) (P : B → bool) (l : list A) :
  List.filter P (map f l) = map f (List.filter (λ x, P (f x)) l).
Proof.
  induction l as [|x l IH]; simpl; [reflexivity|].
  destruct (P (f x)); simpl; rewrite IH; reflexivity.
Qed.

Lemma filter_ext_elem (P Q : A → bool) (l : list A) :
  (∀ x, x ∈ l → P x = Q x) → List.filter P l = List.filter Q l.
Proof.
  intros H. apply List.filter_ext_in. intros x Hx. apply H. by apply list_elem_of_In.
Qed.

Lemma flat_map_ext_elem {C : Type} (f g : C → list A) (l : list C) :
  (∀ x, x ∈ l → f x = g x) → flat_map f l = flat_map g l.
Proof.
  induction l as [|x l IH]; intros H; simpl; [reflexivity|].
  rewrite H by left. rewrite IH; [reflexivity|]. intros; apply H; by right.
Qed.

Lemma map_flat_map_comm {C : Type} (f : A → B) (g : C → list A) (l : list C) :
  map f (flat_map g l) = flat_map (λ x, map f (g x)) l.
Proof.
  induction l as [|x l IH]; simpl; [reflexivity|].
  rewrite map_app, IH. reflexivity.
Qed.

Lemma elem_of_filter_bool (P : A → bool) (l : list A) (x : A) :
  x ∈ List.filter P l ↔ x ∈ l ∧ P x = true.
Proof. rewrite !list_elem_of_In. apply filter_In. Qed.

End ListFacts.

Section IndexOfFacts.
Context {A : Type} `{EqDecision A}.

Lemma indexOf_ge (l : list A) x : -1 <= indexOf l x.
Proof.
  induction l as [|y l IH]; simpl; [lia|].
  destruct (decide (y = x)); [lia|]. destruct (Z.ltb_spec (indexOf l x) 0); lia.
Qed.

Lemma indexOf_elem (l : list A) x : x ∈ l → 0 <= indexOf l x.
Proof.
  induction l as [|y l IH]; intros Hx; [by apply elem_of_nil in Hx|]. simpl.
  destruct (decide (y = x)); [lia|].
  apply elem_of_cons in Hx as [->|Hx]; [done|].
  specialize (IH Hx). destruct (Z.ltb_spec (indexOf l x) 0); lia.
Qed.

Lemma indexOf_head (l : list A) x : indexOf (x :: l) x = 0.
Proof. simpl. destruct (decide (x = x)); [reflexivity|done]. Qed.

Lemma indexOf_further (l : list A) x y :
  y ≠ x → x ∈ l → indexOf (y :: l) x = indexOf l x + 1.
Proof.
  intros Hne Hx. simpl. destruct (decide (y = x)); [done|].
  pose proof (indexOf_elem l x Hx). destruct (Z.ltb_spec (indexOf l x) 0); lia.
Qed.

Lemma includes_elem (l : list A) x : includes l x = true ↔ x ∈ l.
Proof. unfold includes. apply bool_decide_eq_true. Qed.

End IndexOfFacts.

Lemma indexOf_lt_length {A : Type} `{EqDecision A} (l : list A) x :
  indexOf l x < js_length l.
Proof.
  unfold js_length. induction l as [|y l IH]; simpl; [lia|].
  destruct (decide (y = x)); [lia|]. destruct (Z.ltb_spec (indexOf l x) 0); lia.
Qed.

Section IndexOfGet.
Context {A : Type} `{EqDecision A}.

(** [l[l.indexOf (x)] === x] when [x] is in [l]. *)
Lemma js_get_indexOf (l : list A) x : x ∈ l → js_get l (indexOf l x) = Some x.
Proof.
  induction l as [|y l IH]; intros Hx; [by apply elem_of_nil in Hx|]. simpl.
  destruct (decide (y = x)) as [->|Hne]; [reflexivity|].
  apply elem_of_cons in Hx as [->|Hx]; [done|]. specialize (IH Hx).
  apply js_get_Some_bounds in IH as Hbounds.
  destruct (Z.ltb_spec (indexOf l x) 0); [lia|].
  rewrite js_get_lookup in * by lia.
  replace (Z.to_nat (indexOf l x + 1)) with (S (Z.to_nat (indexOf l x))) by lia.
  exact IH.
Qed.

End IndexOfGet.

Lemma firstOccurrences_elem keys k : k ∈ firstOccurrences keys → k ∈ keys.
Proof.
  induction keys as [|x keys IH]; simpl; [done|].
  rewrite !elem_of_cons, elem_of_filter_bool. tauto.
Qed.

Lemma firstOccurrences_NoDup keys : NoDup keys → firstOccurrences keys = keys.
Proof.
  induction 1 as [|x keys Hx Hnd IH]; simpl; [reflexivity|].
  rewrite IH. f_equal.
  rewrite <- (List.filter_ext_in (λ _, true)).
  - clear. induction keys as [|k keys IH]; simpl; congruence.
  - intros k Hk. symmetry. apply negb_true_iff, String.eqb_neq.
    intros ->. apply Hx. by apply list_elem_of_In.
Qed.

(** ** The stable sort *)

Section SortFacts.
Context {A : Type} (compareFn : A → A → Z).

Lemma elem_of_insertSorted x y l :
  y ∈ insertSorted compareFn x l ↔ y = x ∨ y ∈ l.
Proof.
  induction l as [|z l IH]; simpl.
  - rewrite list_elem_of_singleton, elem_of_nil. tauto.
  - destruct (compareFn x z <=? 0).
    + rewrite !elem_of_cons. tauto.
    + rewrite !elem_of_cons, IH. tauto.
Qed.

Lemma elem_of_sort y l : y ∈ sort compareFn l ↔ y ∈ l.
Proof.
  induction l as [|x l IH]; simpl; [reflexivity|].
  rewrite elem_of_insertSorted, elem_of_cons, IH. reflexivity.
Qed.

(** An element that goes before everything in [l2] is inserted within [l1]
    (or right after it). *)
Lemma insertSorted_app_l x l1 l2 :
  (∀ y, y ∈ l2 → compareFn x y <= 0) →
  insertSorted compareFn x (l1 ++ l2) = insertSorted compareFn x l1 ++ l2.
Proof.
  intros Hle. induction l1 as [|z l1 IH]; simpl.
  - destruct l2 as [|y l2]; [reflexivity|]. simpl.
    destruct (Z.leb_spec (compareFn x y) 0) as [_|Hgt]; [reflexivity|].
    specialize (Hle y ltac:(left)). lia.
  - destruct (compareFn x z <=? 0); [reflexivity|]. rewrite IH. reflexivity.
Qed.

(** An element that goes after everything in [l1] is inserted within [l2]. *)
Lemma insertSorted_app_r x l1 l2 :
  (∀ y, y ∈ l1 → 0 < compareFn x y) →
  insertSorted compareFn x (l1 ++ l2) = l1 ++ insertSorted compareFn x l2.
Proof.
  intros Hgt. induction l1 as [|z l1 IH]; simpl; [reflexivity|].
  destruct (Z.leb_spec (compareFn x z) 0) as [Hle|_].
  - specialize (Hgt z ltac:(left)). lia.
  - rewrite IH; [reflexivity|]. intros y Hy. apply Hgt. by right.
Qed.

(** Elements that all tie (or are already in order) stay as they are. *)
Lemma sort_ordered l :
  (∀ x y, x ∈ l → y ∈ l → compareFn x y <= 0) → sort compareFn l = l.
Proof.
  induction l as [|x l IH]; intros Hle; simpl; [reflexivity|].
  rewrite IH by (intros; apply Hle; by right).
  destruct l as [|y l]; simpl; [reflexivity|].
  destruct (Z.leb_spec (compareFn x y) 0) as [_|Hgt]; [reflexivity|].
  specialize (Hle x y ltac:(left) ltac:(right; left)). lia.
Qed.

Lemma sort_short l : (length l ≤ 1)%nat → sort compareFn l = l.
Proof. destruct l as [|x [|y l]]; simpl; intros; (reflexivity || lia). Qed.

(** When the comparator puts every element of a class before every element
    outside it, sorting sorts the class and the rest apart. *)
Lemma sort_partition (P : A → bool) l :
  (∀ x y, x ∈ l → y ∈ l → P x = true → P y = false →
          compareFn x y <= 0 ∧ 0 < compareFn y x) →
  sort compareFn l
  = sort compareFn (List.filter P l) ++ sort compareFn (List.filter (λ x, negb (P x)) l).
Proof.
  induction l as [|x l IH]; intros Hcmp; simpl; [reflexivity|].
  rewrite IH by (intros a b Ha Hb; apply Hcmp; by right).
  destruct (P x) eqn:HPx; simpl.
  - apply insertSorted_app_l. intros y Hy.
    apply elem_of_sort, list_elem_of_In, filter_In in Hy as [Hy HPy].
    apply negb_true_iff in HPy.
    apply (Hcmp x y); auto using list_elem_of_here.
    right. by apply list_elem_of_In.
  - apply insertSorted_app_r. intros y Hy.
    apply elem_of_sort, list_elem_of_In, filter_In in Hy as [Hy HPy].
    apply (Hcmp y x); auto using list_elem_of_here.
    right. by apply list_elem_of_In.
Qed.

End SortFacts.

Section SortLength.
Context {A : Type} (compareFn : A → A → Z).

Lemma length_insertSorted x l :
  length (insertSorted compareFn x l) = S (length l).
Proof.
  induction l as [|y l IH]; simpl; [reflexivity|].
  destruct (compareFn x y <=? 0); simpl; [reflexivity|]. by rewrite IH.
Qed.

Lemma length_sort l : length (sort compareFn l) = length l.
Proof.
  induction l as [|x l IH]; simpl; [reflexivity|].
  by rewrite length_insertSorted, IH.
Qed.
End SortLength.

Section KeyOrder.
Context {A : Type} (compareFn : A → A → Z) (keyOf : A → string).

Lemma flat_map_filter_except (x : string) (l : list A) (keys : list string) :
  flat_map (λ k, List.filter (λ a, String.eqb (keyOf a) k)
                   (List.filter (λ a, negb (String.eqb (keyOf a) x)) l)) keys
  = flat_map (λ k, List.filter (λ a, String.eqb (keyOf a) k) l)
      (List.filter (λ k, negb (String.eqb k x)) keys).
Proof.
  induction keys as [|k keys IH]; simpl; [reflexivity|].
  rewrite IH, filter_filter_and.
  destruct (String.eqb_spec k x) as [->|Hne]; simpl.
  - rewrite <- (List.filter_ext (λ _, false)).
    + replace (List.filter (λ _ : A, false) l) with (@nil A); [reflexivity|].
      clear. induction l; simpl; auto.
    + intros a. destruct (String.eqb_spec (keyOf a) x); reflexivity.
  - f_equal. apply List.filter_ext. intros a.
    destruct (String.eqb_spec (keyOf a) x) as [->|]; simpl; [|reflexivity].
    symmetry. by apply String.eqb_neq.
Qed.

(** Sorting by the position of the key in [keys] lists, key by key in the
    order of [keys], the elements with that key in their original order. *)
Lemma sort_by_key_order (keys : list string) (l : list A) :
  (∀ a, a ∈ l → keyOf a ∈ keys) →
  (∀ a b, a ∈ l → b ∈ l →
     (compareFn a b <= 0 ↔ indexOf keys (keyOf a) <= indexOf keys (keyOf b))) →
  sort compareFn l
  = flat_map (λ k, List.filter (λ a, String.eqb (keyOf a) k) l) (firstOccurrences keys).
Proof.
  revert l. induction keys as [|x keys IH]; intros l Hkeys Hcmp.
  - destruct l as [|a l]; [reflexivity|].
    specialize (Hkeys a ltac:(left)). by apply elem_of_nil in Hkeys.
  - rewrite (sort_partition compareFn (λ a, String.eqb (keyOf a) x)).
    + simpl. f_equal.
      * apply sort_ordered. intros a b Ha Hb.
        apply elem_of_filter_bool in Ha as [Ha Hax], Hb as [Hb Hbx].
        apply String.eqb_eq in Hax, Hbx. apply Hcmp; auto. rewrite Hax, Hbx. lia.
      * rewrite IH.
        -- apply flat_map_filter_except.
        -- intros a Ha. apply elem_of_filter_bool in Ha as [Ha Hax].
           apply negb_true_iff, String.eqb_neq in Hax.
           specialize (Hkeys a Ha). apply elem_of_cons in Hkeys as [|]; [done|assumption].
        -- intros a b Ha Hb.
           apply elem_of_filter_bool in Ha as [Ha Hax], Hb as [Hb Hbx].
           apply negb_true_iff, String.eqb_neq in Hax, Hbx.
           rewrite (Hcmp a b Ha Hb).
           assert (Hka : keyOf a ∈ keys).
           { specialize (Hkeys a Ha). apply elem_of_cons in Hkeys as [|]; [done|assumption]. }
           assert (Hkb : keyOf b ∈ keys).
           { specialize (Hkeys b Hb). apply elem_of_cons in Hkeys as [|]; [done|assumption]. }
           rewrite !indexOf_further by auto. lia.
    + intros a b Ha Hb Hax Hbx.
      apply String.eqb_eq in Hax. apply String.eqb_neq in Hbx.
      assert (Hkb : keyOf b ∈ keys).
      { specialize (Hkeys b Hb). apply elem_of_cons in Hkeys as [|]; [done|assumption]. }
      pose proof (indexOf_elem keys (keyOf b) Hkb) as Hib.
      pose proof (Hcmp a b Ha Hb) as Hab. pose proof (Hcmp b a Hb Ha) as Hba.
      rewrite Hax, indexOf_head in Hab, Hba.
      rewrite indexOf_further in Hab, Hba by auto. lia.
Qed.

End KeyOrder.

(** ** Column metrics *)

Section ColumnMetricsFacts.
Context {R : Type}.
Implicit Types (m : Metrics R) (cols : list (CalculatedColumn.t R)).

Lemma sumWidths_app cols1 cols2 :
  sumWidths (cols1 ++ cols2) = sumWidths cols1 + sumWidths cols2.
Proof.
  induction cols1 as [|c cols1 IH]; simpl; [reflexivity|].
  rewrite IH. lia.
Qed.

Lemma contiguousFrom_app start cols1 cols2 :
  contiguousFrom start (cols1 ++ cols2)
  ↔ contiguousFrom start cols1 ∧ contiguousFrom (start + sumWidths cols1) cols2.
Proof.
  revert start. induction cols1 as [|c cols1 IH]; intros start; simpl.
  - rewrite Z.add_0_r. tauto.
  - rewrite IH, Z.add_assoc. tauto.
Qed.

Lemma contiguousFrom_adjacent start cols i (a b : CalculatedColumn.t R) :
  contiguousFrom start cols →
  cols !! i = Some a → cols !! S i = Some b →
  CalculatedColumn.left a + CalculatedColumn.width a = CalculatedColumn.left b.
Proof.
  revert start i. induction cols as [|c cols IH]; intros start i Hc Ha Hb; [done|].
  destruct Hc as [Hleft Hrest]. destruct i as [|i]; simpl in *.
  - injection Ha as ->. destruct cols as [|c' cols']; [done|].
    injection Hb as ->. destruct Hrest as [-> _]. lia.
  - eapply IH; eauto.
Qed.

Lemma calculateColumn_inv m w st c :
  secondPassInv st → secondPassInv (calculateColumn m w st c).
Proof.
  intros (Hl & Ht & Hc). unfold secondPassInv, calculateColumn. simpl.
  rewrite sumWidths_app. simpl. rewrite contiguousFrom_app. simpl.
  repeat split; try lia; auto.
Qed.

Lemma secondPass_inv m w sorted : secondPassInv (secondPass m w sorted).
Proof.
  unfold secondPass. apply foldl_invariant.
  - unfold secondPassInv. simpl. auto.
  - intros st c. apply calculateColumn_inv.
Qed.

Lemma sumWidths_alter_setLastFrozen cols i :
  sumWidths (alter CalculatedColumn.setLastFrozen i cols) = sumWidths cols.
Proof.
  revert i. induction cols as [|c cols IH]; intros [|i]; simpl; auto.
  f_equal. apply IH.
Qed.

Lemma contiguousFrom_alter_setLastFrozen start cols i :
  contiguousFrom start (alter CalculatedColumn.setLastFrozen i cols)
  ↔ contiguousFrom start cols.
Proof.
  revert start i. induction cols as [|c cols IH]; intros start [|i]; simpl; try tauto.
  specialize (IH (start + CalculatedColumn.width c) i). tauto.
Qed.

(** What [getColumnMetrics] returns, whichever branch built it. *)
Lemma getColumnMetrics_geometry m :
  let r := getColumnMetrics m in
  sumWidths (columns r) = totalColumnWidth r ∧ contiguousFrom 0 (columns r).
Proof.
  unfold getColumnMetrics.
  set (q := secondPass m _ _).
  destruct (secondPass_inv m (unallocatedColumnWidthOf m (firstPass m)) (sortedColumns m))
    as (Hl & Ht & Hc). fold q in Hl, Ht, Hc.
  destruct (lastFrozenAcc (firstPass m) =? -1); simpl.
  - split; [symmetry|]; assumption.
  - rewrite sumWidths_alter_setLastFrozen, contiguousFrom_alter_setLastFrozen.
    split; [symmetry|]; assumption.
Qed.

(** C1.  For every column list, viewport width, resize-override map and
    group-by list (all in [m]), the calculated columns that [getColumnMetrics]
    returns have widths that sum exactly to the returned [totalColumnWidth],
    the first left offset is [0], and each column starts where the one before
    it ends: [calculated[i].left + calculated[i].width = calculated[i+1].left]. *)
Theorem column_metrics_widths_and_offsets (m : Metrics R) :
  let r := getColumnMetrics m in
  sumWidths (columns r) = totalColumnWidth r
  ∧ (∀ first, columns r !! 0%nat = Some first → CalculatedColumn.left first = 0)
  ∧ (∀ (i : nat) a b,
       columns r !! i = Some a → columns r !! S i = Some b →
       CalculatedColumn.left a + CalculatedColumn.width a = CalculatedColumn.left b).
Proof.
  destruct (getColumnMetrics_geometry m) as [Hsum Hc].
  cbv zeta. split; [exact Hsum|]. split.
  - intros first Hfirst. destruct (columns (getColumnMetrics m)) as [|c cols]; [done|].
    injection Hfirst as ->. exact (proj1 Hc).
  - intros i a b. apply contiguousFrom_adjacent with (start := 0). exact Hc.
Qed.
End ColumnMetricsFacts.

(** Scenario A: column ["b"] receives the 200 pixels that are left; the left
    offsets are 0 and 100. *)
Example scenario_a_widths :
  map (λ c, (CalculatedColumn.key c, CalculatedColumn.width c, CalculatedColumn.left c))
    (columns (getColumnMetrics scenarioAMetrics))
  = [("a"%string, 100, 0); ("b"%string, 200, 100)]
  ∧ totalColumnWidth (getColumnMetrics scenarioAMetrics) = 300.
Proof. vm_compute. split; reflexivity. Qed.

Section ColumnOrder.
Context {R : Type}.
Implicit Types (m : Metrics R) (c : Column.t R).

Lemma mapped_foldl m st (l : list (Column.t R)) :
  mapped (foldl (mapColumn m) st l) = mapped st ++ map (toMapped m) l.
Proof.
  revert st. induction l as [|c l IH]; intros st; simpl.
  - by rewrite app_nil_r.
  - rewrite IH. unfold mapColumn, toMapped.
    destruct (getSpecifiedWidth c (columnWidths m) (viewportWidth m)); simpl;
      by rewrite <- app_assoc.
Qed.

Lemma mapped_firstPass m : mapped (firstPass m) = map (toMapped m) (rawColumns m).
Proof. unfold firstPass. by rewrite mapped_foldl. Qed.

Lemma calculated_foldl m w st (l : list (MappedColumn.t R)) :
  map CalculatedColumn.column (calculated (foldl (calculateColumn m w) st l))
  = map CalculatedColumn.column (calculated st) ++ map MappedColumn.column l.
Proof.
  revert st. induction l as [|c l IH]; intros st; simpl.
  - by rewrite app_nil_r.
  - rewrite IH. simpl. rewrite map_app. simpl. by rewrite <- app_assoc.
Qed.

Lemma column_alter_setLastFrozen (cols : list (CalculatedColumn.t R)) i :
  map CalculatedColumn.column (alter CalculatedColumn.setLastFrozen i cols)
  = map CalculatedColumn.column cols.
Proof.
  revert i. induction cols as [|c cols IH]; intros [|i]; simpl; auto.
  f_equal. apply IH.
Qed.

(** The calculated columns are the sorted columns, one for one. *)
Lemma columns_of_sorted m :
  map CalculatedColumn.column (columns (getColumnMetrics m))
  = map MappedColumn.column (sortedColumns m).
Proof.
  unfold getColumnMetrics.
  destruct (lastFrozenAcc (firstPass m) =? -1); simpl;
    rewrite ?column_alter_setLastFrozen; unfold secondPass; by rewrite calculated_foldl.
Qed.

Lemma sortedColumns_blocks m :
  let cmp := compareColumns (rawGroupBy m) in
  let cols := mapped (firstPass m) in
  let others := List.filter (λ a, negb (selectFirst a)) cols in
  let ungrouped := List.filter (λ a, negb (groupedNext (rawGroupBy m) a)) others in
  sortedColumns m
  = sort cmp (List.filter selectFirst cols)
    ++ sort cmp (List.filter (groupedNext (rawGroupBy m)) others)
    ++ List.filter MappedColumn.frozen ungrouped
    ++ List.filter (λ a, negb (MappedColumn.frozen a)) ungrouped.
Proof.
  intros cmp cols others ungrouped. unfold sortedColumns. fold cmp cols.
  rewrite (sort_partition cmp selectFirst cols). 2:{
    intros a b _ _ Ha Hb. unfold cmp, compareColumns, selectFirst in *.
    rewrite Ha, Hb. lia. }
  f_equal. fold others.
  rewrite (sort_partition cmp (groupedNext (rawGroupBy m)) others). 2:{
    intros a b Ha Hb Hga Hgb.
    apply elem_of_filter_bool in Ha as [_ Ha], Hb as [_ Hb].
    apply negb_true_iff in Ha, Hb.
    unfold cmp, compareColumns, selectFirst, groupedNext in *.
    rewrite Ha, Hb, Hga, Hgb. lia. }
  f_equal. fold ungrouped.
  rewrite (sort_partition cmp MappedColumn.frozen ungrouped). 2:{
    intros a b Ha Hb Hfa Hfb.
    apply elem_of_filter_bool in Ha as [Ha Hga], Hb as [Hb Hgb].
    apply elem_of_filter_bool in Ha as [_ Ha], Hb as [_ Hb].
    apply negb_true_iff in Ha, Hb, Hga, Hgb.
    unfold cmp, compareColumns, selectFirst, groupedNext in *.
    rewrite Ha, Hb, Hga, Hgb, Hfa, Hfb. lia. }
  f_equal; apply sort_ordered; intros a b Ha Hb;
    apply elem_of_filter_bool in Ha as [Ha Hfa], Hb as [Hb Hfb];
    apply elem_of_filter_bool in Ha as [Ha Hga], Hb as [Hb Hgb];
    apply elem_of_filter_bool in Ha as [_ Ha], Hb as [_ Hb];
    rewrite ?negb_true_iff in *;
    unfold cmp, compareColumns, selectFirst, groupedNext in *;
    rewrite Ha, Hb, Hga, Hgb, Hfa, Hfb; lia.
Qed.


Lemma groupByIncludes_default (gb : option (list string)) k :
  groupByIncludes gb k = includes (default [] gb) k.
Proof.
  destruct gb; simpl; [reflexivity|].
  unfold includes. symmetry. apply bool_decide_eq_false. apply not_elem_of_nil.
Qed.

Lemma column_toMapped m (l : list (Column.t R)) :
  map MappedColumn.column (map (toMapped m) l) = l.
Proof. rewrite map_map. simpl. apply map_id. Qed.

(** C6.  With at most one select column among the raw columns, the calculated
    columns are, in this order: the select column; then, for each key of the
    group-by list in the order of the list (a repeated key counts where it
    first occurs), the columns with that key; then the remaining frozen
    columns; then all other columns.  Each of these runs keeps the columns in
    the order they have in the raw column list. *)
Theorem calculated_column_order (m : Metrics R) :
  (length (List.filter isSelectColumn (rawColumns m)) ≤ 1)%nat →
  let keys := default [] (rawGroupBy m) in
  let raw := rawColumns m in
  map CalculatedColumn.column (columns (getColumnMetrics m))
  = List.filter isSelectColumn raw
    ++ flat_map
         (λ k, List.filter
                 (λ c, negb (isSelectColumn c) && String.eqb (Column.key c) k) raw)
         (firstOccurrences keys)
    ++ List.filter
         (λ c, negb (isSelectColumn c) && negb (includes keys (Column.key c))
               && Column.frozen c) raw
    ++ List.filter
         (λ c, negb (isSelectColumn c) && negb (includes keys (Column.key c))
               && negb (Column.frozen c)) raw.
Proof.
  intros Hselect keys raw.
  rewrite columns_of_sorted, sortedColumns_blocks, mapped_firstPass. fold raw.
  rewrite !map_app. f_equal; [|f_equal; [|f_equal]].
  - rewrite filter_map_comm, sort_short.
    + apply column_toMapped.
    + rewrite length_map. exact Hselect.
  - rewrite (sort_by_key_order _ MappedColumn.key keys).
    + rewrite map_flat_map_comm. apply flat_map_ext_elem. intros k Hk.
      apply firstOccurrences_elem in Hk.
      rewrite !filter_filter_and, filter_map_comm, column_toMapped.
      apply List.filter_ext. intros c.
      unfold selectFirst, groupedNext, isSelectColumn, MappedColumn.key. simpl.
      destruct (String.eqb_spec (Column.key c) k) as [->|]; [|rewrite ?andb_false_r; reflexivity].
      rewrite groupByIncludes_default. fold keys.
      apply includes_elem in Hk. rewrite Hk. reflexivity.
    + intros a Ha. apply elem_of_filter_bool in Ha as [_ Ha].
      unfold groupedNext in Ha. rewrite groupByIncludes_default in Ha.
      by apply includes_elem in Ha.
    + intros a b Ha Hb.
      apply elem_of_filter_bool in Ha as [Ha Hga], Hb as [Hb Hgb].
      apply elem_of_filter_bool in Ha as [_ Ha], Hb as [_ Hb].
      apply negb_true_iff in Ha, Hb.
      unfold compareColumns, selectFirst, groupedNext in *.
      rewrite Ha, Hb, Hga, Hgb. fold keys. lia.
  - rewrite !filter_filter_and, filter_map_comm, column_toMapped.
    apply List.filter_ext. intros c.
    unfold selectFirst, groupedNext, isSelectColumn, MappedColumn.key. simpl.
    rewrite groupByIncludes_default. fold keys.
    by destruct (String.eqb _ _), (includes keys (Column.key c)), (Column.frozen c).
  - rewrite !filter_filter_and, filter_map_comm, column_toMapped.
    apply List.filter_ext. intros c.
    unfold selectFirst, groupedNext, isSelectColumn, MappedColumn.key. simpl.
    rewrite groupByIncludes_default. fold keys.
    by destruct (String.eqb _ _), (includes keys (Column.key c)), (Column.frozen c).
Qed.

End ColumnOrder.

Lemma calculated_column_order_witness :
  (length (List.filter isSelectColumn (rawColumns demoMetrics)) ≤ 1)%nat
  ∧ map CalculatedColumn.column (columns (getColumnMetrics demoMetrics))
    = [selectColumn; cityColumn; regionColumn; pinnedColumn; amountColumn; noteColumn].
Proof.
  split; [vm_compute; lia|].
  rewrite (calculated_column_order demoMetrics) by (vm_compute; lia).
  vm_compute. reflexivity.
Defined.

(** With distinct group-by keys the grouped columns follow the list itself. *)
Lemma firstOccurrences_rawGroupBy {R : Type} (m : Metrics R) :
  NoDup (default [] (rawGroupBy m)) →
  firstOccurrences (default [] (rawGroupBy m)) = default [] (rawGroupBy m).
Proof. apply firstOccurrences_NoDup. Qed.

Section ComparatorFacts.
Context {R : Type}.

(** Unless both columns are select columns, the comparator answers by rank:
    it is a consistent comparator on columns with at most one select column,
    and the stable sort by it is then determined. *)
Lemma compareColumns_by_rank (rawGroupBy : option (list string)) (a b : MappedColumn.t R) :
  ¬ (MappedColumn.key a = SELECT_COLUMN_KEY ∧ MappedColumn.key b = SELECT_COLUMN_KEY) →
  Z.sgn (compareColumns rawGroupBy a b)
  = Z.sgn (columnRank rawGroupBy a - columnRank rawGroupBy b).
Proof.
  intros Hselect. unfold compareColumns, columnRank.
  destruct (String.eqb_spec (MappedColumn.key a) SELECT_COLUMN_KEY) as [Ha|Ha];
    destruct (String.eqb_spec (MappedColumn.key b) SELECT_COLUMN_KEY) as [Hb|Hb];
    [tauto| | |].
  - assert (-1 <= indexOf (default [] rawGroupBy) (MappedColumn.key b))
      by apply indexOf_ge.
    destruct (groupByIncludes rawGroupBy (MappedColumn.key b)) eqn:Hgb.
    + rewrite groupByIncludes_default in Hgb. apply includes_elem, indexOf_elem in Hgb.
      simpl. rewrite Z.sgn_neg by lia. reflexivity.
    + destruct (MappedColumn.frozen b); simpl; rewrite Z.sgn_neg; unfold js_length; lia.
  - assert (-1 <= indexOf (default [] rawGroupBy) (MappedColumn.key a))
      by apply indexOf_ge.
    destruct (groupByIncludes rawGroupBy (MappedColumn.key a)) eqn:Hga.
    + rewrite groupByIncludes_default in Hga. apply includes_elem, indexOf_elem in Hga.
      simpl. rewrite Z.sgn_pos by lia. reflexivity.
    + destruct (MappedColumn.frozen a); simpl; rewrite Z.sgn_pos; unfold js_length; lia.
  - pose proof (indexOf_lt_length (default [] rawGroupBy) (MappedColumn.key a)).
    pose proof (indexOf_lt_length (default [] rawGroupBy) (MappedColumn.key b)).
    destruct (groupByIncludes rawGroupBy (MappedColumn.key a)) eqn:Hga;
      destruct (groupByIncludes rawGroupBy (MappedColumn.key b)) eqn:Hgb;
      [reflexivity| | |];
      destruct (MappedColumn.frozen a), (MappedColumn.frozen b); simpl;
      first [ reflexivity
            | rewrite Z.sgn_neg by lia; reflexivity
            | rewrite Z.sgn_pos by lia; reflexivity
            | rewrite Z.sub_diag; reflexivity ].
Qed.

(** The last frozen column exists whenever a column is frozen: the lookup
    in [getColumnMetrics] marked as finding one does. *)
Lemma firstPass_lastFrozen (m : Metrics R) :
  -1 <= lastFrozenAcc (firstPass m) < js_length (mapped (firstPass m)).
Proof.
  unfold firstPass, js_length. apply foldl_invariant.
  - simpl. lia.
  - intros st c Hst. unfold mapColumn.
    destruct (getSpecifiedWidth c (columnWidths m) (viewportWidth m)); simpl;
      rewrite length_app; simpl;
      destruct (if groupByIncludes _ _ then true else Column.frozen c); lia.
Qed.

Lemma length_calculated_foldl (m : Metrics R) w st (l : list (MappedColumn.t R)) :
  length (calculated (foldl (calculateColumn m w) st l))
  = (length (calculated st) + length l)%nat.
Proof.
  revert st. induction l as [|c l IH]; intros st; simpl; [lia|].
  rewrite IH. simpl. rewrite length_app. simpl. lia.
Qed.

Lemma lastFrozenColumn_defined (m : Metrics R) :
  lastFrozenAcc (firstPass m) ≠ -1 →
  ∃ lastFrozenColumn,
    js_get (calculated (secondPass m (unallocatedColumnWidthOf m (firstPass m))
                          (sortedColumns m)))
      (lastFrozenAcc (firstPass m)) = Some lastFrozenColumn.
Proof.
  intros Hne. pose proof (firstPass_lastFrozen m) as Hbounds.
  apply js_get_in_bounds. unfold js_length in *.
  unfold secondPass. rewrite length_calculated_foldl. simpl.
  unfold sortedColumns. rewrite length_sort. lia.
Qed.

End ComparatorFacts.

(** ** The row window *)

Lemma floorDiv_batch_le x : floorDiv x RENDER_BACTCH_SIZE * RENDER_BACTCH_SIZE <= x.
Proof.
  unfold floorDiv, RENDER_BACTCH_SIZE.
  pose proof (Z.mul_div_le x 8 ltac:(lia)). lia.
Qed.

Lemma ceilDiv_batch_ge x : x <= ceilDiv x RENDER_BACTCH_SIZE * RENDER_BACTCH_SIZE.
Proof.
  unfold ceilDiv, RENDER_BACTCH_SIZE.
  pose proof (Z.mul_div_le (- x) 8 ltac:(lia)). lia.
Qed.

Section RowWindow.
Context {R : Type}.

Lemma useViewportRows_window (rawRows : list R) rowHeight clientHeight scrollTop
    groupBy rowGrouper expandedGroupIds :
  let v := useViewportRows rawRows rowHeight clientHeight scrollTop groupBy rowGrouper
             expandedGroupIds in
  let len := js_length (rows v) in
  let visibleStart := rowVisibleStartIdx rowHeight scrollTop in
  let visibleEnd := rowVisibleEndIdx len rowHeight clientHeight scrollTop in
  rowOverscanStartIdx v
  = Z.max 0 (floorDiv (visibleStart - 4) RENDER_BACTCH_SIZE * RENDER_BACTCH_SIZE)
  ∧ rowOverscanEndIdx v
    = Z.min (len - 1) (ceilDiv (visibleEnd + 4) RENDER_BACTCH_SIZE * RENDER_BACTCH_SIZE).
Proof.
  unfold useViewportRows. destruct (groupedRowsOf rawRows groupBy rowGrouper). simpl.
  split; reflexivity.
Qed.

(** C2, amended.  For a non-negative scroll top and client height and a
    positive row height, the row overscan window contains the visible range
    [floor (scrollTop / rowHeight) .. min (len - 1, floor ((scrollTop +
    clientHeight) / rowHeight))]: it starts at or before the first visible row
    and ends at or after the last.  Its start is at least [0] and its end at
    most [len - 1]; the end is at least [0] when there is a row, and both
    indices lie within [0 .. len - 1] when moreover the scroll top is within
    the rows ([scrollTop < len * rowHeight]). *)
Theorem row_overscan_window (rawRows : list R) rowHeight clientHeight scrollTop
    groupBy rowGrouper expandedGroupIds :
  0 <= scrollTop → 0 <= clientHeight → 0 < rowHeight →
  let v := useViewportRows rawRows rowHeight clientHeight scrollTop groupBy rowGrouper
             expandedGroupIds in
  let len := js_length (rows v) in
  rowWindowContainsVisible v rowHeight clientHeight scrollTop
  ∧ 0 <= rowOverscanStartIdx v
  ∧ rowOverscanEndIdx v <= len - 1
  ∧ (0 < len → 0 <= rowOverscanEndIdx v)
  ∧ (scrollTop < len * rowHeight → rowWindowWithinRows v).
Proof.
  intros Htop Hclient Hheight v len.
  destruct (useViewportRows_window rawRows rowHeight clientHeight scrollTop groupBy
              rowGrouper expandedGroupIds) as [Hs He].
  fold v in Hs, He. fold len in He.
  unfold rowWindowContainsVisible, rowWindowWithinRows. fold len.
  set (vs := rowVisibleStartIdx rowHeight scrollTop) in *.
  set (ve := rowVisibleEndIdx len rowHeight clientHeight scrollTop) in *.
  assert (Hvs : 0 <= vs) by (apply Z.div_pos; lia).
  assert (Hve : ve <= len - 1) by (unfold ve, rowVisibleEndIdx; lia).
  assert (Hve0 : 0 < len → 0 <= ve).
  { intros Hlen. unfold ve, rowVisibleEndIdx, floorDiv.
    pose proof (Z.div_pos (scrollTop + clientHeight) rowHeight ltac:(lia) ltac:(lia)). lia. }
  assert (Hvs1 : scrollTop < len * rowHeight → vs <= len - 1).
  { intros Hlt. unfold vs, rowVisibleStartIdx, floorDiv.
    assert (scrollTop / rowHeight < len) by (apply Z.div_lt_upper_bound; lia). lia. }
  pose proof (floorDiv_batch_le (vs - 4)). pose proof (ceilDiv_batch_ge (ve + 4)).
  rewrite Hs, He.
  repeat split; lia.
Qed.
End RowWindow.

Lemma row_overscan_window_witness :
  let v := useViewportRows sixRows 35 70 35 [] None None in
  let len := js_length (rows v) in
  rowWindowContainsVisible v 35 70 35
  ∧ 0 <= rowOverscanStartIdx v
  ∧ rowOverscanEndIdx v <= len - 1
  ∧ (0 < len → 0 <= rowOverscanEndIdx v)
  ∧ (35 < len * 35 → rowWindowWithinRows v).
Proof. apply (row_overscan_window sixRows 35 70 35 [] None None); lia. Defined.

(** C2 as stated fails: with no rows the window is [0 .. -1], and a scroll top
    past the rows puts the start of the window past the last row. *)
Lemma row_window_outside_rows :
  (0 <= 0 ∧ 0 <= 350 ∧ 0 < 35
   ∧ ¬ rowWindowWithinRows (useViewportRows (@nil DemoRow) 35 350 0 [] None None))
  ∧ (0 <= 1000 ∧ 0 <= 100 ∧ 0 < 10
     ∧ rowOverscanStartIdx (useViewportRows [north1] 10 100 1000 [] None None) = 96
     ∧ ¬ rowWindowWithinRows (useViewportRows [north1] 10 100 1000 [] None None)).
Proof.
  unfold rowWindowWithinRows.
  repeat split; try lia; try reflexivity; vm_compute; intros [[H1 H2] [H3 H4]]; auto.
Qed.

(** ** Flattening the groups *)

Section Flatten.
Context {R : Type}.

(** Induction on grouped rows: a group object may assume the property of the
    child groups of each of its entries. *)
Lemma GroupedRows_nested_ind (P : GroupedRows R → Prop) :
  (∀ rows, P (RowArray rows)) →
  (∀ groups, Forall (λ entry, P (childGroupsOf entry.2)) groups → P (GroupObject groups)) →
  ∀ rows, P rows.
Proof.
  intros Hrows Hgroups.
  fix IH 1. intros [rows|groups]; [apply Hrows|].
  apply Hgroups.
  induction groups as [|[k [childRows childGroups start]] groups IHgroups];
    constructor; [apply IH | apply IHgroups].
Qed.

Lemma expandGroup_flattenDepthFirst ids (rows : GroupedRows R) parentId level acc :
  expandGroup ids rows parentId level acc
  = acc ++ flattenDepthFirst ids rows parentId level.
Proof.
  revert parentId level acc.
  induction rows as [rows|groups IH] using GroupedRows_nested_ind;
    intros parentId level acc; simpl; [reflexivity|].
  generalize (js_length groups). intros setSize.
  generalize 0. intros pos. revert pos acc.
  induction IH as [|[k [childRows childGroups start]] groups Hhead _ IHtail];
    intros pos acc.
  - by rewrite app_nil_r.
  - simpl in Hhead. rewrite IHtail. simpl.
    destruct (isExpandedId ids (groupId parentId k)).
    + rewrite Hhead. rewrite <- !app_assoc. reflexivity.
    + rewrite <- !app_assoc. reflexivity.
Qed.

End Flatten.

Section FlattenTheorem.
Context {R : Type}.

Lemma rows_useViewportRows (rawRows : list R) rowHeight clientHeight scrollTop groupBy
    rowGrouper expandedGroupIds :
  rows (useViewportRows rawRows rowHeight clientHeight scrollTop groupBy rowGrouper
          expandedGroupIds)
  = flattenRows rawRows (groupedRowsOf rawRows groupBy rowGrouper).1 expandedGroupIds.
Proof.
  unfold useViewportRows. by destruct (groupedRowsOf rawRows groupBy rowGrouper).
Qed.

Lemma rowsCount_useViewportRows (rawRows : list R) rowHeight clientHeight scrollTop groupBy
    rowGrouper expandedGroupIds :
  rowsCount (useViewportRows rawRows rowHeight clientHeight scrollTop groupBy rowGrouper
               expandedGroupIds)
  = (groupedRowsOf rawRows groupBy rowGrouper).2.
Proof.
  unfold useViewportRows. by destruct (groupedRowsOf rawRows groupBy rowGrouper).
Qed.

Lemma flattenRows_depth_first (rawRows : list R) groupedRows expandedGroupIds :
  flattenRows rawRows groupedRows expandedGroupIds
  = match groupedRows with
    | None => map Row rawRows
    | Some groups => flattenDepthFirst expandedGroupIds (GroupObject groups) None 0
    end.
Proof.
  destruct groupedRows as [groups|]; [|reflexivity].
  unfold flattenRows. by rewrite expandGroup_flattenDepthFirst.
Qed.

(** One group-by key and a grouper that answers two groups. *)
Lemma groupedRowsOf_two_groups (rawRows : list R) key (rowGrouper : RowGrouper R)
    k1 k2 rows1 rows2 :
  rowGrouper rawRows key = [(k1, rows1); (k2, rows2)] → k1 ≠ k2 →
  k1 ≠ "__proto__"%string → k2 ≠ "__proto__"%string →
  (groupedRowsOf rawRows [key] (Some rowGrouper)).1
  = Some [(k1, mkGroup rows1 (RowArray rows1) 0);
          (k2, mkGroup rows2 (RowArray rows2) (js_length rows1 + 1))].
Proof.
  intros Hgroups Hne Hk1 Hk2. unfold groupedRowsOf. simpl. rewrite Hgroups. simpl.
  unfold objSet. apply String.eqb_neq in Hne, Hk1, Hk2. rewrite Hk1, Hk2. simpl.
  rewrite Hne. reflexivity.
Qed.

(** The same with [__proto__] as one of the two keys: the assignment of that
    group adds no property, the count includes it. *)
Lemma groupedRowsOf_proto_group (rawRows : list R) key (rowGrouper : RowGrouper R)
    k1 k2 rows1 rows2 :
  rowGrouper rawRows key = [(k1, rows1); (k2, rows2)] → k1 ≠ k2 →
  k1 = "__proto__"%string ∨ k2 = "__proto__"%string →
  groupedRowsOf rawRows [key] (Some rowGrouper)
  = (Some (if String.eqb k1 "__proto__"
           then [(k2, mkGroup rows2 (RowArray rows2) (js_length rows1 + 1))]
           else [(k1, mkGroup rows1 (RowArray rows1) 0)]),
     js_length rows1 + js_length rows2 + 2).
Proof.
  intros Hgroups Hne Hproto. unfold groupedRowsOf. simpl. rewrite Hgroups. simpl.
  unfold objSet. destruct Hproto as [->| ->].
  - apply not_eq_sym, String.eqb_neq in Hne. rewrite Hne. simpl. f_equal. lia.
  - apply String.eqb_neq in Hne. rewrite Hne. simpl. f_equal. lia.
Qed.

Lemma one_group_length ids k (rows : list R) start :
  length (flattenDepthFirst ids (GroupObject [(k, mkGroup rows (RowArray rows) start)])
            None 0)
  = (1 + (if isExpandedId ids k then length rows else 0))%nat.
Proof.
  simpl. destruct (isExpandedId ids k);
    repeat (rewrite length_app || rewrite length_map || rewrite length_cons
            || rewrite length_nil); simpl; lia.
Qed.

Lemma two_groups_length ids k1 k2 (rows1 rows2 : list R) start1 start2 :
  length (flattenDepthFirst ids
            (GroupObject [(k1, mkGroup rows1 (RowArray rows1) start1);
                          (k2, mkGroup rows2 (RowArray rows2) start2)]) None 0)
  = (2 + (if isExpandedId ids k1 then length rows1 else 0)
     + (if isExpandedId ids k2 then length rows2 else 0))%nat.
Proof.
  simpl. destruct (isExpandedId ids k1), (isExpandedId ids k2);
    repeat (rewrite length_app || rewrite length_map || rewrite length_cons
            || rewrite length_nil); simpl; lia.
Qed.

Lemma isExpandedId_Some (ids : gset string) k :
  isExpandedId (Some ids) k = bool_decide (k ∈ ids).
Proof. reflexivity. Qed.

(** For every raw row list, grouping function and expanded-id set, the
    flattened rows are the depth-first traversal of the group tree that was
    built, in insertion order, with a header for every group of the tree it
    reaches and the content of a group only when its id is in the expanded
    set; without grouping they are the raw rows.  With one group-by key and
    two groups of three rows each, neither with the key [__proto__], the
    flattened length is 2 while both are collapsed, 5 once one of them is
    expanded (and 8 with both). *)
Lemma flattened_rows_depth_first (rawRows : list R) rowHeight clientHeight scrollTop
    groupBy rowGrouper :
  let flattened ids :=
    rows (useViewportRows rawRows rowHeight clientHeight scrollTop groupBy rowGrouper ids) in
  (∀ ids,
     flattened ids
     = match (groupedRowsOf rawRows groupBy rowGrouper).1 with
       | None => map Row rawRows
       | Some groups => flattenDepthFirst ids (GroupObject groups) None 0
       end)
  ∧ (∀ key grouper k1 k2 rows1 rows2,
       groupBy = [key] → rowGrouper = Some grouper →
       grouper rawRows key = [(k1, rows1); (k2, rows2)] → k1 ≠ k2 →
       k1 ≠ "__proto__"%string → k2 ≠ "__proto__"%string →
       length rows1 = 3%nat → length rows2 = 3%nat →
       length (flattened None) = 2%nat
       ∧ length (flattened (Some ∅)) = 2%nat
       ∧ length (flattened (Some {[k1]})) = 5%nat
       ∧ length (flattened (Some {[k2]})) = 5%nat
       ∧ length (flattened (Some {[k1; k2]})) = 8%nat).
Proof.
  intros flattened. split.
  - intros ids. unfold flattened. rewrite rows_useViewportRows. apply flattenRows_depth_first.
  - intros key grouper k1 k2 rows1 rows2 -> -> Hgroups Hne Hk1 Hk2 Hlen1 Hlen2.
    unfold flattened. rewrite !rows_useViewportRows, !flattenRows_depth_first.
    rewrite (groupedRowsOf_two_groups rawRows key grouper k1 k2 rows1 rows2) by assumption.
    rewrite !two_groups_length, !isExpandedId_Some, Hlen1, Hlen2. simpl.
    rewrite (bool_decide_eq_false_2 (k1 ∈ (∅ : gset string))) by set_solver.
    rewrite (bool_decide_eq_false_2 (k2 ∈ (∅ : gset string))) by set_solver.
    rewrite (bool_decide_eq_true_2 (k1 ∈ ({[k1]} : gset string))) by set_solver.
    rewrite (bool_decide_eq_true_2 (k2 ∈ ({[k2]} : gset string))) by set_solver.
    rewrite (bool_decide_eq_false_2 (k2 ∈ ({[k1]} : gset string))) by set_solver.
    rewrite (bool_decide_eq_false_2 (k1 ∈ ({[k2]} : gset string))) by set_solver.
    rewrite (bool_decide_eq_true_2 (k1 ∈ ({[k1; k2]} : gset string))) by set_solver.
    rewrite (bool_decide_eq_true_2 (k2 ∈ ({[k1; k2]} : gset string))) by set_solver.
    repeat split; reflexivity.
Qed.

(** C8.  In the code the claim fails for a group with the key [__proto__]:
    [groupRows] stores every group with [groups[key] = ...] in an object made
    by [{}], which for that key sets the prototype and adds no property, so
    [Object.keys] in [expandGroup] does not list the group.  With one group-by
    key and two groups of three rows each, one of them with the key
    [__proto__], the flattened rows are 1 while all is collapsed and 1 or 4
    for every expanded-id set, never 2 or 5; no header of that group is among
    them, although [rowsCount] is 8 and counts the group with its header. *)
Theorem proto_group_lost (rawRows : list R) rowHeight clientHeight scrollTop key
    (grouper : RowGrouper R) k1 k2 rows1 rows2 :
  grouper rawRows key = [(k1, rows1); (k2, rows2)] → k1 ≠ k2 →
  k1 = "__proto__"%string ∨ k2 = "__proto__"%string →
  length rows1 = 3%nat → length rows2 = 3%nat →
  let v ids :=
    useViewportRows rawRows rowHeight clientHeight scrollTop [key] (Some grouper) ids in
  length (rows (v None)) = 1%nat
  ∧ length (rows (v (Some ∅))) = 1%nat
  ∧ (∀ ids, length (rows (v ids)) = 1%nat ∨ length (rows (v ids)) = 4%nat)
  ∧ (∀ ids g, GroupHeader g ∈ rows (v ids) → groupKey g ≠ "__proto__"%string)
  ∧ (∀ ids, rowsCount (v ids) = 8).
Proof.
  intros Hgroups Hne Hproto Hlen1 Hlen2 v.
  assert (Hrows : ∀ ids,
            rows (v ids)
            = flattenDepthFirst ids
                (GroupObject
                   (if String.eqb k1 "__proto__"
                    then [(k2, mkGroup rows2 (RowArray rows2) (js_length rows1 + 1))]
                    else [(k1, mkGroup rows1 (RowArray rows1) 0)])) None 0).
  { intros ids. unfold v. rewrite rows_useViewportRows, flattenRows_depth_first.
    by rewrite (groupedRowsOf_proto_group rawRows key grouper k1 k2 rows1 rows2). }
  assert (Hlen : ∀ ids,
            length (rows (v ids))
            = (1 + (if isExpandedId ids (if String.eqb k1 "__proto__" then k2 else k1)
                    then 3 else 0))%nat).
  { intros ids. rewrite Hrows.
    destruct (String.eqb k1 "__proto__"); rewrite one_group_length;
      by rewrite ?Hlen1, ?Hlen2. }
  split; [by rewrite Hlen|]. split.
  { rewrite Hlen, isExpandedId_Some.
    by rewrite bool_decide_eq_false_2 by apply not_elem_of_empty. }
  split.
  { intros ids. rewrite Hlen. destruct (isExpandedId ids _); [by right|by left]. }
  split.
  - intros ids g. rewrite Hrows.
    assert (Hother : (if String.eqb k1 "__proto__" then k2 else k1) ≠ "__proto__"%string).
    { destruct (String.eqb_spec k1 "__proto__") as [->|Hk1]; [|exact Hk1].
      by apply not_eq_sym. }
    destruct (String.eqb k1 "__proto__"); simpl; intros Hg;
      (apply elem_of_cons in Hg as [[= ->]|Hg]; [exact Hother|]);
      rewrite app_nil_r in Hg; destruct (isExpandedId ids _);
      try (by apply elem_of_nil in Hg);
      apply list_elem_of_fmap in Hg as (row & [=] & _).
  - intros ids. unfold v. rewrite rowsCount_useViewportRows.
    rewrite (groupedRowsOf_proto_group rawRows key grouper k1 k2 rows1 rows2)
      by assumption.
    cbn [snd]. unfold js_length. lia.
Qed.

End FlattenTheorem.

(** Scenario E on six rows of two regions. *)
Lemma flattened_rows_depth_first_witness :
  let flattened ids :=
    rows (useViewportRows sixRows 35 350 0 ["region"%string] (Some groupByRegion) ids) in
  length (flattened None) = 2%nat
  ∧ length (flattened (Some ∅)) = 2%nat
  ∧ length (flattened (Some {["north"%string]})) = 5%nat
  ∧ length (flattened (Some {["south"%string]})) = 5%nat
  ∧ length (flattened (Some {["north"%string; "south"%string]})) = 8%nat.
Proof.
  apply (proj2 (flattened_rows_depth_first sixRows 35 350 0 ["region"%string]
                  (Some groupByRegion))
           "region"%string groupByRegion "north"%string "south"%string
           [ {| rowId := 1; region := "north"; amount := 1 |};
             {| rowId := 3; region := "north"; amount := 3 |};
             {| rowId := 5; region := "north"; amount := 5 |} ]
           [ {| rowId := 2; region := "south"; amount := 2 |};
             {| rowId := 4; region := "south"; amount := 4 |};
             {| rowId := 6; region := "south"; amount := 6 |} ]);
    (reflexivity || discriminate).
Defined.

(** Scenario E with the region [__proto__] in the place of north. *)
Lemma proto_group_lost_witness :
  let v ids :=
    useViewportRows protoRows 35 350 0 ["region"%string] (Some groupByRegion) ids in
  length (rows (v None)) = 1%nat
  ∧ length (rows (v (Some ∅))) = 1%nat
  ∧ (∀ ids, length (rows (v ids)) = 1%nat ∨ length (rows (v ids)) = 4%nat)
  ∧ (∀ ids g, GroupHeader g ∈ rows (v ids) → groupKey g ≠ "__proto__"%string)
  ∧ (∀ ids, rowsCount (v ids) = 8).
Proof.
  apply (proto_group_lost protoRows 35 350 0 "region"%string groupByRegion
           "__proto__"%string "south"%string
           [ {| rowId := 1; region := "__proto__"; amount := 1 |};
             {| rowId := 3; region := "__proto__"; amount := 3 |};
             {| rowId := 5; region := "__proto__"; amount := 5 |} ]
           [ {| rowId := 2; region := "south"; amount := 2 |};
             {| rowId := 4; region := "south"; amount := 4 |};
             {| rowId := 6; region := "south"; amount := 6 |} ]).
  - reflexivity.
  - discriminate.
  - left. reflexivity.
  - reflexivity.
  - reflexivity.
Defined.

(** ** Runs of handlers *)

Section RunFacts.
Context {R K : Type} `{EqDecision R} `{Countable K}.
Implicit Types (g : Grid R K) (s : State R).

Lemma effectsOf_bind {A B : Type} (m : Run R K A) (k : A → Run R K B) :
  effectsOf (bind m k)
  = effectsOf m ++ (if outcomeOf m is Returned a then effectsOf (k a) else []).
Proof.
  destruct m as [effects [a|e]]; simpl.
  - by destruct (k a).
  - by rewrite app_nil_r.
Qed.

Lemma positionUpdates_app (e1 e2 : list (Effect R K)) :
  positionUpdates (e1 ++ e2) = positionUpdates e1 ++ positionUpdates e2.
Proof. apply omap_app. Qed.

Lemma selectedPosition_foldl s (effects : list (Effect R K)) :
  selectedPosition (foldl applyEffect s effects)
  = foldl (λ sp update, update sp) (selectedPosition s) (positionUpdates effects).
Proof.
  revert s. induction effects as [|e effects IH]; intros s; simpl; [reflexivity|].
  rewrite IH. by destruct e.
Qed.

Lemma selectedPosition_stateAfter {A : Type} s (run : Run R K A) :
  selectedPosition (stateAfter s run)
  = foldl (λ sp update, update sp) (selectedPosition s) (positionUpdates (effectsOf run)).
Proof. apply selectedPosition_foldl. Qed.

End RunFacts.

(** ** Selecting and navigating *)

Section SelectCellFacts.
Context {R K : Type} `{EqDecision R} `{Countable K}.
Implicit Types (g : Grid R K) (s : State R) (p : Position.t).

Lemma isCellWithinBounds_spec g p :
  isCellWithinBounds g p = true
  ↔ 0 <= Position.rowIdx p < js_length (gridRows g)
    ∧ minColIdx g <= Position.idx p < js_length (gridColumns g).
Proof.
  unfold isCellWithinBounds. rewrite !andb_true_iff, !Z.leb_le, !Z.ltb_lt. lia.
Qed.

(** [selectCell] does nothing at all for a position outside the grid. *)
Lemma selectCell_out_of_bounds g s p enableEditor :
  isCellWithinBounds g p = false → selectCell g s p enableEditor = ([], Returned tt).
Proof. intros Hp. unfold selectCell. rewrite Hp. reflexivity. Qed.

Lemma getNextPosition_ArrowRight g s ctrlKey shiftKey :
  getNextPosition g s "ArrowRight" ctrlKey shiftKey
  = Position.mk (Position.idx (position (selectedPosition s)) + 1)
      (Position.rowIdx (position (selectedPosition s))).
Proof.
  unfold getNextPosition. cbn [String.eqb Ascii.eqb Bool.eqb andb].
  destruct (js_get (gridRows g) _) as [[row|groupRow]|]; reflexivity.
Qed.

End SelectCellFacts.

Section MoreGridFacts.
Context {R K : Type} `{EqDecision R} `{Countable K}.
Implicit Types (g : Grid R K) (s : State R) (p : Position.t).

(** Without groups the raw index is the row index; with groups it is where
    the row sits in [rawRows]. *)
Lemma getRawRowIdx_spec g rowIdx :
  (hasGroups g = false → getRawRowIdx g rowIdx = rowIdx)
  ∧ (∀ row, hasGroups g = true → js_get (gridRows g) rowIdx = Some (Row row) →
       row ∈ rawRows g → js_get (rawRows g) (getRawRowIdx g rowIdx) = Some row).
Proof.
  unfold getRawRowIdx. split.
  - intros ->. reflexivity.
  - intros row -> -> Hrow. by apply js_get_indexOf.
Qed.

(** The branch of [selectCell] marked as not reached is not reached: an
    editable cell is on a row of the caller. *)
Lemma isCellEditable_row g p effects :
  isCellEditable g p = (effects, Returned true) →
  ∃ row, js_get (gridRows g) (Position.rowIdx p) = Some (Row row).
Proof.
  unfold isCellEditable, isSelectedCellEditable.
  destruct (isCellWithinBounds g p) eqn:Hin; [|discriminate].
  apply isCellWithinBounds_spec in Hin as [Hrow _].
  destruct (js_get_in_bounds (gridRows g) (Position.rowIdx p) Hrow) as [row Hget].
  rewrite Hget. destruct (js_get (gridColumns g) _); [|discriminate].
  destruct row as [row|groupRow]; [eauto|].
  simpl. rewrite andb_false_r. discriminate.
Qed.

Lemma getNextPosition_ArrowUp g s ctrlKey shiftKey :
  getNextPosition g s "ArrowUp" ctrlKey shiftKey
  = Position.mk (Position.idx (position (selectedPosition s)))
      (Position.rowIdx (position (selectedPosition s)) - 1).
Proof.
  unfold getNextPosition. cbn [String.eqb Ascii.eqb Bool.eqb andb].
  destruct (js_get (gridRows g) _) as [[row|groupRow]|]; reflexivity.
Qed.

Lemma getNextPosition_ArrowDown g s ctrlKey shiftKey :
  getNextPosition g s "ArrowDown" ctrlKey shiftKey
  = Position.mk (Position.idx (position (selectedPosition s)))
      (Position.rowIdx (position (selectedPosition s)) + 1).
Proof.
  unfold getNextPosition. cbn [String.eqb Ascii.eqb Bool.eqb andb].
  destruct (js_get (gridRows g) _) as [[row|groupRow]|]; reflexivity.
Qed.

(** An arrow key that would leave the grid through its first or last row
    changes nothing: the candidate cell is handed to [selectCell] as it is and
    rejected there. *)
Lemma arrow_past_edge_rejected g s event :
  cellNavigationMode g = NONE ∨ cellNavigationMode g = CHANGE_ROW →
  0 <= Position.idx (position (selectedPosition s)) < js_length (gridColumns g) →
  (ev_key event = "ArrowUp"%string ∧ Position.rowIdx (position (selectedPosition s)) = 0)
  ∨ (ev_key event = "ArrowDown"%string
     ∧ Position.rowIdx (position (selectedPosition s)) = js_length (gridRows g) - 1) →
  stateAfter s (navigate g s event) = s.
Proof.
  intros Hmode Hidx Hkey. unfold navigate.
  set (proceed := if isEditMode _ then _ else _).
  destruct proceed as [effects [[|]|e]] eqn:Hproceed.
  - assert (effects = []) as ->.
    { unfold proceed in Hproceed. destruct (isEditMode _); [|by inversion Hproceed].
      destruct (js_get (gridColumns g) _); by inversion Hproceed. }
    assert (Htab : String.eqb (ev_key event) "Tab" = false)
      by (destruct Hkey as [[-> _]|[-> _]]; reflexivity).
    cbn [bind negb]. rewrite Htab. cbn [andb].
    set (next := getNextSelectedCellPosition _ _ _ _).
    assert (Hnext : isCellWithinBounds g next = false).
    { apply not_true_is_false. rewrite isCellWithinBounds_spec. unfold next.
      destruct Hkey as [[-> Hrow]|[-> Hrow]];
        rewrite ?getNextPosition_ArrowUp, ?getNextPosition_ArrowDown;
        unfold getNextSelectedCellPosition; simpl;
        destruct (Z.eqb_spec (Position.idx (position (selectedPosition s)))
                    (js_length (gridColumns g))); try lia;
        destruct (Z.eqb_spec (Position.idx (position (selectedPosition s))) (-1)); try lia;
        destruct Hmode as [-> | ->]; simpl; lia. }
    rewrite selectCell_out_of_bounds by assumption. by destruct s.
  - assert (effects = []) as ->.
    { unfold proceed in Hproceed. destruct (isEditMode _); [|by inversion Hproceed].
      destruct (js_get (gridColumns g) _); by inversion Hproceed. }
    by destruct s.
  - assert (effects = []) as ->.
    { unfold proceed in Hproceed. destruct (isEditMode _); [|by inversion Hproceed].
      destruct (js_get (gridColumns g) _); by inversion Hproceed. }
    by destruct s.
Qed.

End MoreGridFacts.

Section Boundaries.
Context {R K : Type} `{EqDecision R} `{Countable K}.

(** C3.  [selectCell] at row index [-1] or [rowCount] is rejected: it has no
    effect and the state stays as it is, whatever the navigation mode; in the
    modes NONE and CHANGE_ROW such a candidate cell reaches [selectCell]
    unchanged, and an ArrowUp on the first row or ArrowDown on the last row
    leaves the state as it is.  In the mode LOOP_OVER_ROW the candidate that
    ArrowRight produces at the last column is mapped to column [0] of the same
    row; in the mode CHANGE_ROW the candidate past the last column of a row
    that is not the last is mapped to column [0] of the next row. *)
Theorem select_cell_boundaries (g : Grid R K) (s : State R) :
  let columnsCount := js_length (gridColumns g) in
  let rowsCount := js_length (gridRows g) in
  (∀ p enableEditor,
      Position.rowIdx p = -1 ∨ Position.rowIdx p = rowsCount →
      selectCell g s p enableEditor = ([], Returned tt)
      ∧ stateAfter s (selectCell g s p enableEditor) = s)
  ∧ (∀ mode p,
       mode = NONE ∨ mode = CHANGE_ROW →
       0 <= Position.idx p < columnsCount →
       Position.rowIdx p = -1 ∨ Position.rowIdx p = rowsCount →
       getNextSelectedCellPosition mode columnsCount rowsCount p = p)
  ∧ (∀ event,
       cellNavigationMode g = NONE ∨ cellNavigationMode g = CHANGE_ROW →
       0 <= Position.idx (position (selectedPosition s)) < columnsCount →
       (ev_key event = "ArrowUp"%string
        ∧ Position.rowIdx (position (selectedPosition s)) = 0)
       ∨ (ev_key event = "ArrowDown"%string
          ∧ Position.rowIdx (position (selectedPosition s)) = rowsCount - 1) →
       stateAfter s (navigate g s event) = s)
  ∧ (∀ ctrlKey shiftKey,
       Position.idx (position (selectedPosition s)) = columnsCount - 1 →
       getNextSelectedCellPosition LOOP_OVER_ROW columnsCount rowsCount
         (getNextPosition g s "ArrowRight" ctrlKey shiftKey)
       = Position.mk 0 (Position.rowIdx (position (selectedPosition s))))
  ∧ (∀ rowIdx,
       rowIdx ≠ rowsCount - 1 →
       getNextSelectedCellPosition CHANGE_ROW columnsCount rowsCount
         (Position.mk columnsCount rowIdx)
       = Position.mk 0 (rowIdx + 1)).
Proof.
  intros columnsCount rowsCount.
  assert (Hreject : ∀ p, Position.rowIdx p = -1 ∨ Position.rowIdx p = rowsCount →
                         isCellWithinBounds g p = false).
  { intros p Hrow. apply not_true_is_false.
    rewrite isCellWithinBounds_spec. fold rowsCount. lia. }
  split; [|split; [|split; [|split]]].
  - intros p enableEditor Hrow.
    rewrite selectCell_out_of_bounds by auto. split; [reflexivity|]. by destruct s.
  - intros mode [idx rowIdx] Hmode Hidx Hrow. simpl in *.
    unfold getNextSelectedCellPosition. simpl.
    destruct (Z.eqb_spec idx columnsCount); [lia|].
    destruct (Z.eqb_spec idx (-1)); [lia|].
    by destruct Hmode as [-> | ->].
  - intros event. apply arrow_past_edge_rejected.
  - intros ctrlKey shiftKey Hidx. rewrite getNextPosition_ArrowRight, Hidx.
    unfold getNextSelectedCellPosition. simpl.
    replace (columnsCount - 1 + 1) with columnsCount by lia.
    by rewrite Z.eqb_refl.
  - intros rowIdx Hrow. unfold getNextSelectedCellPosition. simpl.
    rewrite Z.eqb_refl. by destruct (Z.eqb_spec rowIdx (rowsCount - 1)).
Qed.

End Boundaries.

(** Scenario B: CHANGE_ROW, three columns and two rows, the cursor on the last
    cell of the first row; ArrowRight moves it to the first cell of the second
    row. *)
Example arrow_right_changes_row :
  let s := stateAt 2 0 SELECT None in
  selectedPosition (stateAfter s (handleKeyDown threeByTwoGrid s arrowRight))
  = {| position := Position.mk 0 1; mode := SELECT |}.
Proof. vm_compute. reflexivity. Qed.

(** Under grouping a selected row has [idx = -1], which
    [getNextSelectedCellPosition] reads as "before the first column": in
    CHANGE_ROW mode an ArrowDown from the selected last row hands [selectCell]
    not row [rowCount] but the last cell of the last row. *)
Example arrow_down_from_selected_last_row :
  let s := stateAt (-1) 4 SELECT None in
  js_length (gridRows groupedGrid) = 5
  ∧ getNextPosition groupedGrid s "ArrowDown" false false = Position.mk (-1) 5
  ∧ selectedPosition (stateAfter s (handleKeyDown groupedGrid s arrowDown))
    = {| position := Position.mk 1 4; mode := SELECT |}.
Proof. vm_compute. repeat split; reflexivity. Qed.

(** ** Editing, rendering and row selection *)

Section Editing.
Context {R K : Type} `{EqDecision R} `{Countable K}.
Implicit Types (g : Grid R K) (s : State R) (p : Position.t).

Lemma commitEditorChanges_proceeds g s key row originalRow :
  mode (selectedPosition s) = EDIT key row originalRow → row ≠ originalRow →
  editorDefined g (Position.idx (position (selectedPosition s))) = true →
  commitEditorChanges g s
  = (if onRowsChange g
     then [OnRowsChange
             (arraySet (spread (rawRows g))
                (getRawRowIdx g (Position.rowIdx (position (selectedPosition s)))) row)]
     else [], Returned tt).
Proof.
  intros Hmode Hrow Heditor. unfold commitEditorChanges, editorDefined in *.
  rewrite Hmode.
  destruct (js_get (gridColumns g) _) as [column|]; [|done].
  rewrite bool_decide_eq_false_2 by assumption.
  destruct (CalculatedColumn.editor column); [done| |]; simpl;
    by destruct (onRowsChange g).
Qed.

(** C7.  [commitEditorChanges] does nothing (no callback, no state update)
    in SELECT mode and when the staged row is the original row.  In EDIT mode
    with a staged row that is not the original, on a column that has an
    editor, it hands [onRowsChange] (when the caller supplied it) exactly one
    new array: the raw rows with the staged row written at the raw index of the
    edited row, every other entry as in [rawRows].  The raw index is the row
    index without groups, and with groups the index in [rawRows] of the row
    shown at the row index. *)
Theorem commit_editor_changes (g : Grid R K) (s : State R) :
  let sp := selectedPosition s in
  let rawIdx := getRawRowIdx g (Position.rowIdx (position sp)) in
  (mode sp = SELECT → commitEditorChanges g s = ([], Returned tt))
  ∧ (∀ key row, mode sp = EDIT key row row → commitEditorChanges g s = ([], Returned tt))
  ∧ (∀ key row originalRow,
       mode sp = EDIT key row originalRow → row ≠ originalRow →
       editorDefined g (Position.idx (position sp)) = true →
       let updatedRows := arraySet (spread (rawRows g)) rawIdx row in
       commitEditorChanges g s
       = (if onRowsChange g then [OnRowsChange updatedRows] else [], Returned tt)
       ∧ (0 <= rawIdx → arrayGet updatedRows rawIdx = Some row)
       ∧ (∀ j, j ≠ rawIdx → arrayGet updatedRows j = js_get (rawRows g) j))
  ∧ (hasGroups g = false → rawIdx = Position.rowIdx (position sp))
  ∧ (∀ shown,
       hasGroups g = true →
       js_get (gridRows g) (Position.rowIdx (position sp)) = Some (Row shown) →
       shown ∈ rawRows g → js_get (rawRows g) rawIdx = Some shown).
Proof.
  intros sp rawIdx.
  destruct (getRawRowIdx_spec g (Position.rowIdx (position sp))) as [Hplain Hgrouped].
  split; [|split; [|split; [|split; [exact Hplain|exact Hgrouped]]]].
  - unfold commitEditorChanges. fold sp. intros ->. reflexivity.
  - unfold commitEditorChanges. fold sp. intros key row ->.
    rewrite bool_decide_eq_true_2 by reflexivity. by rewrite orb_true_r.
  - intros key row originalRow Hmode Hrow Heditor updatedRows. split; [|split].
    + by apply (commitEditorChanges_proceeds g s key row originalRow).
    + intros Hidx. by apply arrayGet_arraySet_eq.
    + intros j Hj. unfold updatedRows.
      rewrite arrayGet_arraySet_ne by assumption. apply arrayGet_spread.
Qed.

End Editing.

(** A commit in the grouped grid: the staged row lands at raw index 1, where
    the edited row is in [rawRows], not at the row index 4 it is shown at. *)
Example commit_in_grouped_grid :
  getRawRowIdx groupedGrid 4 = 1
  ∧ commitEditorChanges groupedGrid editingSouthAmount
    = ([OnRowsChange [Some north1; Some south1'; Some north2]], Returned tt).
Proof. vm_compute. split; reflexivity. Qed.

Section RenderFacts.
Context {R K : Type} `{EqDecision R} `{Countable K}.
Implicit Types (g : Grid R K) (s : State R) (p : Position.t).

Lemma renderChecks_effects g s :
  effectsOf (renderChecks g s)
  = (if pastColumnsOrRows g (position (selectedPosition s))
     then [SetSelectedPosition (λ _, unselected); SetDraggedOverRowIdx None] else [])
    ++ (if isStaleEdit g (selectedPosition s)
        then [SetSelectedPosition (λ sp, {| position := position sp; mode := SELECT |})]
        else []).
Proof.
  unfold renderChecks, pastColumnsOrRows, isStaleEdit, closeEditor.
  destruct (_ || _); destruct (mode (selectedPosition s)) as [|key row originalRow];
    simpl; try reflexivity;
    destruct (js_get (gridRows g) _) as [[row'|groupRow]|]; simpl; try reflexivity;
    destruct (bool_decide (row' = originalRow)); reflexivity.
Qed.

(** The render checks call no callback. *)
Lemma renderChecks_rowsChanges g s : rowsChanges (renderChecks g s) = [].
Proof.
  unfold rowsChanges. rewrite renderChecks_effects.
  destruct (pastColumnsOrRows _ _), (isStaleEdit _ _); reflexivity.
Qed.

Lemma render_selectedPosition g s :
  selectedPosition (render g s)
  = if pastColumnsOrRows g (position (selectedPosition s)) then unselected
    else if isStaleEdit g (selectedPosition s)
         then {| position := position (selectedPosition s); mode := SELECT |}
         else selectedPosition s.
Proof.
  unfold render, stateAfter. rewrite renderChecks_effects.
  destruct (pastColumnsOrRows _ _), (isStaleEdit _ _); reflexivity.
Qed.

(** C4, amended.  If, while the selected position is in EDIT mode, the row at
    the edited row index is no longer the snapshotted original row, the render
    force-closes the editor: the mode returns to SELECT and no [onRowsChange]
    fires for the discarded edit.  The idx and rowIdx of the selected position
    are unchanged provided they are still below the column and row counts;
    otherwise the position is reset to the unselected one. *)
Theorem stale_edit_force_closed (g : Grid R K) (s : State R) key row originalRow :
  mode (selectedPosition s) = EDIT key row originalRow →
  isStaleEdit g (selectedPosition s) = true →
  mode (selectedPosition (render g s)) = SELECT
  ∧ rowsChanges (renderChecks g s) = []
  ∧ (pastColumnsOrRows g (position (selectedPosition s)) = false →
     position (selectedPosition (render g s)) = position (selectedPosition s))
  ∧ (pastColumnsOrRows g (position (selectedPosition s)) = true →
     selectedPosition (render g s) = unselected).
Proof.
  intros Hmode Hstale. rewrite render_selectedPosition, Hstale.
  split; [|split; [|split]].
  - by destruct (pastColumnsOrRows _ _).
  - apply renderChecks_rowsChanges.
  - intros ->. reflexivity.
  - intros ->. reflexivity.
Qed.

(** One pass of the checks settles the state. *)
Lemma render_idempotent g s :
  selectedPosition (render g (render g s)) = selectedPosition (render g s).
Proof.
  rewrite (render_selectedPosition g (render g s)), (render_selectedPosition g s).
  destruct (pastColumnsOrRows g (position (selectedPosition s))) eqn:Hpast.
  - unfold pastColumnsOrRows, unselected, js_length. simpl.
    destruct (Z.leb_spec (Z.of_nat (length (gridColumns g))) (-1)); [lia|].
    destruct (Z.leb_spec (Z.of_nat (length (gridRows g))) (-1)); [lia|]. reflexivity.
  - destruct (isStaleEdit g (selectedPosition s)) eqn:Hstale; simpl.
    + rewrite Hpast. reflexivity.
    + rewrite Hpast, Hstale. reflexivity.
Qed.

End RenderFacts.

Lemma stale_edit_force_closed_witness :
  mode (selectedPosition (render refreshedGrid editingFirstAmount)) = SELECT
  ∧ rowsChanges (renderChecks refreshedGrid editingFirstAmount) = []
  ∧ (pastColumnsOrRows refreshedGrid (position (selectedPosition editingFirstAmount)) = false →
     position (selectedPosition (render refreshedGrid editingFirstAmount))
     = position (selectedPosition editingFirstAmount))
  ∧ (pastColumnsOrRows refreshedGrid (position (selectedPosition editingFirstAmount)) = true →
     selectedPosition (render refreshedGrid editingFirstAmount) = unselected).
Proof.
  apply (stale_edit_force_closed refreshedGrid editingFirstAmount None north1 north1);
    vm_compute; reflexivity.
Defined.

(** C4 as stated fails: the editor is open on the cell [(1, 0)], the caller
    replaces the first row by a new object and drops the second column; the
    render closes the editor and resets the position to [(-1, -1)]. *)
Lemma stale_edit_position_reset :
  mode (selectedPosition editingFirstAmount) = EDIT None north1 north1
  ∧ js_get (gridRows narrowedGrid) 0 = Some (Row north1')
  ∧ north1' ≠ north1
  ∧ isStaleEdit narrowedGrid (selectedPosition editingFirstAmount) = true
  ∧ position (selectedPosition editingFirstAmount) = Position.mk 1 0
  ∧ position (selectedPosition (render narrowedGrid editingFirstAmount))
    = Position.mk (-1) (-1).
Proof. vm_compute. repeat split; (reflexivity || discriminate). Qed.

Section RowSelectionFacts.
Context {R K : Type} `{EqDecision R} `{Countable K}.
Implicit Types (g : Grid R K) (s : State R).

(** C9, amended.  Every row-selection operation (single-row toggle,
    shift-click range and group-row toggle through the [SelectRow] event, and
    select-all), when the caller supplied [onSelectedRowsChange] but no valid
    [rowKeyGetter], throws at once, before any other effect.  When the caller
    did not supply [onSelectedRowsChange], the operation does nothing and
    throws nothing, with or without a [rowKeyGetter]. *)
Theorem selection_without_key_getter (g : Grid R K) (s : State R) :
  (onSelectedRowsChange g = true → rowKeyGetter g = None →
     (∀ e, dispatchSelectRow g s e = ([], Threw (Error selectionErrorMessage)))
     ∧ (∀ checked,
          handleAllRowsSelectionChange g checked
          = ([], Threw (Error selectionErrorMessage))))
  ∧ (onSelectedRowsChange g = false →
       (∀ e, dispatchSelectRow g s e = ([], Returned tt))
       ∧ (∀ checked, handleAllRowsSelectionChange g checked = ([], Returned tt))).
Proof.
  unfold dispatchSelectRow, handleRowSelectionChange, handleAllRowsSelectionChange.
  split.
  - intros -> ->. split; reflexivity.
  - intros ->. split; reflexivity.
Qed.

End RowSelectionFacts.

(** The select column without a key getter and with the callback: a row
    toggle and select-all throw.  Without the callback they do nothing, without
    a key getter and with one. *)
Lemma selection_without_key_getter_witness :
  dispatchSelectRow (keylessGrid true) initialState selectFirstRow
  = ([], Threw (Error selectionErrorMessage))
  ∧ handleAllRowsSelectionChange (keylessGrid true) true
    = ([], Threw (Error selectionErrorMessage))
  ∧ dispatchSelectRow (keylessGrid false) initialState selectFirstRow = ([], Returned tt)
  ∧ handleAllRowsSelectionChange (keylessGrid false) true = ([], Returned tt)
  ∧ dispatchSelectRow keyedGridWithoutCallback initialState selectFirstRow
    = ([], Returned tt)
  ∧ handleAllRowsSelectionChange keyedGridWithoutCallback true = ([], Returned tt).
Proof.
  destruct (proj1 (selection_without_key_getter (keylessGrid true) initialState)
              eq_refl eq_refl) as [Hrow Hall].
  destruct (proj2 (selection_without_key_getter (keylessGrid false) initialState)
              eq_refl) as [Hrow' Hall'].
  destruct (proj2 (selection_without_key_getter keyedGridWithoutCallback initialState)
              eq_refl) as [Hrow'' Hall''].
  split; [apply Hrow|]. split; [apply Hall|]. split; [apply Hrow'|].
  split; [apply Hall'|]. split; [apply Hrow''|apply Hall''].
Defined.

(** C9 as stated fails: without [onSelectedRowsChange] and without a
    [rowKeyGetter], a row toggle and select-all return normally and do
    nothing. *)
Lemma selection_silent_without_callback :
  rowKeyGetter (keylessGrid false) = None
  ∧ dispatchSelectRow (keylessGrid false) initialState selectFirstRow = ([], Returned tt)
  ∧ handleAllRowsSelectionChange (keylessGrid false) true = ([], Returned tt).
Proof. repeat split; reflexivity. Qed.

(** ** The invariant of the selected position *)

Section Invariant.
Context {R K : Type} `{EqDecision R} `{Countable K}.
Implicit Types (g : Grid R K) (s : State R) (p : Position.t).

Lemma leavesPosition_keepsValid {A} g s (run : Run R K A) :
  leavesPosition run → keepsValid g s run.
Proof.
  unfold leavesPosition, keepsValid. intros Hrun Hvalid.
  rewrite selectedPosition_stateAfter, Hrun. exact Hvalid.
Qed.

Lemma leavesPosition_ret {A} (a : A) : leavesPosition (ret a : Run R K A).
Proof. reflexivity. Qed.

Lemma leavesPosition_throw {A} e : leavesPosition (throw e : Run R K A).
Proof. reflexivity. Qed.

Lemma leavesPosition_bind {A B} (m : Run R K A) (k : A → Run R K B) :
  leavesPosition m → (∀ a, leavesPosition (k a)) → leavesPosition (bind m k).
Proof.
  unfold leavesPosition. intros Hm Hk.
  rewrite effectsOf_bind, positionUpdates_app, Hm. simpl.
  destruct (outcomeOf m); [apply Hk|reflexivity].
Qed.

Lemma keepsValid_bind_l {A B} g s (m : Run R K A) (k : A → Run R K B) :
  leavesPosition m → (∀ a, keepsValid g s (k a)) → keepsValid g s (bind m k).
Proof.
  unfold leavesPosition, keepsValid. intros Hm Hk Hvalid.
  rewrite selectedPosition_stateAfter, effectsOf_bind, positionUpdates_app, Hm. simpl.
  destruct (outcomeOf m) as [a|e]; [|exact Hvalid].
  rewrite <- selectedPosition_stateAfter. by apply Hk.
Qed.

Lemma keepsValid_bind_r {A B} g s (m : Run R K A) (k : A → Run R K B) :
  keepsValid g s m → (∀ a, leavesPosition (k a)) → keepsValid g s (bind m k).
Proof.
  unfold leavesPosition, keepsValid. intros Hm Hk Hvalid.
  rewrite selectedPosition_stateAfter, effectsOf_bind, positionUpdates_app.
  replace (positionUpdates (if outcomeOf m is Returned a then effectsOf (k a) else []))
    with (@nil (SelectedPosition R → SelectedPosition R)).
  - rewrite app_nil_r, <- selectedPosition_stateAfter. by apply Hm.
  - destruct (outcomeOf m); [symmetry; apply Hk|reflexivity].
Qed.

Lemma leavesPosition_commitEditorChanges g s : leavesPosition (commitEditorChanges g s).
Proof.
  unfold commitEditorChanges.
  destruct (mode (selectedPosition s)); [reflexivity|].
  destruct (_ || _); [reflexivity|]. by destruct (onRowsChange g).
Qed.

Lemma leavesPosition_isCellEditable g p : leavesPosition (isCellEditable g p).
Proof.
  unfold isCellEditable, isSelectedCellEditable.
  destruct (isCellWithinBounds g p); [|reflexivity].
  by destruct (js_get (gridColumns g) _).
Qed.

(** In EDIT mode a valid position is a cell of the grid. *)
Lemma positionValid_edit g (sp : SelectedPosition R) :
  positionValid g sp = true → isEditMode (mode sp) = true →
  isCellWithinBounds g (position sp) = true.
Proof.
  unfold positionValid, isUnselected. intros Hvalid Hedit.
  rewrite Hedit, andb_false_r in Hvalid. exact Hvalid.
Qed.

Lemma positionValid_within g (sp : SelectedPosition R) :
  isCellWithinBounds g (position sp) = true → positionValid g sp = true.
Proof. unfold positionValid. intros ->. apply orb_true_r. Qed.

Lemma keepsValid_closeEditor g s : keepsValid g s (closeEditor s).
Proof.
  unfold closeEditor, keepsValid.
  destruct (mode (selectedPosition s)) eqn:Hmode; [auto|].
  intros Hvalid. apply positionValid_within. simpl.
  apply positionValid_edit; [assumption|]. by rewrite Hmode.
Qed.

Lemma keepsValid_selectCell g s p enableEditor :
  keepsValid g s (selectCell g s p enableEditor).
Proof.
  unfold selectCell.
  destruct (isCellWithinBounds g p) eqn:Hp; simpl;
    [|apply leavesPosition_keepsValid; reflexivity].
  apply keepsValid_bind_l; [apply leavesPosition_commitEditorChanges|]. intros _.
  apply keepsValid_bind_l.
  { destruct enableEditor; [apply leavesPosition_isCellEditable|reflexivity]. }
  intros editable. apply keepsValid_bind_r.
  - assert (Hset : ∀ m, keepsValid g s
        (emit (SetSelectedPosition (λ _, {| position := p; mode := m |})) : Run R K unit)).
    { intros m _. unfold positionValid. simpl. rewrite Hp. apply orb_true_r. }
    destruct editable; [|apply Hset].
    destruct (js_get (gridRows g) _) as [[row|groupRow]|]; apply Hset.
  - intros _. by destruct (onSelectedCellChange g).
Qed.


Lemma keepsValid_emit_keep g s (update : SelectedPosition R → SelectedPosition R) :
  isCellWithinBounds g (position (selectedPosition s)) = true →
  (∀ sp, position (update sp) = position sp) →
  keepsValid g s (emit (SetSelectedPosition update) : Run R K unit).
Proof.
  intros Hin Hkeep _. apply positionValid_within. simpl. by rewrite Hkeep.
Qed.

Lemma keepsValid_handleCellInput g s event : keepsValid g s (handleCellInput g s event).
Proof.
  unfold handleCellInput.
  destruct (isCellWithinBounds g (position (selectedPosition s))) eqn:Hin; simpl;
    [|apply leavesPosition_keepsValid; reflexivity].
  destruct (js_get (gridRows g) _) as [[row|groupRow]|];
    try (apply leavesPosition_keepsValid; reflexivity).
  destruct (mode (selectedPosition s)) eqn:Hmode.
  - destruct (js_get (gridColumns g) _) as [column|];
      [|apply leavesPosition_keepsValid; reflexivity].
    match goal with |- keepsValid _ _ (if ?b then _ else _) => destruct b end;
      [apply leavesPosition_keepsValid; reflexivity|].
    apply keepsValid_bind_l; [apply leavesPosition_isCellEditable|]. intros editable.
    destruct (editable && _); [|apply leavesPosition_keepsValid; reflexivity].
    by apply keepsValid_emit_keep.
  - destruct (String.eqb _ _); [|apply leavesPosition_keepsValid; reflexivity].
    apply keepsValid_bind_l; [apply leavesPosition_commitEditorChanges|]. intros _.
    apply keepsValid_closeEditor.
Qed.

Lemma keepsValid_navigate g s event : keepsValid g s (navigate g s event).
Proof.
  unfold navigate. apply keepsValid_bind_l.
  { destruct (isEditMode _); [|reflexivity].
    by destruct (js_get (gridColumns g) _). }
  intros proceed. destruct proceed; cbn [negb];
    [|apply leavesPosition_keepsValid; reflexivity].
  destruct (_ && canExitGrid _ _ _ _ _);
    [apply leavesPosition_keepsValid; reflexivity|].
  apply keepsValid_bind_l; [reflexivity|]. intros _. apply keepsValid_selectCell.
Qed.

Lemma leavesPosition_handleCopy g s : leavesPosition (handleCopy g s).
Proof. unfold handleCopy. by destruct (js_get (gridColumns g) _). Qed.

Lemma leavesPosition_handlePaste g s : leavesPosition (handlePaste g s).
Proof.
  unfold handlePaste. destruct (onPaste g); [|reflexivity].
  destruct (negb (onRowsChange g)); [reflexivity|].
  destruct (copiedCell s); [|reflexivity].
  apply leavesPosition_bind; [apply leavesPosition_isCellEditable|]. intros editable.
  destruct (negb editable); [reflexivity|].
  by destruct (js_get (gridColumns g) _).
Qed.

Lemma leavesPosition_toggleGroup g groupId : leavesPosition (toggleGroup g groupId).
Proof. unfold toggleGroup. by destruct (onExpandedGroupIdsChange g). Qed.

Lemma keepsValid_handleKeyDown g s event : keepsValid g s (handleKeyDown g s event).
Proof.
  unfold handleKeyDown.
  match goal with |- keepsValid _ _ (if ?b then _ else _) => destruct b end;
    [apply leavesPosition_keepsValid, leavesPosition_handleCopy|].
  match goal with |- keepsValid _ _ (if ?b then _ else _) => destruct b end;
    [apply leavesPosition_keepsValid, leavesPosition_handlePaste|].
  match goal with |- keepsValid _ _ (match ?t with Some _ => _ | None => _ end) =>
    destruct t as [groupId|] end.
  - apply leavesPosition_keepsValid, leavesPosition_bind; [reflexivity|].
    intros _. apply leavesPosition_toggleGroup.
  - destruct (String.eqb _ _).
    + apply keepsValid_bind_l; [reflexivity|]. intros _. apply keepsValid_closeEditor.
    + destruct (includes _ _); [apply keepsValid_navigate|apply keepsValid_handleCellInput].
Qed.

Lemma keepsValid_handleRowChange g s row commitChanges :
  keepsValid g s (handleRowChange g s row commitChanges).
Proof.
  unfold handleRowChange.
  destruct (mode (selectedPosition s)) eqn:Hmode;
    [apply leavesPosition_keepsValid; reflexivity|].
  destruct commitChanges.
  - apply keepsValid_bind_l; [by destruct (onRowsChange g)|]. intros _.
    apply keepsValid_closeEditor.
  - intros Hvalid. apply keepsValid_emit_keep; [|reflexivity|assumption].
    apply positionValid_edit; [assumption|]. by rewrite Hmode.
Qed.

Lemma keepsValid_handleOnClose g s commitChanges :
  keepsValid g s (handleOnClose g s commitChanges).
Proof.
  unfold handleOnClose. apply keepsValid_bind_l; [|intros _; apply keepsValid_closeEditor].
  destruct commitChanges; [apply leavesPosition_commitEditorChanges|reflexivity].
Qed.

Lemma leavesPosition_assertIsValidKeyGetter keyGetter :
  leavesPosition (assertIsValidKeyGetter keyGetter : Run R K _).
Proof. by destruct keyGetter. Qed.

Lemma leavesPosition_dispatchSelectRow g s e : leavesPosition (dispatchSelectRow g s e).
Proof.
  unfold dispatchSelectRow, handleRowSelectionChange.
  destruct (negb (onSelectedRowsChange g)); [reflexivity|].
  apply leavesPosition_bind; [apply leavesPosition_assertIsValidKeyGetter|].
  intros keyGetter. destruct (js_get (gridRows g) _) as [[row|groupRow]|];
    try reflexivity; by destruct (sr_checked e).
Qed.

Lemma leavesPosition_handleAllRowsSelectionChange g checked :
  leavesPosition (handleAllRowsSelectionChange g checked).
Proof.
  unfold handleAllRowsSelectionChange.
  destruct (negb (onSelectedRowsChange g)); [reflexivity|].
  apply leavesPosition_bind; [apply leavesPosition_assertIsValidKeyGetter|].
  reflexivity.
Qed.

(** Every operation keeps the selected position valid. *)
Lemma keepsValid_runOperation g s op : keepsValid g s (runOperation g s op).
Proof.
  destruct op; simpl.
  - apply keepsValid_selectCell.
  - apply keepsValid_handleKeyDown.
  - apply keepsValid_handleRowChange.
  - apply keepsValid_handleOnClose.
  - apply leavesPosition_keepsValid, leavesPosition_dispatchSelectRow.
  - apply leavesPosition_keepsValid, leavesPosition_handleAllRowsSelectionChange.
Qed.

(** A render with other props: valid for the old grid, the position is valid
    for the new one as long as the new grid allows the column index [-1]
    whenever the old one did. *)
Lemma positionValid_render g g' s :
  positionValid g (selectedPosition s) = true →
  minColIdx g' <= minColIdx g →
  positionValid g' (selectedPosition (render g' s)) = true.
Proof.
  intros Hvalid Hmin. rewrite render_selectedPosition.
  destruct (pastColumnsOrRows g' (position (selectedPosition s))) eqn:Hpast;
    [reflexivity|].
  unfold pastColumnsOrRows in Hpast. apply orb_false_iff in Hpast as [Hc Hr].
  apply Z.leb_gt in Hc, Hr.
  unfold positionValid in Hvalid. apply orb_true_iff in Hvalid as [Hun|Hin].
  - assert (Hmode : isStaleEdit g' (selectedPosition s) = false).
    { unfold isUnselected in Hun. unfold isStaleEdit.
      destruct (mode (selectedPosition s)); [reflexivity|].
      by rewrite andb_false_r in Hun. }
    rewrite Hmode. unfold positionValid. by rewrite Hun.
  - apply isCellWithinBounds_spec in Hin.
    assert (Hin' : isCellWithinBounds g' (position (selectedPosition s)) = true)
      by (apply isCellWithinBounds_spec; lia).
    destruct (isStaleEdit g' (selectedPosition s)); by apply positionValid_within.
Qed.

(** Every reachable state has a valid selected position, as long as no new
    props switch grouping off. *)
Lemma reachable_valid g s :
  Reachable keepsGrouping g s → positionValid g (selectedPosition s) = true.
Proof.
  induction 1 as [g|g s op _ IH|g g' s _ IH Hgroups].
  - reflexivity.
  - unfold step. apply (positionValid_render g g); [|lia].
    by apply keepsValid_runOperation.
  - apply (positionValid_render g g'); [assumption|].
    unfold keepsGrouping, minColIdx in *.
    destruct (hasGroups g); [rewrite Hgroups by reflexivity; lia|].
    destruct (hasGroups g'); lia.
Qed.

(** Where the code keeps the invariant.  The selected position is the
    unselected one or within bounds ([rowIdx] in [0 .. rows.length - 1], [idx]
    in [minColIdx .. columns.length - 1] with [minColIdx = -1] under grouping
    and [0] otherwise) in every state the grid reaches by its operations and by
    renders with new props that do not switch grouping off; every operation
    keeps it so; [selectCell] rejects a target out of bounds without any
    effect; and a render that finds the position at or past the column or row
    count resets it to the unselected one. *)
Theorem selected_position_invariant (g : Grid R K) :
  (∀ s, Reachable keepsGrouping g s → positionValid g (selectedPosition s) = true)
  ∧ (∀ s op,
       positionValid g (selectedPosition s) = true →
       positionValid g (selectedPosition (stateAfter s (runOperation g s op))) = true)
  ∧ (∀ s p enableEditor,
       isCellWithinBounds g p = false →
       selectCell g s p enableEditor = ([], Returned tt))
  ∧ (∀ s,
       pastColumnsOrRows g (position (selectedPosition s)) = true →
       selectedPosition (render g s) = unselected).
Proof.
  split; [|split; [|split]].
  - intros s. apply reachable_valid.
  - intros s op. apply keepsValid_runOperation.
  - intros s p enableEditor. apply selectCell_out_of_bounds.
  - intros s Hpast. by rewrite render_selectedPosition, Hpast.
Qed.

End Invariant.

(** C10.  In the code the invariant fails when grouping is switched off: a
    click on a group row selects the whole row ([idx = -1]); when the caller
    then stops grouping, the render check, which tests the position against
    the column and row counts only, keeps that position, although it is
    outside the bounds of the ungrouped grid ([minColIdx = 0]), where
    [isCellWithinBounds] and with it [selectCell] refuse it; further renders
    keep it too. *)
Theorem position_invalid_after_ungrouping :
  Reachable (λ _ _, True) plainGrid (render plainGrid groupRowSelected)
  ∧ selectedPosition (render plainGrid groupRowSelected)
    = {| position := Position.mk (-1) 0; mode := SELECT |}
  ∧ positionValid plainGrid (selectedPosition (render plainGrid groupRowSelected)) = false
  ∧ isCellWithinBounds plainGrid (Position.mk (-1) 0) = false
  ∧ selectCell plainGrid (render plainGrid groupRowSelected) (Position.mk (-1) 0) false
    = ([], Returned tt)
  ∧ selectedPosition (render plainGrid (render plainGrid groupRowSelected))
    = {| position := Position.mk (-1) 0; mode := SELECT |}.
Proof.
  split; [|repeat split; vm_compute; reflexivity].
  apply (reach_props _ groupedGrid); [|exact I].
  apply reach_operation, reach_initial.
Qed.

(** ** Paste *)

Section Paste.
Context {R K : Type} `{EqDecision R} `{Countable K}.
Implicit Types (g : Grid R K) (s : State R).

(** Paste does nothing without a copied cell or on a cell that is not
    editable. *)
Lemma handlePaste_noop g s :
  copiedCell s = None
  ∨ isCellEditable g (position (selectedPosition s)) = ([], Returned false) →
  handlePaste g s = ([], Returned tt).
Proof.
  unfold handlePaste. intros [Hcopied|Heditable].
  - rewrite Hcopied. destruct (onPaste g); [|reflexivity].
    by destruct (negb (onRowsChange g)).
  - rewrite Heditable. destruct (onPaste g); [|reflexivity].
    destruct (negb (onRowsChange g)); [reflexivity|].
    by destruct (copiedCell s).
Qed.

(** Without groups a paste hands [onRowsChange] the raw rows with the entry
    of the target row replaced by what [onPaste] made of that row, once. *)
Lemma handlePaste_without_groups g s paste copied column :
  hasGroups g = false → onPaste g = Some paste → onRowsChange g = true →
  copiedCell s = Some copied →
  isCellEditable g (position (selectedPosition s)) = ([], Returned true) →
  js_get (gridColumns g) (Position.idx (position (selectedPosition s))) = Some column →
  let rowIdx := Position.rowIdx (position (selectedPosition s)) in
  handlePaste g s
  = ([OnRowsChange
        (arraySet (spread (rawRows g)) rowIdx
           (paste {| sourceRow := copiedRow copied;
                     sourceColumnKey := copiedColumnKey copied;
                     targetRow := js_get (rawRows g) rowIdx;
                     targetColumnKey := CalculatedColumn.key column |}))],
     Returned tt).
Proof.
  intros Hgroups Hpaste Hchange Hcopied Heditable Hcolumn rowIdx.
  unfold handlePaste, getRawRowIdx.
  rewrite Hgroups, Hpaste, Hchange, Hcopied, Heditable, Hcolumn. reflexivity.
Qed.

End Paste.

(** C5.  The cursor is on the amount of [north1], shown at row 1 of the
    grouped grid and at raw index 0; a cell of [north2] was copied.  Ctrl+V
    calls [onRowsChange] once, with an array in which the target row [north1]
    is untouched and the row at raw index 1, [south1], is replaced by the
    merged row: the write goes to the row index, not to the raw index the
    target row was read at.  Without groups the same paste replaces the
    target row. *)
Theorem paste_in_grouped_grid_misses_target :
  js_get (gridRows groupedGrid) 1 = Some (Row north1)
  ∧ rawRows groupedGrid = [north1; south1; north2]
  ∧ getRawRowIdx groupedGrid 1 = 0
  ∧ rowsChanges (handleKeyDown groupedGrid (stateAt 1 1 SELECT copiedNorth2) ctrlV)
    = [[Some north1; Some pasted; Some north2]]
  ∧ rowsChanges (handleKeyDown plainGrid (stateAt 1 0 SELECT copiedNorth2) ctrlV)
    = [[Some pasted; Some south1; Some north2]].
Proof. vm_compute. repeat split; reflexivity. Qed.

(** ** The shift-click loop *)

Section SelectRange.
Context {R K : Type} `{EqDecision R} `{Countable K}.

(** The fuel of the shift-click loop is enough: with a step of [1] or [-1]
    towards [rowIdx], the loop ends by reaching [rowIdx], and more fuel
    changes nothing. *)
Lemma selectRange_fuel (rows : list (ViewRow R)) (rowKeyGetter : option R → K)
    (fuel extra : nat) (i step rowIdx : Z) (selected : gset K) :
  (step = 1 ∨ step = -1) → 0 <= (rowIdx - i) * step →
  Z.abs (rowIdx - i) <= Z.of_nat fuel →
  selectRange rows rowKeyGetter (fuel + extra) i step rowIdx selected
  = selectRange rows rowKeyGetter fuel i step rowIdx selected.
Proof.
  intros Hstep. revert i selected.
  induction fuel as [|fuel IH]; intros i selected Hdir Hdist.
  - assert (i = rowIdx) as -> by lia. simpl.
    destruct extra; simpl; [reflexivity|]. by rewrite Z.eqb_refl.
  - simpl. destruct (Z.eqb_spec i rowIdx); [reflexivity|].
    apply IH; destruct Hstep as [-> | ->]; lia.
Qed.

End SelectRange.

(** * Further properties of the code *)

(** ** Column metrics: what every calculated column carries *)

Section SortPermutation.
Context {A : Type} (compareFn : A → A → Z).

Lemma insertSorted_Permutation x l : insertSorted compareFn x l ≡ₚ x :: l.
Proof.
  induction l as [|y l IH]; simpl; [reflexivity|].
  destruct (compareFn x y <=? 0); [reflexivity|].
  rewrite IH. apply Permutation_swap.
Qed.

Lemma sort_Permutation l : sort compareFn l ≡ₚ l.
Proof.
  induction l as [|x l IH]; simpl; [reflexivity|].
  rewrite insertSorted_Permutation. by rewrite IH.
Qed.

End SortPermutation.

Section CalculatedColumns.
Context {R : Type}.
Implicit Types (m : Metrics R) (a : MappedColumn.t R) (c : CalculatedColumn.t R).

Lemma calculated_foldl_made m w st (l : list (MappedColumn.t R)) :
  ∃ cs,
    calculated (foldl (calculateColumn m w) st l) = calculated st ++ cs
    ∧ Forall2 (madeOf m w) l cs
    ∧ ∀ (i : nat) c, cs !! i = Some c →
        CalculatedColumn.idx c = js_length (calculated st) + Z.of_nat i.
Proof.
  revert st. induction l as [|a l IH]; intros st; simpl.
  - exists []. rewrite app_nil_r. repeat split; [constructor|done].
  - destruct (IH (calculateColumn m w st a)) as (cs & Hcs & Hmade & Hidx).
    simpl in Hcs. rewrite <- app_assoc in Hcs. simpl in Hcs.
    eexists. split; [exact Hcs|]. split.
    + constructor; [|exact Hmade]. unfold madeOf. simpl.
      by destruct (MappedColumn.width a).
    + intros [|i] c Hc; simpl in Hc.
      * injection Hc as <-. simpl. lia.
      * apply Hidx in Hc. rewrite Hc. simpl. unfold js_length.
        rewrite length_app. simpl. lia.
Qed.

Lemma madeOf_setLastFrozen m w a c :
  madeOf m w a c → madeOf m w a (CalculatedColumn.setLastFrozen c).
Proof. unfold madeOf. by destruct c. Qed.

(** The calculated columns are made of the sorted columns, one for one, and
    each carries its place as [idx]. *)
Lemma columns_made m :
  Forall2 (madeOf m (unallocatedColumnWidthOf m (firstPass m))) (sortedColumns m)
    (columns (getColumnMetrics m))
  ∧ ∀ (i : nat) c, columns (getColumnMetrics m) !! i = Some c →
      CalculatedColumn.idx c = Z.of_nat i.
Proof.
  destruct (calculated_foldl_made m (unallocatedColumnWidthOf m (firstPass m))
              {| leftAcc := 0; totalWidth := 0; groupByAcc := []; calculated := [] |}
              (sortedColumns m)) as (cs & Hcs & Hmade & Hidx).
  simpl in Hcs, Hidx.
  unfold getColumnMetrics, secondPass.
  destruct (lastFrozenAcc (firstPass m) =? -1); simpl; rewrite Hcs.
  - split; [exact Hmade|]. intros i c Hc. apply Hidx in Hc. unfold js_length in Hc.
    simpl in Hc. lia.
  - split.
    + apply Forall2_alter_r; [exact Hmade|]. intros a c _ _. apply madeOf_setLastFrozen.
    + intros i c Hc. rewrite list_lookup_alter in Hc.
      destruct (decide (Z.to_nat (lastFrozenAcc (firstPass m)) = i)) as [<-|Hne].
      * destruct (cs !! Z.to_nat (lastFrozenAcc (firstPass m))) as [c'|] eqn:Hc';
          [|done]. simpl in Hc. injection Hc as <-.
        apply Hidx in Hc'. unfold js_length in Hc'. simpl in Hc'. destruct c'; simpl in *; lia.
      * apply Hidx in Hc. unfold js_length in Hc. simpl in Hc. lia.
Qed.

Lemma sortedColumns_Permutation m :
  sortedColumns m ≡ₚ map (toMapped m) (rawColumns m).
Proof. unfold sortedColumns. rewrite sort_Permutation. by rewrite mapped_firstPass. Qed.

Lemma madeOf_toMapped m (raw : Column.t R) c :
  madeOf m (unallocatedColumnWidthOf m (firstPass m)) (toMapped m raw) c →
  CalculatedColumn.column c = raw
  ∧ CalculatedColumn.width c = finalWidth m raw
  ∧ CalculatedColumn.frozen c
    = (groupByIncludes (rawGroupBy m) (Column.key raw) || Column.frozen raw)
  ∧ CalculatedColumn.rowGroup c = groupByIncludes (rawGroupBy m) (Column.key raw).
Proof.
  unfold madeOf, toMapped, finalWidth. simpl. intros (Hcol & Hw & Hf & Hg).
  split; [exact Hcol|]. split; [|split; [|exact Hg]].
  - rewrite Hw. by destruct (getSpecifiedWidth raw (columnWidths m) (viewportWidth m)).
  - rewrite Hf. by destruct (groupByIncludes (rawGroupBy m) (Column.key raw)).
Qed.

(** Each calculated column, told by the raw column it was made from. *)
Lemma columns_from_raw m c :
  c ∈ columns (getColumnMetrics m) →
  CalculatedColumn.column c ∈ rawColumns m
  ∧ CalculatedColumn.width c = finalWidth m (CalculatedColumn.column c)
  ∧ CalculatedColumn.frozen c
    = (groupByIncludes (rawGroupBy m) (CalculatedColumn.key c)
       || Column.frozen (CalculatedColumn.column c))
  ∧ CalculatedColumn.rowGroup c = groupByIncludes (rawGroupBy m) (CalculatedColumn.key c).
Proof.
  intros Hc. destruct (columns_made m) as [Hmade _].
  apply list_elem_of_lookup in Hc as [i Hc].
  destruct (Forall2_lookup_r _ _ _ _ _ Hmade Hc) as (a & Ha & Hac).
  apply list_elem_of_lookup_2 in Ha. rewrite sortedColumns_Permutation in Ha.
  apply list_elem_of_fmap in Ha as (raw & -> & Hraw).
  apply madeOf_toMapped in Hac as (Hcol & Hw & Hf & Hg).
  unfold CalculatedColumn.key. rewrite Hcol. auto.
Qed.

Lemma columns_Permutation m :
  map CalculatedColumn.column (columns (getColumnMetrics m)) ≡ₚ rawColumns m.
Proof. rewrite columns_of_sorted, sortedColumns_Permutation. by rewrite column_toMapped. Qed.

Lemma length_columns m : length (columns (getColumnMetrics m)) = length (rawColumns m).
Proof.
  pose proof (Permutation_length (columns_Permutation m)) as Hlen.
  by rewrite length_map in Hlen.
Qed.

(** X1.  The calculated columns are the raw columns rearranged: as many as
    were passed in, none lost and none repeated, and the [idx] of each is its
    place in the returned list. *)
Theorem calculated_columns_rearranged (m : Metrics R) :
  let r := getColumnMetrics m in
  length (columns r) = length (rawColumns m)
  ∧ map CalculatedColumn.column (columns r) ≡ₚ rawColumns m
  ∧ ∀ (i : nat) c, columns r !! i = Some c → CalculatedColumn.idx c = Z.of_nat i.
Proof.
  cbv zeta. destruct (columns_made m) as [_ Hidx].
  split; [apply length_columns|]. split; [apply columns_Permutation|exact Hidx].
Qed.

Lemma clampColumnWidth_bounds (w : Z) (minWidth maxWidth : option Z) (minColumnWidth : Z) :
  let least := default minColumnWidth minWidth in
  match maxWidth with
  | Some most =>
      clampColumnWidth w minWidth maxWidth minColumnWidth <= most
      ∧ (least <= most → least <= clampColumnWidth w minWidth maxWidth minColumnWidth)
  | None => least <= clampColumnWidth w minWidth maxWidth minColumnWidth
  end.
Proof. unfold clampColumnWidth. destruct maxWidth; simpl; lia. Qed.

(** X2.  Whatever width a column asks for (a number, a percentage, a resize
    override or none), the width it gets is never above its [maxWidth], and
    never below its [minWidth] (the grid's minimum column width when it has
    none) unless [maxWidth] itself is below that. *)
Theorem calculated_width_within_limits (m : Metrics R) :
  Forall
    (λ c,
       let raw := CalculatedColumn.column c in
       let least := default (minColumnWidth m) (Column.minWidth raw) in
       match Column.maxWidth raw with
       | Some most =>
           CalculatedColumn.width c <= most
           ∧ (least <= most → least <= CalculatedColumn.width c)
       | None => least <= CalculatedColumn.width c
       end)
    (columns (getColumnMetrics m)).
Proof.
  apply Forall_forall. intros c Hc.
  apply columns_from_raw in Hc as (_ & -> & _). unfold finalWidth.
  apply clampColumnWidth_bounds.
Qed.

End CalculatedColumns.

Section GroupByAndFrozen.
Context {R : Type}.
Implicit Types (m : Metrics R) (a : MappedColumn.t R) (c : CalculatedColumn.t R).

Lemma groupByAcc_foldl m w st (l : list (MappedColumn.t R)) :
  groupByAcc (foldl (calculateColumn m w) st l)
  = groupByAcc st ++ map MappedColumn.key (List.filter MappedColumn.rowGroup l).
Proof.
  revert st. induction l as [|a l IH]; intros st; simpl.
  - by rewrite app_nil_r.
  - rewrite IH. simpl. destruct (MappedColumn.rowGroup a); simpl; [|reflexivity].
    by rewrite <- app_assoc.
Qed.

Lemma groupBy_of_sorted m :
  groupBy (getColumnMetrics m)
  = map MappedColumn.key (List.filter MappedColumn.rowGroup (sortedColumns m)).
Proof.
  unfold getColumnMetrics, secondPass.
  destruct (lastFrozenAcc (firstPass m) =? -1); simpl; by rewrite groupByAcc_foldl.
Qed.

Lemma made_rowGroup_keys m w (l : list (MappedColumn.t R)) (cs : list (CalculatedColumn.t R)) :
  Forall2 (madeOf m w) l cs →
  map CalculatedColumn.key (List.filter CalculatedColumn.rowGroup cs)
  = map MappedColumn.key (List.filter MappedColumn.rowGroup l).
Proof.
  induction 1 as [|a c l cs (Hcol & _ & _ & Hg) _ IH]; simpl; [reflexivity|].
  rewrite Hg. destruct (MappedColumn.rowGroup a); simpl; [|exact IH].
  f_equal; [|exact IH]. unfold CalculatedColumn.key, MappedColumn.key. by rewrite Hcol.
Qed.

(** X3.  The returned [groupBy] lists the keys of the row-group columns in
    the order of the calculated columns; a key is in it exactly when it is in
    the group-by list that was passed in and names a column. *)
Theorem group_by_names_columns (m : Metrics R) :
  let r := getColumnMetrics m in
  groupBy r = map CalculatedColumn.key (List.filter CalculatedColumn.rowGroup (columns r))
  ∧ ∀ k, k ∈ groupBy r
         ↔ k ∈ default [] (rawGroupBy m) ∧ ∃ raw, raw ∈ rawColumns m ∧ Column.key raw = k.
Proof.
  cbv zeta. destruct (columns_made m) as [Hmade _]. split.
  - rewrite groupBy_of_sorted. symmetry. eapply made_rowGroup_keys, Hmade.
  - intros k. rewrite groupBy_of_sorted, list_elem_of_fmap. split.
    + intros (a & -> & Ha). apply elem_of_filter_bool in Ha as [Ha Hg].
      rewrite sortedColumns_Permutation in Ha.
      apply list_elem_of_fmap in Ha as (raw & -> & Hraw).
      unfold toMapped, MappedColumn.key in *. simpl in *.
      rewrite groupByIncludes_default in Hg. apply includes_elem in Hg. eauto.
    + intros (Hk & raw & Hraw & <-). exists (toMapped m raw). split; [reflexivity|].
      apply elem_of_filter_bool. split.
      * rewrite sortedColumns_Permutation. apply list_elem_of_fmap. eauto.
      * unfold toMapped. simpl. rewrite groupByIncludes_default. by apply includes_elem.
Qed.

Lemma lastFrozenAcc_foldl m st (l : list (Column.t R)) :
  lastFrozenAcc (foldl (mapColumn m) st l)
  = lastFrozenAcc st
    + js_length (List.filter MappedColumn.frozen (map (toMapped m) l)).
Proof.
  revert st. induction l as [|c l IH]; intros st; simpl.
  - unfold js_length. simpl. lia.
  - rewrite IH. unfold mapColumn, toMapped, js_length.
    destruct (getSpecifiedWidth c (columnWidths m) (viewportWidth m)); simpl;
      destruct (if groupByIncludes _ _ then true else Column.frozen c); simpl; lia.
Qed.

Lemma filter_Permutation {A : Type} (P : A → bool) (l l' : list A) :
  l ≡ₚ l' → List.filter P l ≡ₚ List.filter P l'.
Proof.
  induction 1 as [|x l l' _ IH|x y l|l1 l2 l3 _ IH1 _ IH2]; simpl.
  - reflexivity.
  - destruct (P x); [by rewrite IH|exact IH].
  - destruct (P x), (P y); try reflexivity. apply Permutation_swap.
  - by rewrite IH1.
Qed.

(** The number of frozen columns, counted by the first pass. *)
Lemma lastFrozen_counts m :
  lastFrozenColumnIndex (getColumnMetrics m)
  = js_length (List.filter MappedColumn.frozen (sortedColumns m)) - 1.
Proof.
  assert (lastFrozenColumnIndex (getColumnMetrics m) = lastFrozenAcc (firstPass m)) as ->.
  { unfold getColumnMetrics. by destruct (lastFrozenAcc (firstPass m) =? -1). }
  unfold firstPass. rewrite lastFrozenAcc_foldl. simpl. unfold js_length.
  rewrite (Permutation_length
             (filter_Permutation MappedColumn.frozen _ _ (sortedColumns_Permutation m))).
  lia.
Qed.

Lemma filter_all {A : Type} (P : A → bool) (l : list A) :
  (∀ x, x ∈ l → P x = true) → List.filter P l = l.
Proof.
  induction l as [|x l IH]; intros Hall; simpl; [reflexivity|].
  rewrite (Hall x) by left. f_equal. apply IH. intros y Hy. apply Hall. by right.
Qed.

Lemma filter_none {A : Type} (P : A → bool) (l : list A) :
  (∀ x, x ∈ l → P x = false) → List.filter P l = [].
Proof.
  induction l as [|x l IH]; intros Hall; simpl; [reflexivity|].
  rewrite (Hall x) by left. apply IH. intros y Hy. apply Hall. by right.
Qed.

(** With the select columns frozen, the sorted columns are the frozen ones,
    then the others. *)
Lemma sortedColumns_frozen_first m :
  (∀ raw, raw ∈ rawColumns m → isSelectColumn raw = true → Column.frozen raw = true) →
  ∃ front back,
    sortedColumns m = front ++ back
    ∧ (∀ a, a ∈ front → MappedColumn.frozen a = true)
    ∧ (∀ a, a ∈ back → MappedColumn.frozen a = false).
Proof.
  intros Hselect. pose proof (sortedColumns_blocks m) as Hblocks. cbv zeta in Hblocks.
  rewrite mapped_firstPass in Hblocks.
  match type of Hblocks with
  | _ = ?sel ++ ?grp ++ ?frz ++ ?rest => exists (sel ++ grp ++ frz), rest
  end.
  split; [rewrite Hblocks; by rewrite <- !app_assoc|]. split.
  - intros a Ha. rewrite !elem_of_app in Ha. destruct Ha as [Ha|[Ha|Ha]].
    + apply elem_of_sort, elem_of_filter_bool in Ha as [Ha Hsel].
      apply list_elem_of_fmap in Ha as (raw & -> & Hraw).
      unfold toMapped. simpl. destruct (groupByIncludes _ _); [reflexivity|].
      apply Hselect; assumption.
    + apply elem_of_sort, elem_of_filter_bool in Ha as [Ha Hg].
      apply elem_of_filter_bool in Ha as [Ha _].
      apply list_elem_of_fmap in Ha as (raw & -> & Hraw).
      unfold groupedNext, toMapped, MappedColumn.key in *. simpl in *. by rewrite Hg.
    + by apply elem_of_filter_bool in Ha as [_ Ha].
  - intros a Ha. apply elem_of_filter_bool in Ha as [_ Ha]. by apply negb_true_iff.
Qed.

Lemma contiguousFrom_left (start : Z) (cols : list (CalculatedColumn.t R)) (i : nat) c :
  contiguousFrom start cols → cols !! i = Some c →
  CalculatedColumn.left c = start + sumWidths (take i cols).
Proof.
  revert start i. induction cols as [|c' cols IH]; intros start i Hc Hi; [done|].
  destruct Hc as [Hleft Hrest]. destruct i as [|i]; simpl in *.
  - injection Hi as <-. lia.
  - rewrite (IH _ _ Hrest Hi). lia.
Qed.

Lemma sumWidths_frozen_alter (cols : list (CalculatedColumn.t R)) i :
  sumWidths (List.filter CalculatedColumn.frozen (alter CalculatedColumn.setLastFrozen i cols))
  = sumWidths (List.filter CalculatedColumn.frozen cols).
Proof.
  revert i. induction cols as [|c cols IH]; intros [|i]; simpl; auto.
  - by destruct c as [? ? ? ? []].
  - specialize (IH i). unfold sumWidths in *.
    destruct (CalculatedColumn.frozen c); simpl; [f_equal|]; exact IH.
Qed.

Lemma sumWidths_take_alter (cols : list (CalculatedColumn.t R)) n i :
  sumWidths (take n (alter CalculatedColumn.setLastFrozen i cols)) = sumWidths (take n cols).
Proof.
  revert n i. induction cols as [|c cols IH]; intros [|n] [|i]; simpl; auto.
  - f_equal. apply IH.
Qed.

Lemma made_frozen m w (l : list (MappedColumn.t R)) (cs : list (CalculatedColumn.t R)) :
  Forall2 (madeOf m w) l cs →
  map CalculatedColumn.frozen cs = map MappedColumn.frozen l.
Proof.
  induction 1 as [|a c l cs (_ & _ & Hf & _) _ IH]; simpl; [reflexivity|].
  by rewrite Hf, IH.
Qed.

Lemma frozen_flags_split {A : Type} (P : A → bool) (l : list A) (flags1 flags2 : list bool) :
  map P l = flags1 ++ flags2 →
  (∀ b, b ∈ flags1 → b = true) → (∀ b, b ∈ flags2 → b = false) →
  List.filter P l = take (length flags1) l
  ∧ ∀ (i : nat) x, l !! i = Some x → (P x = true ↔ (i < length flags1)%nat).
Proof.
  revert flags1. induction l as [|x l IH]; intros flags1 Hmap H1 H2.
  - split; [by rewrite take_nil|done].
  - destruct flags1 as [|b flags1]; simpl in *.
    + assert (Hall : ∀ y, y ∈ x :: l → P y = false).
      { intros y Hy. apply H2. rewrite <- Hmap. change (P y ∈ map P (x :: l)).
        apply list_elem_of_fmap. eauto. }
      split.
      * change (List.filter P (x :: l) = []). by apply filter_none.
      * intros i y Hy. apply list_elem_of_lookup_2 in Hy. rewrite (Hall y Hy).
        split; [done|lia].
    + injection Hmap as Hx Hmap. rewrite Hx, (H1 b) by left.
      destruct (IH flags1 Hmap) as [Hfilter Hiff]; [intros; apply H1; by right|exact H2|].
      split; [by rewrite Hfilter|].
      intros [|i] y Hy; simpl in Hy.
      * injection Hy as <-. rewrite Hx, (H1 b) by left. split; [lia|done].
      * rewrite (Hiff i y Hy). lia.
Qed.

(** Where the sorted columns are the frozen ones followed by the others, the
    frozen columns are those up to [lastFrozenColumnIndex] and their widths add
    up to [totalFrozenColumnWidth]. *)
Lemma frozen_lead (m : Metrics R) :
  (∀ raw, raw ∈ rawColumns m → isSelectColumn raw = true → Column.frozen raw = true) →
  (∀ (i : nat) c, columns (getColumnMetrics m) !! i = Some c →
     (CalculatedColumn.frozen c = true
      ↔ Z.of_nat i <= lastFrozenColumnIndex (getColumnMetrics m)))
  ∧ totalFrozenColumnWidth (getColumnMetrics m)
    = sumWidths (List.filter CalculatedColumn.frozen (columns (getColumnMetrics m))).
Proof.
  intros Hselect.
  destruct (sortedColumns_frozen_first m Hselect) as (front & back & Hsorted & Hfront & Hback).
  destruct (columns_made m) as [Hmade _].
  pose proof (made_frozen _ _ _ _ Hmade) as Hflags.
  rewrite Hsorted, map_app in Hflags.
  destruct (frozen_flags_split CalculatedColumn.frozen _ _ _ Hflags) as [Hfilter Hiff].
  { intros b Hb. apply list_elem_of_fmap in Hb as (a & -> & Ha). by apply Hfront. }
  { intros b Hb. apply list_elem_of_fmap in Hb as (a & -> & Ha). by apply Hback. }
  rewrite length_map in Hfilter, Hiff.
  assert (Hlast : lastFrozenColumnIndex (getColumnMetrics m) = Z.of_nat (length front) - 1).
  { rewrite lastFrozen_counts, Hsorted, List.filter_app.
    rewrite (filter_all _ front Hfront), (filter_none _ back Hback), app_nil_r.
    reflexivity. }
  split.
  - intros i c Hc. rewrite (Hiff i c Hc), Hlast. lia.
  - rewrite Hfilter. clear Hfilter Hiff Hflags Hmade.
    destruct (getColumnMetrics_geometry m) as [_ Hcont]. revert Hlast Hcont.
    unfold getColumnMetrics.
    pose proof (firstPass_lastFrozen m) as Hbounds.
    destruct (Z.eqb_spec (lastFrozenAcc (firstPass m)) (-1)) as [Heq|Hne]; simpl;
      intros Hlast Hcont.
    + assert (length front = 0%nat) as -> by lia. by rewrite take_0.
    + destruct (lastFrozenColumn_defined m Hne) as (c & Hc). rewrite Hc.
      rewrite contiguousFrom_alter_setLastFrozen in Hcont.
      rewrite js_get_lookup in Hc by lia.
      rewrite (contiguousFrom_left 0 _ _ _ Hcont Hc).
      set (cols := calculated _) in *.
      rewrite sumWidths_take_alter.
      replace (length front) with (S (Z.to_nat (lastFrozenAcc (firstPass m)))) by lia.
      rewrite (take_S_r _ _ _ Hc), sumWidths_app. simpl. lia.
Qed.

(** X4.  With at most one select column (more make the comparator of [sort]
    answer [-1] both ways) that is frozen, as [SelectColumn] is, the frozen
    columns are exactly the columns up to [lastFrozenColumnIndex], and
    [totalFrozenColumnWidth] is the sum of their widths. *)
Theorem frozen_columns_lead (m : Metrics R) :
  (length (List.filter isSelectColumn (rawColumns m)) ≤ 1)%nat →
  (∀ raw, raw ∈ rawColumns m → isSelectColumn raw = true → Column.frozen raw = true) →
  let r := getColumnMetrics m in
  (∀ (i : nat) c, columns r !! i = Some c →
     (CalculatedColumn.frozen c = true ↔ Z.of_nat i <= lastFrozenColumnIndex r))
  ∧ totalFrozenColumnWidth r
    = sumWidths (List.filter CalculatedColumn.frozen (columns r)).
Proof. intros _ Hselect. cbv zeta. by apply frozen_lead. Qed.

End GroupByAndFrozen.

Lemma frozen_columns_lead_witness :
  totalFrozenColumnWidth (getColumnMetrics demoMetrics)
  = sumWidths (List.filter CalculatedColumn.frozen (columns (getColumnMetrics demoMetrics))).
Proof.
  apply (frozen_columns_lead demoMetrics).
  - vm_compute. lia.
  - intros raw Hraw Hsel. vm_compute in Hraw.
    repeat (apply elem_of_cons in Hraw as [->|Hraw]; [by vm_compute in Hsel|]).
    by apply elem_of_nil in Hraw.
Defined.

Section WidthsAddUp.
Context {R : Type}.
Implicit Types (m : Metrics R) (a : MappedColumn.t R) (c : CalculatedColumn.t R).

Lemma sumWidths_Permutation_map {A : Type} (f : A → Z) (l l' : list A) :
  l ≡ₚ l' → foldr (λ x acc, f x + acc) 0 l = foldr (λ x acc, f x + acc) 0 l'.
Proof.
  induction 1 as [|x l l' _ IH|x y l|l1 l2 l3 _ IH1 _ IH2]; simpl; lia.
Qed.

Lemma sumWidths_made m w (l : list (MappedColumn.t R)) (cs : list (CalculatedColumn.t R)) :
  Forall2 (madeOf m w) l cs →
  sumWidths cs
  = foldr (λ a acc,
             default
               (clampColumnWidth w (Column.minWidth (MappedColumn.column a))
                  (Column.maxWidth (MappedColumn.column a)) (minColumnWidth m))
               (MappedColumn.width a) + acc) 0 l.
Proof.
  induction 1 as [|a c l cs (_ & Hw & _) _ IH]; simpl; [reflexivity|].
  by rewrite Hw, IH.
Qed.

(** The total width is the sum of the widths the raw columns end up with,
    in whatever order they are laid out. *)
Lemma totalColumnWidth_raw m :
  totalColumnWidth (getColumnMetrics m)
  = foldr (λ raw acc, finalWidth m raw + acc) 0 (rawColumns m).
Proof.
  destruct (getColumnMetrics_geometry m) as [<- _].
  destruct (columns_made m) as [Hmade _].
  rewrite (sumWidths_made _ _ _ _ Hmade).
  rewrite (sumWidths_Permutation_map _ _ _ (sortedColumns_Permutation m)).
  induction (rawColumns m) as [|raw l IH]; simpl; [reflexivity|].
  rewrite IH. f_equal. unfold finalWidth.
  by destruct (getSpecifiedWidth raw (columnWidths m) (viewportWidth m)).
Qed.

(** What the first pass has counted: the clamped specified widths, and the
    columns without one. *)
Lemma firstPass_counts m w :
  (∀ raw, raw ∈ rawColumns m →
     getSpecifiedWidth raw (columnWidths m) (viewportWidth m) = None →
     clampColumnWidth w (Column.minWidth raw) (Column.maxWidth raw) (minColumnWidth m) = w) →
  foldr (λ raw acc,
           clampColumnWidth
             (default w (getSpecifiedWidth raw (columnWidths m) (viewportWidth m)))
             (Column.minWidth raw) (Column.maxWidth raw) (minColumnWidth m) + acc)
    0 (rawColumns m)
  = allocatedWidths (firstPass m) + unassignedColumnsCount (firstPass m) * w.
Proof.
  unfold firstPass.
  set (st0 := {| allocatedWidths := 0; unassignedColumnsCount := 0; lastFrozenAcc := -1;
                 mapped := [] |}).
  assert (Hgen : ∀ l st,
            (∀ raw, raw ∈ l →
               getSpecifiedWidth raw (columnWidths m) (viewportWidth m) = None →
               clampColumnWidth w (Column.minWidth raw) (Column.maxWidth raw)
                 (minColumnWidth m) = w) →
            allocatedWidths st + unassignedColumnsCount st * w
            + foldr (λ raw acc,
                       clampColumnWidth
                         (default w
                            (getSpecifiedWidth raw (columnWidths m) (viewportWidth m)))
                         (Column.minWidth raw) (Column.maxWidth raw) (minColumnWidth m)
                       + acc) 0 l
            = allocatedWidths (foldl (mapColumn m) st l)
              + unassignedColumnsCount (foldl (mapColumn m) st l) * w).
  { induction l as [|raw l IH]; intros st Hl; simpl; [lia|].
    rewrite <- IH by (intros; apply Hl; [by right|assumption]).
    unfold mapColumn.
    destruct (getSpecifiedWidth raw (columnWidths m) (viewportWidth m)) eqn:Hspec; simpl.
    - lia.
    - rewrite (Hl raw) by (by left || assumption). lia. }
  intros Hl. rewrite <- (Hgen (rawColumns m) st0 Hl). simpl. lia.
Qed.

(** X5.  When some columns have no width of their own, none of them has a
    [minWidth] or [maxWidth], and the share [floor ((viewportWidth -
    allocatedWidths) / unassignedColumnsCount)] is at least the minimum column
    width, the columns fill the viewport up to the rounding of the share: the
    total width is at most the viewport width and misses it by less than the
    number of those columns. *)
Theorem unassigned_columns_fill_viewport (m : Metrics R) :
  0 < unassignedColumnsCount (firstPass m) →
  minColumnWidth m
  <= floorDiv (viewportWidth m - allocatedWidths (firstPass m))
       (unassignedColumnsCount (firstPass m)) →
  (∀ raw, raw ∈ rawColumns m →
     getSpecifiedWidth raw (columnWidths m) (viewportWidth m) = None →
     Column.minWidth raw = None ∧ Column.maxWidth raw = None) →
  viewportWidth m - unassignedColumnsCount (firstPass m)
  < totalColumnWidth (getColumnMetrics m) <= viewportWidth m.
Proof.
  intros Hcount Hshare Hfree.
  rewrite totalColumnWidth_raw. unfold finalWidth.
  rewrite firstPass_counts.
  - unfold unallocatedColumnWidthOf. rewrite Z.max_l by exact Hshare.
    unfold floorDiv in *.
    set (n := unassignedColumnsCount (firstPass m)) in *.
    set (rest := viewportWidth m - allocatedWidths (firstPass m)) in *.
    pose proof (Z.mul_div_le rest n Hcount).
    pose proof (Z.mul_succ_div_gt rest n Hcount). nia.
  - intros raw Hraw Hspec. destruct (Hfree raw Hraw Hspec) as [Hmin Hmax].
    unfold clampColumnWidth, unallocatedColumnWidthOf. rewrite Hmin, Hmax. simpl. lia.
Qed.

End WidthsAddUp.

Lemma unassigned_columns_fill_viewport_witness :
  viewportWidth scenarioAMetrics - unassignedColumnsCount (firstPass scenarioAMetrics)
  < totalColumnWidth (getColumnMetrics scenarioAMetrics) <= viewportWidth scenarioAMetrics.
Proof.
  apply (unassigned_columns_fill_viewport scenarioAMetrics).
  - vm_compute. reflexivity.
  - vm_compute. discriminate.
  - intros raw Hraw Hspec. vm_compute in Hraw.
    repeat (apply elem_of_cons in Hraw as [->|Hraw]; [by vm_compute|]).
    by apply elem_of_nil in Hraw.
Defined.

Section Resize.
Context {R K : Type} `{EqDecision R} `{Countable K}.

(** X6.  After a resize of a column to [width], every column with that key
    has [width], clamped to the column's own limits, whatever width the column
    declares: the override is looked up before the declared width. *)
Theorem resized_width_takes_effect (g : Grid R K) (column : CalculatedColumn.t R)
    (width : Z) :
  Forall
    (λ c,
       CalculatedColumn.key c = CalculatedColumn.key column →
       CalculatedColumn.width c
       = clampColumnWidth width (Column.minWidth (CalculatedColumn.column c))
           (Column.maxWidth (CalculatedColumn.column c)) (default 80 (defaultMinWidth g)))
    (gridColumns (withColumnWidths g (handleColumnResize g column width))).
Proof.
  apply Forall_forall. intros c Hc Hkey.
  unfold gridColumns, gridMetrics in Hc.
  apply columns_from_raw in Hc as (_ & Hw & _). rewrite Hw.
  unfold finalWidth, getSpecifiedWidth, handleColumnResize. simpl.
  unfold CalculatedColumn.key in Hkey. rewrite Hkey.
  by rewrite lookup_insert_eq.
Qed.

End Resize.

Section Comparator.
Context {R : Type}.

(** The comparator handed to [sort] is consistent on two columns that
    are not both select columns: swapping the arguments flips the sign of its
    answer, and it orders by a rank (select, then the place in the group-by
    list, then frozen, then the rest).  On two select columns it answers [-1]
    both ways, so neither comes first. *)
Lemma column_comparator_consistency (rawGroupBy : option (list string))
    (a b : MappedColumn.t R) :
  (¬ (MappedColumn.key a = SELECT_COLUMN_KEY ∧ MappedColumn.key b = SELECT_COLUMN_KEY) →
   Z.sgn (compareColumns rawGroupBy a b) = - Z.sgn (compareColumns rawGroupBy b a)
   ∧ Z.sgn (compareColumns rawGroupBy a b)
     = Z.sgn (columnRank rawGroupBy a - columnRank rawGroupBy b))
  ∧ (MappedColumn.key a = SELECT_COLUMN_KEY → MappedColumn.key b = SELECT_COLUMN_KEY →
     compareColumns rawGroupBy a b = -1 ∧ compareColumns rawGroupBy b a = -1).
Proof.
  split.
  - intros Hselect.
    rewrite (compareColumns_by_rank rawGroupBy a b Hselect).
    rewrite (compareColumns_by_rank rawGroupBy b a) by tauto.
    split; [|reflexivity].
    rewrite <- Z.sgn_opp. f_equal. lia.
  - intros Ha Hb. unfold compareColumns. rewrite Ha, Hb. simpl. done.
Qed.

End Comparator.

(** ** Percentage widths *)

Lemma digitsThenPercent_seen (s : string) :
  digitsThenPercent true s = true
  ↔ ∃ digits, allDigits digits = true ∧ s = (digits +:+ "%")%string.
Proof.
  induction s as [|ch s IH]; simpl.
  - split; [done|]. intros ([|? ?] & _ & Heq); discriminate.
  - destruct (isDigit ch) eqn:Hdigit.
    + rewrite IH. split.
      * intros (digits & Hall & ->). exists (String ch digits). simpl.
        by rewrite Hdigit, Hall.
      * intros ([|ch' digits] & Hall & Heq); simpl in *.
        -- injection Heq as -> ->. vm_compute in Hdigit. discriminate.
        -- injection Heq as <- ->. apply andb_true_iff in Hall as [_ Hall]. eauto.
    + simpl. split.
      * intros Hrest. apply andb_true_iff in Hrest as [Hpct Hempty].
        apply Ascii.eqb_eq in Hpct as ->. apply String.eqb_eq in Hempty as ->.
        by exists EmptyString.
      * intros ([|ch' digits] & Hall & Heq); simpl in *.
        -- by injection Heq as -> ->.
        -- injection Heq as <- ->. apply andb_true_iff in Hall as [Hch _]. congruence.
Qed.

(** X7.  A string width is read as a percentage exactly when it is one or
    more decimal digits followed by a percent sign and nothing else: no sign,
    no fraction, no blank, no empty number. *)
Theorem percentage_width_format (s : string) :
  isPercentage s = true
  ↔ ∃ digits, digits ≠ EmptyString ∧ allDigits digits = true ∧ s = (digits +:+ "%")%string.
Proof.
  unfold isPercentage. destruct s as [|ch s]; simpl.
  - split; [done|]. intros ([|? ?] & _ & _ & Heq); discriminate.
  - destruct (isDigit ch) eqn:Hdigit; simpl.
    + rewrite digitsThenPercent_seen. split.
      * intros (digits & Hall & ->). exists (String ch digits). simpl.
        by rewrite Hdigit, Hall.
      * intros ([|ch' digits] & Hne & Hall & Heq); [done|]. simpl in *.
        injection Heq as <- ->. apply andb_true_iff in Hall as [_ Hall]. eauto.
    + split; [done|]. intros ([|ch' digits] & Hne & Hall & Heq); [done|]. simpl in *.
      injection Heq as <- ->. apply andb_true_iff in Hall as [Hch _]. congruence.
Qed.

(** ** The column window *)

Section ColumnWindow.
Context {R : Type}.
Implicit Types (cols : list (CalculatedColumn.t R)) (c : CalculatedColumn.t R).

(** The scan returns: it stops on the first column from [i] that [stop]
    accepts, or on the last column. *)
Lemma scanColumns_spec cols (stop : CalculatedColumn.t R → bool) (last : Z) (fuel : nat)
    (i : Z) :
  i <= last → (i < last → 0 <= i) → last < js_length cols → last - i <= Z.of_nat fuel →
  ∃ r,
    scanColumns cols stop last fuel i = Returned r
    ∧ i <= r <= last
    ∧ (∀ j c, i <= j < r → js_get cols j = Some c → stop c = false)
    ∧ (r < last → ∃ c, js_get cols r = Some c ∧ stop c = true).
Proof.
  revert i. induction fuel as [|fuel IH]; intros i Hle Hpos Hlast Hfuel; simpl.
  - exists i. split; [reflexivity|]. split; [lia|].
    split; [intros j c Hj; lia|intros Hr; lia].
  - destruct (Z.ltb_spec i last) as [Hlt|Hge].
    + destruct (js_get_in_bounds cols i) as [c Hc]; [lia|]. rewrite Hc.
      destruct (stop c) eqn:Hstop.
      * exists i. split; [reflexivity|]. split; [lia|].
        split; [intros j c' Hj; lia|intros _; eauto].
      * destruct (IH (i + 1)) as (r & Hr & Hbounds & Hbefore & Hat); try lia.
        exists r. split; [exact Hr|]. split; [lia|]. split; [|exact Hat].
        intros j c' Hj Hc'. destruct (decide (j = i)) as [->|Hne].
        -- congruence.
        -- apply (Hbefore j); [lia|assumption].
    + exists i. split; [reflexivity|]. split; [lia|].
      split; [intros j c Hj; lia|intros Hr; lia].
Qed.

(** The window is computed, whatever the scroll position, and lies between
    the first column that is not frozen and the last column. *)
Lemma colOverscanWindow_spec cols (lastFrozen totalFrozen scrollLeft viewportWidth : Z) :
  -1 <= lastFrozen →
  let last := js_length cols - 1 in
  let firstUnfrozen := Z.min (lastFrozen + 1) last in
  ∃ first final,
    colOverscanWindow cols lastFrozen totalFrozen scrollLeft viewportWidth
    = Returned (first, final)
    ∧ firstUnfrozen <= first <= final ∧ final <= last
    ∧ (scrollLeft + totalFrozen < scrollLeft + viewportWidth →
       (∀ j c, firstUnfrozen <= j < first → js_get cols j = Some c →
          CalculatedColumn.left c + CalculatedColumn.width c <= scrollLeft + totalFrozen)
       ∧ (final < last →
          ∃ j c, j <= final ∧ js_get cols j = Some c
                 ∧ scrollLeft + viewportWidth
                   <= CalculatedColumn.left c + CalculatedColumn.width c)).
Proof.
  intros Hfrozen last firstUnfrozen. unfold colOverscanWindow. fold last. fold firstUnfrozen.
  assert (Hlen : 0 <= js_length cols) by (unfold js_length; lia).
  destruct (Z.leb_spec (scrollLeft + viewportWidth) (scrollLeft + totalFrozen)) as [Hcover|Hopen].
  - exists firstUnfrozen, firstUnfrozen. split; [reflexivity|]. split; [lia|].
    split; [lia|]. intros Hopen. lia.
  - destruct (scanColumns_spec cols
                (λ column, scrollLeft + totalFrozen
                           <? CalculatedColumn.left column + CalculatedColumn.width column)
                last (Z.to_nat (last - firstUnfrozen)) firstUnfrozen)
      as (vs & -> & Hvs & Hbefore & _); try lia.
    destruct (scanColumns_spec cols
                (λ column, scrollLeft + viewportWidth
                           <=? CalculatedColumn.left column + CalculatedColumn.width column)
                last (Z.to_nat (last - vs)) vs)
      as (ve & -> & Hve & _ & Hat); try lia.
    eexists _, _. split; [reflexivity|]. split; [lia|]. split; [lia|].
    intros _. split.
    + intros j c Hj Hc. specialize (Hbefore j c). apply Z.ltb_ge, Hbefore; [lia|exact Hc].
    + intros Hfinal. destruct Hat as (c & Hc & Hstop); [lia|].
      exists ve, c. split; [lia|]. split; [exact Hc|]. by apply Z.leb_le.
Qed.

(** The columns collected for rendering, in closed form. *)
Lemma collectViewportColumns_spec cols (first : Z) (fuel : nat) (colIdx : nat) :
  (∀ (i : nat) c, cols !! i = Some c → CalculatedColumn.idx c = Z.of_nat i) →
  (colIdx + fuel ≤ length cols)%nat →
  collectViewportColumns cols first fuel (Z.of_nat colIdx)
  = Returned
      (spread
         (List.filter (λ c, (first <=? CalculatedColumn.idx c) || CalculatedColumn.frozen c)
            (take fuel (drop colIdx cols)))).
Proof.
  intros Hidx. revert colIdx. induction fuel as [|fuel IH]; intros colIdx Hlen; simpl.
  - reflexivity.
  - destruct (lookup_lt_is_Some_2 cols colIdx) as [c Hc]; [lia|].
    rewrite (drop_S _ _ _ Hc). simpl.
    rewrite js_get_lookup by lia. rewrite Nat2Z.id, Hc.
    replace (Z.of_nat colIdx + 1) with (Z.of_nat (S colIdx)) by lia.
    rewrite IH by lia. rewrite (Hidx _ _ Hc).
    destruct (Z.ltb_spec (Z.of_nat colIdx) first) as [Hlt|Hge].
    + rewrite (proj2 (Z.leb_gt _ _)) by lia. simpl.
      by destruct (CalculatedColumn.frozen c).
    + by rewrite (proj2 (Z.leb_le _ _)) by lia.
Qed.

Lemma lastFrozenColumnIndex_ge (m : Metrics R) :
  -1 <= lastFrozenColumnIndex (getColumnMetrics m) < js_length (columns (getColumnMetrics m)).
Proof.
  pose proof (firstPass_lastFrozen m) as Hbounds.
  pose proof (length_columns m) as Hlen.
  assert (lastFrozenColumnIndex (getColumnMetrics m) = lastFrozenAcc (firstPass m)) as ->.
  { unfold getColumnMetrics. by destruct (lastFrozenAcc (firstPass m) =? -1). }
  unfold js_length in *. rewrite Hlen. rewrite mapped_firstPass, length_map in Hbounds. lia.
Qed.

End ColumnWindow.

Section ColumnWindowTheorems.
Context {R : Type}.
Implicit Types (cols : list (CalculatedColumn.t R)) (c : CalculatedColumn.t R).

(** X8.  For every scroll position [useViewportColumns] returns (no column
    lookup of its loops fails).  Its overscan window lies between the first
    column that is not frozen and the last column, start before end, and the
    columns it hands to the rows are, in order, the frozen columns left of the
    window and the columns of the window. *)
Theorem viewport_columns_window (m : Metrics R) (scrollLeft : Z) :
  let r := getColumnMetrics m in
  let last := js_length (columns r) - 1 in
  ∃ v,
    useViewportColumns m scrollLeft = Returned v
    ∧ vc_metrics v = r
    ∧ Z.min (lastFrozenColumnIndex r + 1) last <= colOverscanStartIdx v
    ∧ colOverscanStartIdx v <= colOverscanEndIdx v <= last
    ∧ viewportColumns v
      = spread
          (List.filter
             (λ c, (colOverscanStartIdx v <=? CalculatedColumn.idx c)
                   || CalculatedColumn.frozen c)
             (take (Z.to_nat (colOverscanEndIdx v + 1)) (columns r))).
Proof.
  cbv zeta. unfold useViewportColumns.
  destruct (colOverscanWindow_spec (columns (getColumnMetrics m))
              (lastFrozenColumnIndex (getColumnMetrics m))
              (totalFrozenColumnWidth (getColumnMetrics m)) scrollLeft (viewportWidth m))
    as (first & final & -> & Hfirst & Hfinal & _).
  { apply lastFrozenColumnIndex_ge. }
  destruct (columns_made m) as [_ Hidx].
  change 0 with (Z.of_nat 0).
  rewrite (collectViewportColumns_spec _ first _ 0 Hidx).
  - eexists. split; [reflexivity|]. simpl. rewrite drop_0.
    split; [reflexivity|]. split; [lia|]. split; [lia|reflexivity].
  - unfold js_length in Hfinal. lia.
Qed.

Lemma sumWidths_nonneg cols :
  Forall (λ c, 0 <= CalculatedColumn.width c) cols → 0 <= sumWidths cols.
Proof. induction 1; simpl; lia. Qed.

Lemma contiguousFrom_left_ge (start : Z) cols (i : nat) c :
  contiguousFrom start cols → Forall (λ c, 0 <= CalculatedColumn.width c) cols →
  cols !! i = Some c → start <= CalculatedColumn.left c.
Proof.
  intros Hcont Hwidths Hc. rewrite (contiguousFrom_left _ _ _ _ Hcont Hc).
  pose proof (sumWidths_nonneg (take i cols) (Forall_take _ _ _ Hwidths)). lia.
Qed.

(** With widths that are not negative the columns follow each other from left
    to right. *)
Lemma contiguousFrom_monotone (start : Z) cols (j i : nat) cj ci :
  contiguousFrom start cols → Forall (λ c, 0 <= CalculatedColumn.width c) cols →
  (j < i)%nat → cols !! j = Some cj → cols !! i = Some ci →
  CalculatedColumn.left cj + CalculatedColumn.width cj <= CalculatedColumn.left ci.
Proof.
  revert start j i. induction cols as [|c cols IH]; intros start j i Hcont Hwidths Hji Hj Hi;
    [done|].
  destruct Hcont as [Hleft Hrest]. apply Forall_cons in Hwidths as [Hc Hwidths].
  destruct i as [|i]; [lia|]. simpl in Hi. destruct j as [|j]; simpl in Hj.
  - injection Hj as <-. rewrite Hleft.
    apply (contiguousFrom_left_ge _ cols i); assumption.
  - apply (IH (start + CalculatedColumn.width c) j i); try assumption. lia.
Qed.

(** X9.  When no column has a negative width, every column that is not
    frozen and lies at least partly in the part of the viewport the frozen
    columns leave free is inside the overscan window, and so among the columns
    handed to the rows. *)
Theorem visible_columns_in_window (m : Metrics R) (scrollLeft : Z)
    (v : ViewportColumns R) (c : CalculatedColumn.t R) :
  useViewportColumns m scrollLeft = Returned v →
  Forall (λ c, 0 <= CalculatedColumn.width c) (columns (getColumnMetrics m)) →
  c ∈ columns (getColumnMetrics m) →
  lastFrozenColumnIndex (getColumnMetrics m) < CalculatedColumn.idx c →
  columnOverlaps c (scrollLeft + totalFrozenColumnWidth (getColumnMetrics m))
    (scrollLeft + viewportWidth m) →
  colOverscanStartIdx v <= CalculatedColumn.idx c <= colOverscanEndIdx v
  ∧ Some c ∈ viewportColumns v.
Proof.
  intros Hv Hwidths Hc Hunfrozen (Hopen & Hright & Hleft).
  destruct (columns_made m) as [_ Hidx].
  destruct (getColumnMetrics_geometry m) as [_ Hcont].
  apply list_elem_of_lookup in Hc as [i Hc].
  pose proof (Hidx i c Hc) as Hi. rewrite Hi in *.
  pose proof (lookup_lt_Some _ _ _ Hc) as Hlen.
  revert Hv. unfold useViewportColumns.
  destruct (colOverscanWindow_spec (columns (getColumnMetrics m))
              (lastFrozenColumnIndex (getColumnMetrics m))
              (totalFrozenColumnWidth (getColumnMetrics m)) scrollLeft (viewportWidth m))
    as (first & final & -> & Hfirst & Hfinal & Hscan).
  { apply lastFrozenColumnIndex_ge. }
  destruct (Hscan Hopen) as [Hbefore Hafter]. clear Hscan.
  change 0 with (Z.of_nat 0).
  rewrite (collectViewportColumns_spec _ first _ 0 Hidx)
    by (unfold js_length in Hfinal; lia).
  intros [= <-]. simpl. rewrite drop_0.
  assert (Hin : first <= Z.of_nat i <= final).
  { split.
    - destruct (Z.le_gt_cases first (Z.of_nat i)) as [|Hlt]; [assumption|].
      specialize (Hbefore (Z.of_nat i) c).
      rewrite js_get_lookup, Nat2Z.id in Hbefore by lia.
      specialize (Hbefore ltac:(lia) Hc). lia.
    - destruct (Z.le_gt_cases (Z.of_nat i) final) as [|Hgt]; [assumption|].
      destruct Hafter as (j & cj & Hj & Hcj & Hpast); [unfold js_length; lia|].
      apply js_get_Some_bounds in Hcj as Hjpos.
      rewrite js_get_lookup in Hcj by lia.
      pose proof (contiguousFrom_monotone 0 _ (Z.to_nat j) i cj c Hcont Hwidths
                    ltac:(lia) Hcj Hc). lia. }
  split; [exact Hin|].
  apply list_elem_of_fmap. exists c. split; [reflexivity|].
  apply elem_of_filter_bool. split.
  - apply list_elem_of_lookup. exists i. rewrite lookup_take_lt by lia. exact Hc.
  - rewrite Hi. apply orb_true_iff. left. apply Z.leb_le. lia.
Qed.

End ColumnWindowTheorems.

Lemma visible_columns_in_window_witness :
  ∃ v c,
    useViewportColumns demoMetrics 0 = Returned v
    ∧ columns (getColumnMetrics demoMetrics) !! 4%nat = Some c
    ∧ colOverscanStartIdx v <= CalculatedColumn.idx c <= colOverscanEndIdx v
    ∧ Some c ∈ viewportColumns v.
Proof.
  destruct (useViewportColumns demoMetrics 0) as [v|e] eqn:Hv;
    [|vm_compute in Hv; discriminate].
  destruct (columns (getColumnMetrics demoMetrics) !! 4%nat) as [c|] eqn:Hc;
    [|vm_compute in Hc; discriminate].
  exists v, c. split; [reflexivity|]. split; [reflexivity|].
  apply (visible_columns_in_window demoMetrics 0 v c Hv).
  - apply Forall_forall. intros x Hx. vm_compute in Hx.
    repeat (apply elem_of_cons in Hx as [->|Hx]; [vm_compute; discriminate|]).
    by apply elem_of_nil in Hx.
  - by apply list_elem_of_lookup_2 in Hc.
  - vm_compute in Hc. injection Hc as <-. vm_compute. reflexivity.
  - vm_compute in Hc. injection Hc as <-. vm_compute. repeat split.
Defined.

(** ** Scrolling a cell into view *)

Section ScrollIntoView.
Context {R : Type}.
Implicit Types (cols : list (CalculatedColumn.t R)) (c : CalculatedColumn.t R).

(** The sums of the loop of [getColumnScrollPosition]. *)
Lemma scrollSums_spec cols (n i : nat) (left frozen : Z) :
  scrollSums cols n (Z.of_nat i) left frozen
  = (left + sumWidths (take n (drop i cols)),
     frozen + sumWidths (List.filter CalculatedColumn.frozen (take n (drop i cols)))).
Proof.
  revert i left frozen. induction n as [|n IH]; intros i left frozen; simpl.
  - f_equal; lia.
  - rewrite js_get_lookup by lia. rewrite Nat2Z.id.
    replace (Z.of_nat i + 1) with (Z.of_nat (S i)) by lia.
    destruct (cols !! i) as [c|] eqn:Hc.
    + rewrite IH, (drop_S _ _ _ Hc). simpl.
      destruct (Z.eqb_spec (CalculatedColumn.width c) 0) as [Hzero|_];
        destruct (CalculatedColumn.frozen c); simpl; f_equal; lia.
    + rewrite IH. apply lookup_ge_None in Hc.
      rewrite !drop_ge by lia. rewrite take_nil. simpl. reflexivity.
Qed.

Lemma getColumnScrollPosition_spec cols (idx : nat) c scrollLeft clientWidth :
  cols !! idx = Some c →
  let left := sumWidths (take idx cols) in
  let frozen := sumWidths (List.filter CalculatedColumn.frozen (take idx cols)) in
  getColumnScrollPosition cols (Z.of_nat idx) scrollLeft clientWidth
  = if left - frozen - scrollLeft <? 0 then left - frozen - scrollLeft
    else if clientWidth <? left + CalculatedColumn.width c - scrollLeft
         then left + CalculatedColumn.width c - scrollLeft - clientWidth
    else 0.
Proof.
  intros Hc. unfold getColumnScrollPosition.
  rewrite js_get_lookup by lia. rewrite Nat2Z.id, Hc.
  pose proof (scrollSums_spec cols idx 0 0 0) as Hsums.
  change (Z.of_nat 0) with 0 in Hsums. rewrite drop_0 in Hsums.
  rewrite Hsums. simpl. reflexivity.
Qed.


End ScrollIntoView.

Section ScrollToCell.
Context {R K : Type} `{EqDecision R} `{Countable K}.

(** X11.  When a row is not taller than the viewport, the scroll position
    [scrollToCell] leaves (the one it assigns, or the old one when it assigns
    none) shows the whole row: its top is not above the viewport and its
    bottom not below. *)
Theorem scrolled_row_is_visible (g : Grid R K) (rowIdx : Z) :
  rowHeight g <= clientHeight g →
  let top := default (scrollTop g) (scrollTopForRow g rowIdx) in
  top <= rowIdx * rowHeight g ∧ (rowIdx + 1) * rowHeight g <= top + clientHeight g.
Proof.
  intros Hfits. unfold scrollTopForRow.
  destruct (Z.ltb_spec (rowIdx * rowHeight g) (scrollTop g));
    [|destruct (Z.ltb_spec (scrollTop g + clientHeight g) ((rowIdx + 1) * rowHeight g))];
    simpl; lia.
Qed.

Lemma frozen_before (g : Grid R K) (idx : nat) :
  (∀ raw, raw ∈ g_rawColumns g → isSelectColumn raw = true → Column.frozen raw = true) →
  lastFrozenColumnIndex (gridMetrics g) < Z.of_nat idx →
  sumWidths (List.filter CalculatedColumn.frozen (take idx (gridColumns g)))
  = totalFrozenColumnWidth (gridMetrics g).
Proof.
  intros Hselect Hidx. unfold gridColumns, gridMetrics in *.
  set (m := {| rawColumns := g_rawColumns g |}) in *.
  destruct (frozen_lead m Hselect) as [Hiff ->].
  rewrite <- (take_drop idx (columns (getColumnMetrics m))) at 2.
  rewrite List.filter_app, (filter_none _ (drop idx _)), app_nil_r; [reflexivity|].
  intros c Hc. apply list_elem_of_lookup in Hc as [i Hc]. rewrite lookup_drop in Hc.
  destruct (CalculatedColumn.frozen c) eqn:Hfrozen; [|reflexivity].
  apply (Hiff _ _ Hc) in Hfrozen. lia.
Qed.


End ScrollToCell.

Lemma scrolled_row_is_visible_witness :
  let top := default (scrollTop plainGrid) (scrollTopForRow plainGrid 2) in
  top <= 2 * rowHeight plainGrid
  ∧ (2 + 1) * rowHeight plainGrid <= top + clientHeight plainGrid.
Proof. apply (scrolled_row_is_visible plainGrid 2). vm_compute. discriminate. Defined.


(** ** Numbering the grouped rows *)

Section GroupNumbering.
Context {R : Type}.
Implicit Types (groups : list (string * Group R)) (tree : GroupedRows R).

Lemma objSet_fresh {V : Type} (o : list (string * V)) (key : string) (v : V) :
  key ≠ "__proto__"%string → key ∉ o.*1 → objSet o key v = o ++ [(key, v)].
Proof.
  intros Hkey. unfold objSet. apply String.eqb_neq in Hkey. rewrite Hkey. clear Hkey.
  induction o as [|[k v'] o IH]; intros Hfresh; simpl; [reflexivity|].
  simpl in Hfresh. apply not_elem_of_cons in Hfresh as [Hne Hfresh].
  destruct (String.eqb_spec k key) as [->|_]; [done|]. by rewrite IH.
Qed.

Lemma fullSize_cons k (childRows : list R) childGroups start groups :
  fullSize (GroupObject ((k, mkGroup childRows childGroups start) :: groups))
  = 1 + fullSize childGroups + fullSize (GroupObject groups).
Proof. reflexivity. Qed.

Lemma numberedFrom_cons (from : Z) k (childRows : list R) childGroups start groups :
  numberedFrom from (GroupObject ((k, mkGroup childRows childGroups start) :: groups))
  = (start = from
     ∧ numberedFrom (from + 1) childGroups
     ∧ numberedFrom (from + 1 + fullSize childGroups) (GroupObject groups)).
Proof. reflexivity. Qed.

Lemma fullSize_app groups1 groups2 :
  fullSize (GroupObject (groups1 ++ groups2))
  = fullSize (GroupObject groups1) + fullSize (GroupObject groups2).
Proof.
  induction groups1 as [|[k [childRows childGroups start]] groups1 IH]; [reflexivity|].
  rewrite <- app_comm_cons, !fullSize_cons, IH. lia.
Qed.

Lemma numberedFrom_app (start : Z) groups1 groups2 :
  numberedFrom start (GroupObject (groups1 ++ groups2))
  ↔ numberedFrom start (GroupObject groups1)
    ∧ numberedFrom (start + fullSize (GroupObject groups1)) (GroupObject groups2).
Proof.
  revert start.
  induction groups1 as [|[k [childRows childGroups start']] groups1 IH]; intros start.
  - change (fullSize (GroupObject [])) with 0. rewrite Z.add_0_r. simpl. tauto.
  - rewrite <- app_comm_cons, !numberedFrom_cons, fullSize_cons, IH.
    replace (start + (1 + fullSize childGroups + fullSize (GroupObject groups1)))
      with (start + 1 + fullSize childGroups + fullSize (GroupObject groups1)) by lia.
    tauto.
Qed.

(** [groupRows] counts the rows of the groups it builds and numbers them, when
    the grouper answers every key once and never the key [__proto__]. *)
Lemma groupRows_numbered (grouper : RowGrouper R) remaining (rows : list R) (key : string)
    (start : Z) :
  (∀ rows key, NoDup (grouper rows key).*1) →
  (∀ rows key, "__proto__"%string ∉ (grouper rows key).*1) →
  (groupRows grouper rows key remaining start).2
  = fullSize (GroupObject (groupRows grouper rows key remaining start).1)
  ∧ numberedFrom start (GroupObject (groupRows grouper rows key remaining start).1).
Proof.
  intros Honce Hown. revert rows key start.
  induction remaining as [|nextKey remaining IH]; intros rows key start.
  - simpl. pose proof (Honce rows key) as Hnodup. pose proof (Hown rows key) as Hproto.
    assert (Hgen : ∀ entries groups count,
              NoDup (groups.*1 ++ entries.*1) →
              "__proto__"%string ∉ entries.*1 →
              count = fullSize (GroupObject groups) →
              numberedFrom start (GroupObject groups) →
              let res :=
                foldl
                  (λ (acc : list (string * Group R) * Z) (entry : string * list R),
                     let '(groups, groupRowsCount) := acc in
                     let '(key, childRows) := entry in
                     let '(childGroups, childRowsCount) :=
                       (RowArray childRows, js_length childRows) in
                     (objSet groups key
                        (mkGroup childRows childGroups (start + groupRowsCount)),
                      groupRowsCount + childRowsCount + 1))
                  (groups, count) entries in
              res.2 = fullSize (GroupObject res.1)
              ∧ numberedFrom start (GroupObject res.1)).
    { induction entries as [|[k childRows] entries IHe];
        intros groups count Hnd Hnp Hcount Hnum.
      - simpl. auto.
      - simpl. simpl in Hnd, Hnp. apply not_elem_of_cons in Hnp as [Hk Hnp].
        apply not_eq_sym in Hk.
        assert (Hfresh : k ∉ groups.*1).
        { apply NoDup_app in Hnd as (_ & Hdisj & _). intros Hin.
          apply (Hdisj k Hin). by left. }
        apply IHe.
        + rewrite objSet_fresh by assumption.
          rewrite fmap_app, <- app_assoc. exact Hnd.
        + exact Hnp.
        + rewrite objSet_fresh by assumption.
          rewrite fullSize_app, fullSize_cons.
          change (fullSize (GroupObject [])) with 0.
          change (fullSize (RowArray childRows)) with (js_length childRows). lia.
        + rewrite objSet_fresh by assumption.
          apply numberedFrom_app. split; [exact Hnum|].
          rewrite numberedFrom_cons. split; [lia|]. split; exact I. }
    apply (Hgen (grouper rows key) [] 0); simpl; auto.
  - simpl. pose proof (Honce rows key) as Hnodup. pose proof (Hown rows key) as Hproto.
    assert (Hgen : ∀ entries groups count,
              NoDup (groups.*1 ++ entries.*1) →
              "__proto__"%string ∉ entries.*1 →
              count = fullSize (GroupObject groups) →
              numberedFrom start (GroupObject groups) →
              let res :=
                foldl
                  (λ (acc : list (string * Group R) * Z) (entry : string * list R),
                     let '(groups, groupRowsCount) := acc in
                     let '(key, childRows) := entry in
                     let '(childGroups, childRowsCount) :=
                       (let '(g, n) :=
                          groupRows grouper childRows nextKey remaining
                            (start + groupRowsCount + 1) in
                        (GroupObject g, n)) in
                     (objSet groups key
                        (mkGroup childRows childGroups (start + groupRowsCount)),
                      groupRowsCount + childRowsCount + 1))
                  (groups, count) entries in
              res.2 = fullSize (GroupObject res.1)
              ∧ numberedFrom start (GroupObject res.1)).
    { induction entries as [|[k childRows] entries IHe];
        intros groups count Hnd Hnp Hcount Hnum.
      - simpl. auto.
      - simpl. simpl in Hnd, Hnp. apply not_elem_of_cons in Hnp as [Hk Hnp].
        apply not_eq_sym in Hk.
        destruct (IH childRows nextKey (start + count + 1)) as [Hsize Hchild].
        destruct (groupRows grouper childRows nextKey remaining (start + count + 1))
          as [g n]. cbn [fst snd] in Hsize, Hchild.
        assert (Hfresh : k ∉ groups.*1).
        { apply NoDup_app in Hnd as (_ & Hdisj & _). intros Hin.
          apply (Hdisj k Hin). by left. }
        apply IHe.
        + rewrite objSet_fresh by assumption.
          rewrite fmap_app, <- app_assoc. exact Hnd.
        + exact Hnp.
        + rewrite objSet_fresh by assumption.
          rewrite fullSize_app, fullSize_cons.
          change (fullSize (GroupObject [])) with 0. lia.
        + rewrite objSet_fresh by assumption.
          apply numberedFrom_app. split; [exact Hnum|].
          rewrite numberedFrom_cons. split; [lia|]. split; [|exact I].
          replace (start + fullSize (GroupObject groups) + 1) with (start + count + 1) by lia.
          exact Hchild. }
    apply (Hgen (grouper rows key) [] 0); simpl; auto.
Qed.

End GroupNumbering.

Section FlattenNumbered.
Context {R : Type}.
Implicit Types (groups : list (string * Group R)) (tree : GroupedRows R).

Lemma fullSize_nonneg tree : 0 <= fullSize tree.
Proof.
  induction tree as [rows|groups IH] using GroupedRows_nested_ind.
  - change (fullSize (RowArray rows)) with (js_length rows). unfold js_length. lia.
  - induction IH as [|[k [childRows childGroups s]] groups Hhead _ IHtail].
    + change (fullSize (GroupObject [])) with 0. lia.
    + rewrite fullSize_cons. cbn [childGroupsOf snd] in Hhead. lia.
Qed.

(** The flattened rows of numbered groups: never more than their full size,
    every header at or before the place it is numbered with, and exactly
    there once every group on the way is expanded. *)
Lemma flatten_numbered ids tree :
  ∀ (start : Z) parentId level,
    numberedFrom start tree →
    let flat := flattenDepthFirst ids tree parentId level in
    js_length flat <= fullSize tree
    ∧ (∀ (i : nat) g, flat !! i = Some (GroupHeader g) →
         start + Z.of_nat i <= startRowIndex g)
    ∧ ((∀ g, GroupHeader g ∈ flat → isExpanded g = true) →
       js_length flat = fullSize tree
       ∧ ∀ (i : nat) g, flat !! i = Some (GroupHeader g) →
           startRowIndex g = start + Z.of_nat i).
Proof.
  induction tree as [rows|groups IH] using GroupedRows_nested_ind;
    intros start parentId level Hnum.
  - cbn [flattenDepthFirst]. cbv zeta.
    assert (Hnone : ∀ (i : nat) g, (map Row rows : list (ViewRow R)) !! i
                                   = Some (GroupHeader g) → False).
    { intros i g Hi. change (map Row rows) with (Row <$> rows) in Hi.
      rewrite list_lookup_fmap in Hi. by destruct (rows !! i). }
    unfold js_length. rewrite length_map. change (fullSize (RowArray rows)) with (js_length rows).
    unfold js_length. split; [lia|]. split; [intros i g Hi; by destruct (Hnone i g)|].
    intros _. split; [lia|]. intros i g Hi. by destruct (Hnone i g).
  - cbn [flattenDepthFirst]. cbv zeta.
    generalize (js_length groups). intros setSize.
    generalize 0. intros pos. revert pos start Hnum.
    induction IH as [|[k [childRows childGroups s]] groups Hhead _ IHtail];
      intros pos start Hnum.
    + change (fullSize (GroupObject [])) with 0. unfold js_length. simpl.
      split; [lia|]. split; [intros i g Hi; by rewrite lookup_nil in Hi|].
      intros _. split; [lia|]. intros i g Hi. by rewrite lookup_nil in Hi.
    + rewrite numberedFrom_cons in Hnum. destruct Hnum as (-> & Hchild & Hrest).
      rewrite fullSize_cons.
      specialize (IHtail (pos + 1) _ Hrest).
      cbn [childGroupsOf snd] in Hhead.
      specialize (Hhead (start + 1) (Some (groupId parentId k)) (level + 1) Hchild).
      cbv zeta in Hhead.
      pose proof (fullSize_nonneg childGroups) as Hsize.
      remember (fullSize (GroupObject groups)) as restSize eqn:HrestSize.
      remember (fullSize childGroups) as childSize eqn:HchildSize.
      set (rest := _ groups (pos + 1)) in IHtail.
      destruct IHtail as (Hlen2 & Hle2 & Hall2).
      destruct Hhead as (Hlen1 & Hle1 & Hall1).
      set (content := flattenDepthFirst ids childGroups (Some (groupId parentId k))
                        (level + 1)) in *.
      cbn [makeGroupRow].
      set (header := {| id := groupId parentId k; parentId := parentId; groupKey := k;
                        isExpanded := isExpandedId ids (groupId parentId k);
                        childRows := childRows; level := level; posInSet := pos;
                        startRowIndex := start; setSize := setSize |}).
      change (js_length (GroupHeader header
                         :: (if isExpandedId ids (groupId parentId k) then content else [])
                            ++ rest)
              <= 1 + childSize + restSize
              ∧ (∀ (i : nat) g,
                   (GroupHeader header
                    :: (if isExpandedId ids (groupId parentId k) then content else [])
                       ++ rest) !! i = Some (GroupHeader g) →
                   start + Z.of_nat i <= startRowIndex g)
              ∧ ((∀ g, GroupHeader g
                       ∈ GroupHeader header
                         :: (if isExpandedId ids (groupId parentId k) then content else [])
                            ++ rest → isExpanded g = true) →
                 js_length (GroupHeader header
                            :: (if isExpandedId ids (groupId parentId k) then content else [])
                               ++ rest)
                 = 1 + childSize + restSize
                 ∧ ∀ (i : nat) g,
                     (GroupHeader header
                      :: (if isExpandedId ids (groupId parentId k) then content else [])
                         ++ rest) !! i = Some (GroupHeader g) →
                     startRowIndex g = start + Z.of_nat i)).
      destruct (isExpandedId ids (groupId parentId k)) eqn:Hexpanded.
      * unfold js_length in *. rewrite length_cons, length_app.
        split; [lia|]. split.
        -- intros [|i] g Hi; simpl in Hi.
           ++ injection Hi as <-. simpl. lia.
           ++ apply lookup_app_Some in Hi as [Hi|[Hge Hi]].
              ** apply Hle1 in Hi. lia.
              ** apply Hle2 in Hi. lia.
        -- intros Hall.
           destruct Hall1 as [Hlen1' Heq1].
           { intros g Hg. apply Hall. right. apply elem_of_app. by left. }
           destruct Hall2 as [Hlen2' Heq2].
           { intros g Hg. apply Hall. right. apply elem_of_app. by right. }
           split; [lia|].
           intros [|i] g Hi; simpl in Hi.
           ++ injection Hi as <-. simpl. lia.
           ++ apply lookup_app_Some in Hi as [Hi|[Hge Hi]].
              ** apply Heq1 in Hi. lia.
              ** apply Heq2 in Hi. lia.
      * unfold js_length in *. rewrite length_cons, app_nil_l.
        split; [lia|]. split.
        -- intros [|i] g Hi; simpl in Hi.
           ++ injection Hi as <-. simpl. lia.
           ++ apply Hle2 in Hi. lia.
        -- intros Hall. specialize (Hall header ltac:(by left)).
           simpl in Hall. congruence.
Qed.

End FlattenNumbered.

Section GroupCount.
Context {R : Type}.


End GroupCount.


(** ** Row selection *)

Section RowSelection.
Context {R K : Type} {R_eq_dec : EqDecision R} {K_eq_dec : EqDecision K}
  {K_countable : Countable K}.
Implicit Types (g : Grid R K) (s : State R) (e : SelectRowEvent).

Lemma selectRange_up (rows : list (ViewRow R)) (kg : option R → K) (rowIdx : Z)
    (fuel : nat) (i : Z) (acc : gset K) (key : K) :
  i <= rowIdx → rowIdx - i <= Z.of_nat fuel →
  key ∈ selectRange rows kg fuel i 1 rowIdx acc
  ↔ key ∈ acc
    ∨ ∃ j, i <= j < rowIdx ∧ isGroupRow (js_get rows j) = false
           ∧ key = kg (callerRow (js_get rows j)).
Proof.
  revert i acc. induction fuel as [|fuel IH]; intros i acc Hle Hfuel; simpl.
  - split; [by left|]. intros [Hin|(j & Hj & _)]; [exact Hin|lia].
  - destruct (Z.eqb_spec i rowIdx) as [->|Hne].
    + split; [by left|]. intros [Hin|(j & Hj & _)]; [exact Hin|lia].
    + rewrite IH by lia. split.
      * intros [Hin|(j & Hj & Hrow & Hkey)].
        -- destruct (isGroupRow (js_get rows i)) eqn:Hgroup; [by left|].
           apply elem_of_union in Hin as [Hin|Hin]; [by left|].
           apply elem_of_singleton in Hin. right. exists i. split; [lia|]. by split.
        -- right. exists j. split; [lia|]. by split.
      * intros [Hin|(j & Hj & Hrow & Hkey)].
        -- left. destruct (isGroupRow (js_get rows i)); [exact Hin|].
           apply elem_of_union. by left.
        -- destruct (decide (j = i)) as [->|Hji].
           ++ left. rewrite Hrow. apply elem_of_union. right. by apply elem_of_singleton.
           ++ right. exists j. split; [lia|]. by split.
Qed.

Lemma selectRange_down (rows : list (ViewRow R)) (kg : option R → K) (rowIdx : Z)
    (fuel : nat) (i : Z) (acc : gset K) (key : K) :
  rowIdx <= i → i - rowIdx <= Z.of_nat fuel →
  key ∈ selectRange rows kg fuel i (-1) rowIdx acc
  ↔ key ∈ acc
    ∨ ∃ j, rowIdx < j <= i ∧ isGroupRow (js_get rows j) = false
           ∧ key = kg (callerRow (js_get rows j)).
Proof.
  revert i acc. induction fuel as [|fuel IH]; intros i acc Hle Hfuel; simpl.
  - split; [by left|]. intros [Hin|(j & Hj & _)]; [exact Hin|lia].
  - destruct (Z.eqb_spec i rowIdx) as [->|Hne].
    + split; [by left|]. intros [Hin|(j & Hj & _)]; [exact Hin|lia].
    + rewrite IH by lia. split.
      * intros [Hin|(j & Hj & Hrow & Hkey)].
        -- destruct (isGroupRow (js_get rows i)) eqn:Hgroup; [by left|].
           apply elem_of_union in Hin as [Hin|Hin]; [by left|].
           apply elem_of_singleton in Hin. right. exists i. split; [lia|]. by split.
        -- right. exists j. split; [lia|]. by split.
      * intros [Hin|(j & Hj & Hrow & Hkey)].
        -- left. destruct (isGroupRow (js_get rows i)); [exact Hin|].
           apply elem_of_union. by left.
        -- destruct (decide (j = i)) as [->|Hji].
           ++ left. rewrite Hrow. apply elem_of_union. right. by apply elem_of_singleton.
           ++ right. exists j. split; [lia|]. by split.
Qed.

(** X14.  A shift-click that checks a row, with an earlier checked row as the
    anchor, hands [onSelectedRowsChange] the rows selected so far, the clicked
    row and every row strictly between the anchor and the clicked row that is
    not a group row; the clicked row becomes the new anchor. *)
Theorem shift_click_selects_range (g : Grid R K) (s : State R) (e : SelectRowEvent)
    (kg : option R → K) (row : R) :
  onSelectedRowsChange g = true →
  rowKeyGetter g = Some kg →
  js_get (gridRows g) (sr_rowIdx e) = Some (Row row) →
  sr_checked e = true → sr_isShiftClick e = true →
  lastSelectedRowIdx s ≠ -1 → lastSelectedRowIdx s ≠ sr_rowIdx e →
  ∃ selected,
    selectedRowsChanges (dispatchSelectRow g s e) = [selected]
    ∧ lastSelectedRowIdx (stateAfter s (dispatchSelectRow g s e)) = sr_rowIdx e
    ∧ ∀ key,
        key ∈ selected
        ↔ key ∈ default ∅ (selectedRows g)
          ∨ key = kg (Some row)
          ∨ ∃ j, Z.min (lastSelectedRowIdx s) (sr_rowIdx e) < j
                 < Z.max (lastSelectedRowIdx s) (sr_rowIdx e)
                 ∧ isGroupRow (js_get (gridRows g) j) = false
                 ∧ key = kg (callerRow (js_get (gridRows g) j)).
Proof.
  intros Hcallback Hgetter Hrow Hchecked Hshift Hanchor Hother.
  unfold dispatchSelectRow, handleRowSelectionChange.
  rewrite Hcallback, Hgetter, Hrow, Hchecked, Hshift. simpl.
  rewrite (proj2 (Z.eqb_neq _ _) Hanchor), (proj2 (Z.eqb_neq _ _) Hother). simpl.
  eexists. split; [reflexivity|]. split; [reflexivity|].
  intros key.
  destruct (Z.lt_total (lastSelectedRowIdx s) (sr_rowIdx e)) as [Hlt|[Heq|Hgt]];
    [|done|].
  - rewrite Z.sgn_pos by lia. rewrite selectRange_up by lia.
    rewrite Z.min_l, Z.max_r by lia. rewrite elem_of_union, elem_of_singleton.
    split.
    + intros [[Hin|Hin]|(j & Hj & Hrest)]; [by left|right; by left|].
      right. right. exists j. split; [lia|exact Hrest].
    + intros [Hin|[Hin|(j & Hj & Hrest)]]; [left; by left|left; by right|].
      right. exists j. split; [lia|exact Hrest].
  - rewrite Z.sgn_neg by lia. rewrite selectRange_down by lia.
    rewrite Z.min_r, Z.max_l by lia. rewrite elem_of_union, elem_of_singleton.
    split.
    + intros [[Hin|Hin]|(j & Hj & Hrest)]; [by left|right; by left|].
      right. right. exists j. split; [lia|exact Hrest].
    + intros [Hin|[Hin|(j & Hj & Hrest)]]; [left; by left|left; by right|].
      right. exists j. split; [lia|exact Hrest].
Qed.

(** X15.  A plain click on the checkbox of a row hands [onSelectedRowsChange]
    one set; once the caller has adopted it, the row shows as selected exactly
    when the box was checked, and every row with another key shows as
    before. *)
Theorem row_checkbox_round_trip (g : Grid R K) (s : State R) (e : SelectRowEvent)
    (kg : option R → K) (row : R) :
  onSelectedRowsChange g = true →
  rowKeyGetter g = Some kg →
  js_get (gridRows g) (sr_rowIdx e) = Some (Row row) →
  sr_isShiftClick e = false →
  ∃ selected,
    selectedRowsChanges (dispatchSelectRow g s e) = [selected]
    ∧ isRowSelected (withSelectedRows g selected) row = sr_checked e
    ∧ ∀ other, kg (Some other) ≠ kg (Some row) →
        isRowSelected (withSelectedRows g selected) other = isRowSelected g other.
Proof.
  intros Hcallback Hgetter Hrow Hshift.
  unfold dispatchSelectRow, handleRowSelectionChange.
  rewrite Hcallback, Hgetter, Hrow, Hshift. simpl.
  unfold isRowSelected. simpl. rewrite Hgetter.
  destruct (sr_checked e); simpl; (eexists; split; [reflexivity|]); split.
  - apply bool_decide_eq_true, elem_of_union. right. by apply elem_of_singleton.
  - intros other Hne. destruct (selectedRows g) as [selected|]; simpl.
    + apply bool_decide_ext. rewrite elem_of_union, elem_of_singleton. tauto.
    + apply bool_decide_eq_false.
      rewrite elem_of_union, elem_of_singleton, elem_of_empty. tauto.
  - apply bool_decide_eq_false. rewrite elem_of_difference, elem_of_singleton. tauto.
  - intros other Hne. destruct (selectedRows g) as [selected|]; simpl.
    + apply bool_decide_ext. rewrite elem_of_difference, elem_of_singleton. tauto.
    + apply bool_decide_eq_false. rewrite elem_of_difference, elem_of_empty. tauto.
Qed.

(** X16.  The checkbox of a group row selects or deselects all the child rows
    of the group: once the caller has adopted the set, the group row shows as
    selected when the box was checked, and as not selected when it was
    unchecked and the group has a child row. *)
Theorem group_checkbox_round_trip (g : Grid R K) (s : State R) (e : SelectRowEvent)
    (kg : option R → K) (groupRow : GroupRow R) :
  onSelectedRowsChange g = true →
  rowKeyGetter g = Some kg →
  js_get (gridRows g) (sr_rowIdx e) = Some (GroupHeader groupRow) →
  ∃ selected,
    selectedRowsChanges (dispatchSelectRow g s e) = [selected]
    ∧ (∀ child, child ∈ childRows groupRow →
         isRowSelected (withSelectedRows g selected) child = sr_checked e)
    ∧ isGroupRowSelected (withSelectedRows g selected) groupRow
      = Returned (sr_checked e || bool_decide (childRows groupRow = [])).
Proof.
  intros Hcallback Hgetter Hrow.
  unfold dispatchSelectRow, handleRowSelectionChange.
  rewrite Hcallback, Hgetter, Hrow. simpl.
  eexists. split; [reflexivity|].
  assert (Hchild : ∀ child, child ∈ childRows groupRow →
            bool_decide
              (kg (Some child)
               ∈ (if sr_checked e
                  then default ∅ (selectedRows g)
                       ∪ list_to_set ((λ childRow, kg (Some childRow)) <$> childRows groupRow)
                  else default ∅ (selectedRows g)
                       ∖ list_to_set ((λ childRow, kg (Some childRow))
                                        <$> childRows groupRow)))
            = sr_checked e).
  { intros child Hchild.
    assert (kg (Some child)
            ∈ (list_to_set ((λ childRow, kg (Some childRow)) <$> childRows groupRow)
                : gset K)).
    { apply elem_of_list_to_set, list_elem_of_fmap. eauto. }
    destruct (sr_checked e).
    - apply bool_decide_eq_true, elem_of_union. by right.
    - apply bool_decide_eq_false. rewrite elem_of_difference. tauto. }
  split.
  - intros child Hin. unfold isRowSelected. simpl. rewrite Hgetter. by apply Hchild.
  - unfold isGroupRowSelected. simpl. rewrite Hcallback, Hgetter.
    destruct (childRows groupRow) as [|child children] eqn:Hchildren.
    + by rewrite orb_true_r.
    + replace (bool_decide (child :: children = [])) with false
        by (symmetry; apply bool_decide_eq_false; discriminate).
      rewrite orb_false_r. f_equal. rewrite (Hchild child) by left.
      destruct (sr_checked e) eqn:Hchecked; [|reflexivity].
      apply forallb_forall. intros x Hx.
      apply Hchild. right. by apply list_elem_of_In.
Qed.

Lemma size_list_to_set_le (l : list K) : (size (list_to_set l : gset K) ≤ length l)%nat.
Proof.
  induction l as [|x l IH].
  - by rewrite list_to_set_nil, size_empty.
  - rewrite list_to_set_cons, length_cons.
    rewrite size_union_alt, size_singleton.
    assert (Hsub : (list_to_set l : gset K) ∖ {[x]} ⊆ list_to_set l).
    { intros y Hy. by apply elem_of_difference in Hy as [Hy _]. }
    apply subseteq_size in Hsub. lia.
Qed.

Lemma size_list_to_set_NoDup (l : list K) :
  size (list_to_set l : gset K) = length l ↔ NoDup l.
Proof.
  split; [|apply size_list_to_set].
  induction l as [|x l IH]; intros Hsize; [constructor|].
  rewrite list_to_set_cons, length_cons in Hsize.
  pose proof (size_list_to_set_le l) as Hle.
  destruct (decide (x ∈ l)) as [Hin|Hnotin].
  - assert (({[x]} ∪ list_to_set l : gset K) = list_to_set l) as Heq.
    { apply subseteq_union_1_L, singleton_subseteq_l, elem_of_list_to_set, Hin. }
    rewrite Heq in Hsize. lia.
  - rewrite size_union in Hsize
      by (apply disjoint_singleton_l; by rewrite elem_of_list_to_set).
    rewrite size_singleton in Hsize.
    constructor; [exact Hnotin|]. apply IH. lia.
Qed.

(** X17.  Checking the header checkbox hands [onSelectedRowsChange] the keys
    of all rows.  Once the caller has adopted the set every row shows as
    selected, and the header checkbox shows as checked exactly when no two
    rows share a key.  Unchecking it hands over the empty set. *)
Theorem select_all_round_trip (g : Grid R K) (kg : option R → K) :
  onSelectedRowsChange g = true →
  rowKeyGetter g = Some kg →
  (∃ selected,
     selectedRowsChanges (handleAllRowsSelectionChange g true) = [selected]
     ∧ (∀ row, row ∈ rawRows g → isRowSelected (withSelectedRows g selected) row = true)
     ∧ (allRowsSelected (withSelectedRows g selected) = true
        ↔ NoDup ((λ row, kg (Some row)) <$> rawRows g)))
  ∧ selectedRowsChanges (handleAllRowsSelectionChange g false) = [∅].
Proof.
  intros Hcallback Hgetter. unfold handleAllRowsSelectionChange.
  rewrite Hcallback, Hgetter. simpl. split; [|reflexivity].
  eexists. split; [reflexivity|]. split.
  - intros row Hrow. unfold isRowSelected. simpl. rewrite Hgetter.
    apply bool_decide_eq_true, elem_of_list_to_set, list_elem_of_fmap. eauto.
  - unfold allRowsSelected, js_length. simpl.
    rewrite Z.eqb_eq, Nat2Z.inj_iff, <- size_list_to_set_NoDup.
    by rewrite length_fmap.
Qed.

End RowSelection.

(** ** Groups, renders and the editor *)

Section GroupsAndEditor.
Context {R K : Type} {R_eq_dec : EqDecision R} {K_eq_dec : EqDecision K}
  {K_countable : Countable K}.
Implicit Types (g : Grid R K) (s : State R) (p : Position.t).

(** X18.  Toggling a group hands [onExpandedGroupIdsChange] the expanded ids
    with that one id flipped and every other id as it was; toggling the same
    group again, once the caller has adopted the set, hands back the set there
    was at first. *)
Theorem toggle_group_round_trip (g : Grid R K) (groupId : string) :
  onExpandedGroupIdsChange g = true →
  ∃ ids,
    expandedGroupIdsChanges (toggleGroup g groupId) = [ids]
    ∧ (groupId ∈ ids ↔ groupId ∉ default ∅ (expandedGroupIds g))
    ∧ (∀ other, other ≠ groupId →
         (other ∈ ids ↔ other ∈ default ∅ (expandedGroupIds g)))
    ∧ expandedGroupIdsChanges (toggleGroup (withExpandedGroupIds g ids) groupId)
      = [default ∅ (expandedGroupIds g)].
Proof.
  intros Hcallback. unfold toggleGroup, expandedGroupIdsChanges. simpl.
  rewrite Hcallback. simpl.
  set (ids := default ∅ (expandedGroupIds g)).
  destruct (bool_decide (groupId ∈ ids)) eqn:Hin.
  - apply bool_decide_eq_true in Hin.
    eexists. split; [reflexivity|]. split; [|split].
    + rewrite elem_of_difference, elem_of_singleton. tauto.
    + intros other Hne. rewrite elem_of_difference, elem_of_singleton. tauto.
    + rewrite bool_decide_eq_false_2
        by (rewrite elem_of_difference, elem_of_singleton; tauto).
      do 2 f_equal. apply set_eq. intros other.
      rewrite elem_of_union, elem_of_difference, elem_of_singleton.
      destruct (decide (other = groupId)) as [->|]; tauto.
  - apply bool_decide_eq_false in Hin.
    eexists. split; [reflexivity|]. split; [|split].
    + rewrite elem_of_union, elem_of_singleton. tauto.
    + intros other Hne. rewrite elem_of_union, elem_of_singleton. tauto.
    + rewrite bool_decide_eq_true_2
        by (rewrite elem_of_union, elem_of_singleton; tauto).
      do 2 f_equal. apply set_eq. intros other.
      rewrite elem_of_difference, elem_of_union, elem_of_singleton.
      destruct (decide (other = groupId)) as [->|]; tauto.
Qed.

(** X19.  The checks made while rendering settle in one pass: in the state
    they leave, the same checks queue no further update, so the render that
    follows them is the last. *)
Theorem render_checks_settle (g : Grid R K) (s : State R) :
  effectsOf (renderChecks g (render g s)) = []
  ∧ render g (render g s) = render g s.
Proof.
  assert (Hsettled : effectsOf (renderChecks g (render g s)) = []).
  { rewrite renderChecks_effects, render_selectedPosition.
    destruct (pastColumnsOrRows g (position (selectedPosition s))) eqn:Hpast.
    - unfold pastColumnsOrRows, isStaleEdit, unselected, js_length. simpl.
      destruct (Z.leb_spec (Z.of_nat (length (gridColumns g))) (-1)); [lia|].
      destruct (Z.leb_spec (Z.of_nat (length (gridRows g))) (-1)); [lia|]. reflexivity.
    - destruct (isStaleEdit g (selectedPosition s)) eqn:Hstale; simpl.
      + rewrite Hpast. reflexivity.
      + rewrite Hpast, Hstale. reflexivity. }
  split; [exact Hsettled|].
  unfold render at 1. unfold stateAfter. by rewrite Hsettled.
Qed.

Lemma handleKeyDown_editing g s event key row originalRow :
  mode (selectedPosition s) = EDIT key row originalRow →
  ev_key event = "Escape"%string ∨ ev_key event = "Enter"%string →
  handleKeyDown g s event
  = if String.eqb (ev_key event) "Escape"
    then bind (emit (SetCopiedCell None)) (λ _, closeEditor s)
    else handleCellInput g s event.
Proof.
  intros Hmode Hkey. unfold handleKeyDown. rewrite Hmode. simpl.
  rewrite !andb_false_r. simpl.
  assert (Harrow : String.eqb (ev_key event) "ArrowLeft" = false
                   ∧ String.eqb (ev_key event) "ArrowRight" = false
                   ∧ includes navigationKeys (ev_key event) = false).
  { destruct Hkey as [-> | ->]; repeat split. }
  destruct Harrow as (-> & -> & Hnav). simpl. rewrite !andb_false_r.
  assert (Hnone : (match js_get (gridRows g) (Position.rowIdx (position (selectedPosition s)))
                   with
                   | Some (GroupHeader groupRow) => @None string
                   | _ => None
                   end) = None)
    by (by destruct (js_get (gridRows g) _) as [[?|?]|]).
  destruct (js_get (gridRows g) (Position.rowIdx (position (selectedPosition s))))
    as [[r|groupRow]|]; simpl; rewrite Hnav; reflexivity.
Qed.

(** X20.  While an editor is open, Escape closes it and discards what was
    staged: no [onRowsChange], the position stays, the copied cell is
    cleared.  Enter on a cell of the caller's rows commits as
    [commitEditorChanges] does and closes the editor in place. *)
Theorem keys_that_end_an_edit (g : Grid R K) (s : State R) (event : KeyboardEvent)
    key row originalRow :
  mode (selectedPosition s) = EDIT key row originalRow →
  (ev_key event = "Escape"%string →
   rowsChanges (handleKeyDown g s event) = []
   ∧ outcomeOf (handleKeyDown g s event) = Returned tt
   ∧ selectedPosition (stateAfter s (handleKeyDown g s event))
     = {| position := position (selectedPosition s); mode := SELECT |}
   ∧ copiedCell (stateAfter s (handleKeyDown g s event)) = None)
  ∧ (ev_key event = "Enter"%string →
     isCellWithinBounds g (position (selectedPosition s)) = true →
     isGroupRow (js_get (gridRows g) (Position.rowIdx (position (selectedPosition s))))
     = false →
     rowsChanges (handleKeyDown g s event) = rowsChanges (commitEditorChanges g s)
     ∧ outcomeOf (handleKeyDown g s event) = Returned tt
     ∧ selectedPosition (stateAfter s (handleKeyDown g s event))
       = {| position := position (selectedPosition s); mode := SELECT |}).
Proof.
  intros Hmode. split.
  - intros Hkey. rewrite (handleKeyDown_editing g s event key row originalRow Hmode)
      by (by left).
    rewrite Hkey. simpl. unfold closeEditor. rewrite Hmode. simpl.
    repeat split.
  - intros Hkey Hbounds Hrow.
    rewrite (handleKeyDown_editing g s event key row originalRow Hmode) by (by right).
    rewrite Hkey. simpl. unfold handleCellInput. rewrite Hbounds, Hmode, Hkey. simpl.
    apply isCellWithinBounds_spec in Hbounds as [Hrows _].
    destruct (js_get_in_bounds (gridRows g) _ Hrows) as [[r|groupRow] Hget];
      rewrite Hget in *; [|discriminate]. simpl.
    pose proof (leavesPosition_commitEditorChanges g s) as Hleaves.
    unfold leavesPosition in Hleaves.
    destruct (commitEditorChanges g s) as [effects [[]|err]] eqn:Hcommit.
    + unfold closeEditor. rewrite Hmode. simpl.
      unfold rowsChanges, stateAfter. simpl. rewrite omap_app. simpl. rewrite app_nil_r.
      split; [reflexivity|]. split; [reflexivity|].
      rewrite foldl_app. simpl. rewrite selectedPosition_foldl. simpl in Hleaves.
      rewrite Hleaves. reflexivity.
    + exfalso. revert Hcommit. unfold commitEditorChanges. rewrite Hmode.
      destruct (_ || _); [discriminate|]. by destruct (onRowsChange g).
Qed.

End GroupsAndEditor.

Section EditorLifeCycle.
Context {R K : Type} {R_eq_dec : EqDecision R} {K_eq_dec : EqDecision K}
  {K_countable : Countable K}.
Implicit Types (g : Grid R K) (s : State R) (p : Position.t).

(** [commitEditorChanges] returns, having called [onRowsChange] at most
    once and nothing else. *)
Lemma commitEditorChanges_shape g s :
  commitEditorChanges g s = ([], Returned tt)
  ∨ ∃ updatedRows, commitEditorChanges g s = ([OnRowsChange updatedRows], Returned tt).
Proof.
  unfold commitEditorChanges. destruct (mode (selectedPosition s)); [by left|].
  destruct (_ || _); [by left|]. destruct (onRowsChange g); [right; eauto|by left].
Qed.

Lemma selectCell_within g s p :
  isCellWithinBounds g p = true →
  rowsChanges (selectCell g s p false) = rowsChanges (commitEditorChanges g s)
  ∧ selectedPosition (stateAfter s (selectCell g s p false))
    = {| position := p; mode := SELECT |}
  ∧ selectedCellChanges (selectCell g s p false)
    = (if onSelectedCellChange g then [p] else [])
  ∧ outcomeOf (selectCell g s p false) = Returned tt.
Proof.
  intros Hbounds. unfold selectCell. rewrite Hbounds. simpl.
  destruct (commitEditorChanges_shape g s) as [->|[updatedRows ->]];
    destruct (onSelectedCellChange g); simpl; repeat split.
Qed.

(** X21.  Selecting a cell of the grid first commits what an open editor has
    staged, exactly as [commitEditorChanges] does, then makes the cell the
    selected one in SELECT mode and tells [onSelectedCellChange], if the caller
    supplied it, the new position. *)
Theorem select_cell_commits_then_moves (g : Grid R K) (s : State R) (p : Position.t) :
  isCellWithinBounds g p = true →
  rowsChanges (selectCell g s p false) = rowsChanges (commitEditorChanges g s)
  ∧ selectedPosition (stateAfter s (selectCell g s p false))
    = {| position := p; mode := SELECT |}
  ∧ selectedCellChanges (selectCell g s p false)
    = (if onSelectedCellChange g then [p] else [])
  ∧ outcomeOf (selectCell g s p false) = Returned tt.
Proof. apply selectCell_within. Qed.

(** X22.  A row handed to [onRowChange] without the commit flag is staged:
    nothing is reported, the editor stays open on the same cell with the new
    row beside the original one.  Closing the editor then commits the staged
    row, as [commitEditorChanges] does, or, closed without commit, reports
    nothing; either way the grid is back in SELECT mode.  With the commit flag
    [onRowChange] reports the raw rows with the row written at the raw index of
    the edited row at once and closes the editor. *)
Theorem staged_edit_commit_or_cancel (g : Grid R K) (s : State R) key row0 originalRow
    (row : R) :
  mode (selectedPosition s) = EDIT key row0 originalRow →
  let staged := stateAfter s (handleRowChange g s row false) in
  rowsChanges (handleRowChange g s row false) = []
  ∧ selectedPosition staged
    = {| position := position (selectedPosition s); mode := EDIT key row originalRow |}
  ∧ rowsChanges (handleOnClose g staged true) = rowsChanges (commitEditorChanges g staged)
  ∧ rowsChanges (handleOnClose g staged false) = []
  ∧ (∀ commitChanges,
       selectedPosition (stateAfter staged (handleOnClose g staged commitChanges))
       = {| position := position (selectedPosition s); mode := SELECT |})
  ∧ rowsChanges (handleRowChange g s row true)
    = (if onRowsChange g
       then [arraySet (spread (rawRows g))
               (getRawRowIdx g (Position.rowIdx (position (selectedPosition s)))) row]
       else [])
  ∧ selectedPosition (stateAfter s (handleRowChange g s row true))
    = {| position := position (selectedPosition s); mode := SELECT |}.
Proof.
  intros Hmode staged.
  assert (Hstaged : selectedPosition staged
                    = {| position := position (selectedPosition s);
                         mode := EDIT key row originalRow |}).
  { unfold staged, handleRowChange, stateAfter. rewrite Hmode. simpl. by rewrite Hmode. }
  assert (Hclose : closeEditor staged
                   = ([SetSelectedPosition
                         (λ sp, {| position := position sp; mode := SELECT |})],
                      Returned tt) :> Run R K unit).
  { unfold closeEditor. by rewrite Hstaged. }
  split; [|split; [exact Hstaged|split; [|split; [|split; [|split]]]]].
  - unfold handleRowChange. by rewrite Hmode.
  - unfold handleOnClose. rewrite Hclose.
    destruct (commitEditorChanges_shape g staged) as [->|[updatedRows ->]]; reflexivity.
  - unfold handleOnClose. rewrite Hclose. reflexivity.
  - intros commitChanges. unfold handleOnClose. rewrite Hclose.
    destruct commitChanges; simpl;
      [destruct (commitEditorChanges_shape g staged) as [->|[updatedRows ->]]|];
      unfold stateAfter; simpl; by rewrite Hstaged.
  - unfold handleRowChange, closeEditor. rewrite Hmode.
    by destruct (onRowsChange g).
  - unfold handleRowChange, closeEditor, stateAfter. rewrite Hmode.
    by destruct (onRowsChange g).
Qed.

End EditorLifeCycle.

Section KeyboardEdges.
Context {R K : Type} {R_eq_dec : EqDecision R} {K_eq_dec : EqDecision K}
  {K_countable : Countable K}.
Implicit Types (g : Grid R K) (s : State R) (p : Position.t).

Lemma getNextPosition_Tab g s ctrlKey :
  ¬ (Position.idx (position (selectedPosition s)) = -1
     ∧ Position.rowIdx (position (selectedPosition s)) = -1) →
  getNextPosition g s "Tab" ctrlKey false
  = Position.mk (Position.idx (position (selectedPosition s)) + 1)
      (Position.rowIdx (position (selectedPosition s))).
Proof.
  intros Hselected. unfold getNextPosition. cbn [String.eqb Ascii.eqb Bool.eqb andb].
  assert ((Position.idx (position (selectedPosition s)) =? -1)
          && (Position.rowIdx (position (selectedPosition s)) =? -1) = false) as ->.
  { apply andb_false_iff. rewrite !Z.eqb_neq. lia. }
  destruct (js_get (gridRows g) _) as [[row|groupRow]|]; reflexivity.
Qed.

(** A key press that is neither a clipboard shortcut nor a group toggle goes
    to [navigate] when it is a navigation key. *)
Lemma handleKeyDown_Tab g s event :
  ev_key event = "Tab"%string → isCtrlKeyHeldDown event = false →
  handleKeyDown g s event = navigate g s event.
Proof.
  intros Hkey Hctrl. unfold handleKeyDown. rewrite Hkey, Hctrl. simpl.
  rewrite !andb_false_r. simpl.
  destruct (js_get (gridRows g) _) as [[row|groupRow]|]; simpl;
    rewrite ?andb_false_r; reflexivity.
Qed.

(** X23.  Tab on the last cell of a row, without Shift and outside an
    editor.  In the modes NONE and CHANGE_ROW, on the last row the key is left
    alone (no default prevented, no state change) so that focus can leave the
    grid, and on any other row the first cell of the next row is selected: Tab
    changes rows in the mode NONE too.  In the mode LOOP_OVER_ROW the first
    cell of the same row is selected. *)
Theorem tab_leaves_or_wraps (g : Grid R K) (s : State R) (event : KeyboardEvent) :
  mode (selectedPosition s) = SELECT →
  ev_key event = "Tab"%string → isCtrlKeyHeldDown event = false →
  ev_shiftKey event = false →
  Position.idx (position (selectedPosition s)) = js_length (gridColumns g) - 1 →
  0 < js_length (gridColumns g) →
  0 <= Position.rowIdx (position (selectedPosition s)) < js_length (gridRows g) →
  let rowIdx := Position.rowIdx (position (selectedPosition s)) in
  match cellNavigationMode g with
  | LOOP_OVER_ROW =>
      selectedPosition (stateAfter s (handleKeyDown g s event))
      = {| position := Position.mk 0 rowIdx; mode := SELECT |}
  | _ =>
      if rowIdx =? js_length (gridRows g) - 1
      then handleKeyDown g s event = ([], Returned tt)
      else selectedPosition (stateAfter s (handleKeyDown g s event))
           = {| position := Position.mk 0 (rowIdx + 1); mode := SELECT |}
           ∧ PreventDefault ∈ effectsOf (handleKeyDown g s event)
  end.
Proof.
  intros Hmode Hkey Hctrl Hshift Hidx Hcols Hrows rowIdx.
  rewrite (handleKeyDown_Tab g s event Hkey Hctrl).
  unfold navigate. rewrite Hmode, Hkey, Hshift, Hctrl. simpl.
  rewrite getNextPosition_Tab by lia. fold rowIdx. rewrite Hidx.
  replace (js_length (gridColumns g) - 1 + 1) with (js_length (gridColumns g)) by lia.
  unfold canExitGrid, getNextSelectedCellPosition. simpl.
  rewrite Hidx, !Z.eqb_refl. fold rowIdx.
  assert (Hmoved : ∀ p, isCellWithinBounds g p = true →
            selectedPosition
              (stateAfter s
                 (let '(effects', out) :=
                    let '(effects', out) := selectCell g s p false in
                    (PreventDefault :: effects', out) in
                  (effects', out)))
            = {| position := p; mode := SELECT |}).
  { intros p Hp. destruct (selectCell_within g s p Hp) as (_ & Hsel & _).
    unfold stateAfter in *.
    destruct (selectCell g s p false) as [effects out]. simpl in *.
    rewrite selectedPosition_foldl in *. exact Hsel. }
  assert (Hprevented : ∀ p,
            PreventDefault
            ∈ effectsOf
                (let '(effects', out) :=
                   let '(effects', out) := selectCell g s p false in
                   (PreventDefault :: effects', out) in
                 (effects', out))).
  { intros p. destruct (selectCell g s p false) as [effects out]. simpl. by left. }
  destruct (cellNavigationMode g); simpl.
  - destruct (Z.eqb_spec rowIdx (js_length (gridRows g) - 1)); simpl; [reflexivity|].
    split; [|apply Hprevented].
    apply Hmoved. apply isCellWithinBounds_spec. simpl. unfold minColIdx.
    destruct (hasGroups g); lia.
  - destruct (Z.eqb_spec rowIdx (js_length (gridRows g) - 1)); simpl; [reflexivity|].
    split; [|apply Hprevented].
    apply Hmoved. apply isCellWithinBounds_spec. simpl. unfold minColIdx.
    destruct (hasGroups g); lia.
  - apply Hmoved. apply isCellWithinBounds_spec. simpl. unfold minColIdx.
    fold rowIdx. destruct (hasGroups g); lia.
Qed.

End KeyboardEdges.

Section EditorOpening.
Context {R K : Type} {R_eq_dec : EqDecision R} {K_eq_dec : EqDecision K}
  {K_countable : Countable K}.
Implicit Types (g : Grid R K) (s : State R) (p : Position.t).

(** X24.  [selectCell] asked to open the editor, on a position of the grid.
    On a cell it returns with that cell selected, and the editor is open only
    if the row is one of the caller's rows (not a group row) and the column has
    an editor, is not a row-group column and its [editable] allows the row; the
    editor then starts from the row as it is.  On a whole row (column index
    [-1], possible with groups) it ends in a [TypeError] with the selected
    position left as it was. *)
Theorem editor_opens_only_where_editable (g : Grid R K) (s : State R) (p : Position.t) :
  isCellWithinBounds g p = true →
  (Position.idx p = -1 →
   outcomeOf (selectCell g s p true) = Threw TypeError
   ∧ positionUpdates (effectsOf (selectCell g s p true)) = [])
  ∧ (0 <= Position.idx p →
     outcomeOf (selectCell g s p true) = Returned tt
     ∧ position (selectedPosition (stateAfter s (selectCell g s p true))) = p
     ∧ ∀ key row originalRow,
         mode (selectedPosition (stateAfter s (selectCell g s p true)))
         = EDIT key row originalRow →
         key = None ∧ originalRow = row
         ∧ js_get (gridRows g) (Position.rowIdx p) = Some (Row row)
         ∧ ∃ column,
             js_get (gridColumns g) (Position.idx p) = Some column
             ∧ (∃ editor, CalculatedColumn.editor column = EditorComponent editor)
             ∧ CalculatedColumn.rowGroup column = false
             ∧ editableAllows (CalculatedColumn.editable column) (Some row) = true).
Proof.
  intros Hbounds. pose proof Hbounds as Hin.
  apply isCellWithinBounds_spec in Hin as [Hrows Hcols].
  unfold selectCell, isCellEditable, isSelectedCellEditable. rewrite Hbounds. simpl.
  split.
  - intros Hidx. rewrite Hidx. simpl.
    destruct (commitEditorChanges_shape g s) as [->|[updatedRows ->]]; by split.
  - intros Hidx.
    destruct (js_get_in_bounds (gridColumns g) (Position.idx p)) as [column Hcolumn];
      [lia|].
    destruct (js_get_in_bounds (gridRows g) (Position.rowIdx p) Hrows) as [viewRow Hrow].
    rewrite Hcolumn, Hrow.
    destruct viewRow as [row|groupRow]; simpl.
    + destruct (CalculatedColumn.editor column) as [| |editor] eqn:Heditor; simpl;
        try (destruct (commitEditorChanges_shape g s) as [->|[updatedRows ->]];
             destruct (onSelectedCellChange g); by repeat split).
      destruct (CalculatedColumn.rowGroup column) eqn:Hgroup; simpl;
        try (destruct (commitEditorChanges_shape g s) as [->|[updatedRows ->]];
             destruct (onSelectedCellChange g); by repeat split).
      destruct (editableAllows (CalculatedColumn.editable column) (Some row)) eqn:Hallows;
        simpl;
        try (destruct (commitEditorChanges_shape g s) as [->|[updatedRows ->]];
             destruct (onSelectedCellChange g); by repeat split).
      destruct (commitEditorChanges_shape g s) as [->|[updatedRows ->]];
        destruct (onSelectedCellChange g); simpl;
        (split; [reflexivity|]; split; [reflexivity|];
         intros key row' originalRow [= <- <- <-];
         split; [reflexivity|]; split; [reflexivity|]; split; [reflexivity|];
         exists column; split; [reflexivity|]; split; [eauto|]; by split).
    + rewrite !andb_false_r. simpl.
      destruct (commitEditorChanges_shape g s) as [->|[updatedRows ->]];
        destruct (onSelectedCellChange g); by repeat split.
Qed.

(** X25.  With a whole row of the caller selected (column index [-1], as
    after ArrowDown from a selected group row), a key that is neither Escape
    nor a navigation key ends in a [TypeError]: the cell input handler reads
    [editorOptions] of the column at index [-1], which does not exist.  Nothing
    is changed before the error. *)
Theorem key_on_selected_row_throws (g : Grid R K) (s : State R) (event : KeyboardEvent)
    (row : R) :
  mode (selectedPosition s) = SELECT →
  isCellWithinBounds g (position (selectedPosition s)) = true →
  Position.idx (position (selectedPosition s)) = -1 →
  js_get (gridRows g) (Position.rowIdx (position (selectedPosition s))) = Some (Row row) →
  ev_key event ≠ "Escape"%string →
  includes navigationKeys (ev_key event) = false →
  handleKeyDown g s event = ([], Threw TypeError).
Proof.
  intros Hmode Hbounds Hidx Hrow Hescape Hnav.
  unfold handleKeyDown, handleCellInput.
  rewrite Hmode, Hbounds, Hidx, Hrow, Hnav. simpl.
  rewrite !andb_false_r. simpl.
  apply String.eqb_neq in Hescape. rewrite Hescape. reflexivity.
Qed.

End EditorOpening.

Section CopyAndPaste.
Context {R K : Type} {R_eq_dec : EqDecision R} {K_eq_dec : EqDecision K}
  {K_countable : Countable K}.
Implicit Types (g : Grid R K) (s : State R) (p : Position.t).

Lemma gridRows_without_groups g : hasGroups g = false → gridRows g = map Row (rawRows g).
Proof.
  unfold hasGroups, gridRows, gridViewportRows. intros Hgroups.
  rewrite rows_useViewportRows. unfold groupedRowsOf, js_length in *.
  destruct (gridGroupBy g) as [|key keys]; [reflexivity|].
  destruct (rowGrouper g); [|reflexivity]. simpl in Hgroups. done.
Qed.

(** Moving the selection keeps the copied cell. *)
Lemma selectCell_keeps_copied g s p :
  copiedCell (stateAfter s (selectCell g s p false)) = copiedCell s.
Proof.
  unfold selectCell, stateAfter.
  destruct (isCellWithinBounds g p); simpl; [|reflexivity].
  destruct (commitEditorChanges_shape g s) as [->|[updatedRows ->]];
    by destruct (onSelectedCellChange g).
Qed.

(** X26.  Copy, move, paste in a grid without groups: Ctrl+C on a cell, a
    move of the selection to an editable cell and Ctrl+V there hand
    [onRowsChange] the raw rows with the target row replaced by what [onPaste]
    makes of the copied row and its column key and the target row and its
    column key; the copy itself reports nothing and leaves the selection
    alone. *)
Theorem copy_move_paste (g : Grid R K) (s : State R) (copy paste : KeyboardEvent)
    (p : Position.t) (onPasteFn : PasteEvent R → R)
    (sourceColumn targetColumn : CalculatedColumn.t R) :
  hasGroups g = false → onPaste g = Some onPasteFn → onRowsChange g = true →
  mode (selectedPosition s) = SELECT →
  isCellWithinBounds g (position (selectedPosition s)) = true →
  js_get (gridColumns g) (Position.idx (position (selectedPosition s)))
  = Some sourceColumn →
  isCtrlKeyHeldDown copy = true → ev_keyCode copy = 67 →
  isCtrlKeyHeldDown paste = true → ev_keyCode paste = 86 →
  isCellEditable g p = ([], Returned true) →
  js_get (gridColumns g) (Position.idx p) = Some targetColumn →
  let copied := stateAfter s (handleKeyDown g s copy) in
  let moved := stateAfter copied (selectCell g copied p false) in
  rowsChanges (handleKeyDown g s copy) = []
  ∧ selectedPosition copied = selectedPosition s
  ∧ rowsChanges (handleKeyDown g moved paste)
    = [arraySet (spread (rawRows g)) (Position.rowIdx p)
         (onPasteFn
            {| sourceRow :=
                 js_get (rawRows g) (Position.rowIdx (position (selectedPosition s)));
               sourceColumnKey := CalculatedColumn.key sourceColumn;
               targetRow := js_get (rawRows g) (Position.rowIdx p);
               targetColumnKey := CalculatedColumn.key targetColumn |})].
Proof.
  intros Hgroups Hpaste Hchange Hmode Hbounds Hsource Hctrl Hc Hctrl' Hv Heditable Htarget
    copied moved.
  pose proof (gridRows_without_groups g Hgroups) as Hrows.
  assert (Hidx : 0 <= Position.idx (position (selectedPosition s)))
    by (apply js_get_Some_bounds in Hsource; lia).
  assert (Hnotgroup : ∀ i, isGroupRow (js_get (gridRows g) i) = false).
  { intros i. rewrite Hrows. unfold js_get. destruct (i <? 0); [reflexivity|].
    change (map Row (rawRows g)) with (Row <$> rawRows g).
    rewrite list_lookup_fmap. by destruct (rawRows g !! Z.to_nat i). }
  assert (Hcopy : handleKeyDown g s copy
                  = ([SetCopiedCell
                        (Some {| copiedRow :=
                                   js_get (rawRows g)
                                     (Position.rowIdx (position (selectedPosition s)));
                                 copiedColumnKey := CalculatedColumn.key sourceColumn |})],
                     Returned tt)).
  { unfold handleKeyDown. rewrite Hpaste, Hctrl, Hbounds, Hnotgroup, Hmode, Hc. simpl.
    rewrite (proj2 (Z.eqb_neq _ _)) by lia. simpl.
    unfold handleCopy, getRawRowIdx. by rewrite Hsource, Hgroups. }
  assert (Hp : isCellWithinBounds g p = true).
  { unfold isCellEditable in Heditable.
    destruct (isCellWithinBounds g p); [reflexivity|discriminate]. }
  assert (Hpidx : 0 <= Position.idx p) by (apply js_get_Some_bounds in Htarget; lia).
  split; [by rewrite Hcopy|]. split; [unfold copied; by rewrite Hcopy|].
  assert (Hmoved : selectedPosition moved = {| position := p; mode := SELECT |}).
  { unfold moved. by destruct (selectCell_within g copied p Hp) as (_ & -> & _). }
  assert (Hcopied : copiedCell moved
                    = Some {| copiedRow :=
                                js_get (rawRows g)
                                  (Position.rowIdx (position (selectedPosition s)));
                              copiedColumnKey := CalculatedColumn.key sourceColumn |}).
  { unfold moved. rewrite selectCell_keeps_copied. unfold copied. by rewrite Hcopy. }
  unfold handleKeyDown. rewrite Hpaste, Hctrl', Hmoved. simpl.
  rewrite Hp, Hnotgroup, Hv. simpl.
  rewrite (proj2 (Z.eqb_neq _ _)) by lia. simpl.
  rewrite (handlePaste_without_groups g moved onPasteFn _ targetColumn Hgroups Hpaste Hchange
             Hcopied);
    rewrite ?Hmoved; simpl; try assumption.
  reflexivity.
Qed.

End CopyAndPaste.

(** ** The fill handle *)

Section ArrayPut.
Context {A : Type}.

Lemma arrayGet_arrayPut_eq (a : JsArray A) (i : Z) (v : option A) :
  0 <= i → arrayGet (arrayPut a i v) i = v.
Proof.
  intros Hi. unfold arrayGet, arrayPut, js_length.
  destruct (Z.ltb_spec i 0); [lia|]. rewrite js_get_lookup by lia.
  destruct (Z.ltb_spec i (Z.of_nat (length a))).
  - rewrite list_lookup_insert_eq by lia. reflexivity.
  - rewrite lookup_app_r by lia. rewrite lookup_app_r by (rewrite length_replicate; lia).
    rewrite length_replicate. replace (_ - _ - _)%nat with 0%nat by lia. reflexivity.
Qed.

Lemma arrayGet_arrayPut_ne (a : JsArray A) (i j : Z) (v : option A) :
  j ≠ i → arrayGet (arrayPut a i v) j = arrayGet a j.
Proof.
  intros Hne. unfold arrayGet, arrayPut, js_length.
  destruct (Z.ltb_spec i 0); [reflexivity|].
  unfold js_get. destruct (Z.ltb_spec j 0); [reflexivity|].
  destruct (Z.ltb_spec i (Z.of_nat (length a))).
  - rewrite list_lookup_insert_ne by lia. reflexivity.
  - destruct (decide (Z.to_nat j < length a)%nat).
    + rewrite lookup_app_l by lia. reflexivity.
    + rewrite lookup_app_r by lia. rewrite (lookup_ge_None_2 a) by lia. simpl.
      destruct (decide (Z.to_nat j - length a < Z.to_nat i - length a)%nat).
      * rewrite lookup_app_l by (rewrite length_replicate; lia).
        rewrite lookup_replicate_2 by lia. reflexivity.
      * rewrite lookup_app_r by (rewrite length_replicate; lia).
        rewrite length_replicate.
        rewrite lookup_ge_None_2; [reflexivity|]. simpl. lia.
Qed.

(** The rows a slice holds, when its bounds lie within the list. *)
Lemma js_slice_get (l : list A) (lo hi k : Z) :
  0 <= lo → hi <= js_length l → 0 <= k < hi - lo →
  js_get (js_slice l lo hi) k = js_get l (lo + k).
Proof.
  intros Hlo Hhi Hk. unfold js_slice, js_length in *.
  destruct (Z.ltb_spec lo 0); [lia|]. destruct (Z.ltb_spec hi 0); [lia|].
  rewrite !js_get_lookup by lia.
  rewrite Z.min_l, Z.min_l by lia.
  rewrite lookup_take_lt by lia. rewrite lookup_drop. f_equal. lia.
Qed.

End ArrayPut.

Section Fill.
Context {R K : Type} {R_eq_dec : EqDecision R} {K_eq_dec : EqDecision K}
  {K_countable : Countable K}.
Implicit Types (g : Grid R K) (s : State R).

(** What the fill loop leaves: the rows of the range taken from what [onFill]
    answered, every other row as it was. *)
Lemma fillRows_get (updatedTargetRows : list R) (startRowIndex : Z) (fuel : nat) (i : Z)
    (updatedRows : JsArray R) (j : Z) :
  0 <= i →
  arrayGet (fillRows updatedRows updatedTargetRows startRowIndex fuel i) j
  = if (i <=? j) && (j <? i + Z.of_nat fuel)
    then js_get updatedTargetRows (j - startRowIndex)
    else arrayGet updatedRows j.
Proof.
  revert i updatedRows. induction fuel as [|fuel IH]; intros i updatedRows Hi;
    cbn [fillRows].
  - destruct (Z.leb_spec i j), (Z.ltb_spec j (i + Z.of_nat 0)); simpl;
      try reflexivity; lia.
  - rewrite IH by lia.
    destruct (Z.leb_spec (i + 1) j), (Z.ltb_spec j (i + 1 + Z.of_nat fuel)),
      (Z.leb_spec i j), (Z.ltb_spec j (i + Z.of_nat (S fuel)));
      cbn [andb]; try reflexivity; try lia;
      try (by rewrite arrayGet_arrayPut_ne by lia).
    assert (j = i) as -> by lia. by rewrite arrayGet_arrayPut_eq.
Qed.

(** X27.  Releasing the fill handle over a row calls [onFill] with the
    selected row as source and the rows of the dragged range as targets, and
    hands [onRowsChange] the raw rows in which exactly the rows that were
    marked as dragged over are replaced, each by the answer at its place in
    the range; the source row and all rows outside the range are untouched,
    and the drag mark is cleared. *)
Theorem drag_fill_frame (g : Grid R K) (s : State R) (onFill : FillEvent R → list R)
    (overRowIdx : Z) (column : CalculatedColumn.t R) :
  onRowsChange g = true →
  draggedOverRowIdx s = Some overRowIdx →
  js_get (gridColumns g) (Position.idx (position (selectedPosition s))) = Some column →
  0 <= Position.rowIdx (position (selectedPosition s)) → 0 <= overRowIdx →
  let rowIdx := Position.rowIdx (position (selectedPosition s)) in
  let first := if rowIdx <? overRowIdx then rowIdx + 1 else overRowIdx in
  let final := if rowIdx <? overRowIdx then overRowIdx + 1 else rowIdx in
  let filled :=
    onFill {| fill_columnKey := CalculatedColumn.key column;
              fill_sourceRow := js_get (rawRows g) rowIdx;
              fill_targetRows := js_slice (rawRows g) first final |} in
  ∃ updatedRows,
    rowsChanges (handleDragEnd g s (Some onFill)) = [updatedRows]
    ∧ draggedOverRowIdx (stateAfter s (handleDragEnd g s (Some onFill))) = None
    ∧ (∀ i, arrayGet updatedRows i
            = if getDraggedOverCellIdx s i is Some _
              then js_get filled (i - first) else js_get (rawRows g) i)
    ∧ arrayGet updatedRows rowIdx = js_get (rawRows g) rowIdx
    ∧ (final <= js_length (rawRows g) →
       ∀ k, 0 <= k < final - first →
         js_get (js_slice (rawRows g) first final) k = js_get (rawRows g) (first + k)).
Proof.
  intros Hchange Hover Hcolumn Hrow Hoverpos rowIdx first final filled.
  unfold handleDragEnd. rewrite Hover, Hchange, Hcolumn. simpl.
  fold rowIdx. fold first. fold final. fold filled.
  eexists. split; [reflexivity|]. split; [reflexivity|].
  assert (Hfirst : 0 <= first) by (unfold first; destruct (rowIdx <? overRowIdx); lia).
  assert (Hget : ∀ i, arrayGet
                        (fillRows (spread (rawRows g)) filled first
                           (Z.to_nat (final - first)) first) i
                      = if getDraggedOverCellIdx s i is Some _
                        then js_get filled (i - first) else js_get (rawRows g) i).
  { intros i. rewrite fillRows_get by exact Hfirst. rewrite arrayGet_spread.
    unfold getDraggedOverCellIdx. rewrite Hover. fold rowIdx.
    unfold first, final.
    destruct (Z.ltb_spec rowIdx overRowIdx).
    - destruct (Z.leb_spec (rowIdx + 1) i), (Z.ltb_spec rowIdx i),
        (Z.leb_spec i overRowIdx),
        (Z.ltb_spec i (rowIdx + 1 + Z.of_nat (Z.to_nat (overRowIdx + 1 - (rowIdx + 1)))));
        simpl; try reflexivity; lia.
    - destruct (Z.leb_spec overRowIdx i), (Z.ltb_spec i rowIdx),
        (Z.ltb_spec i (overRowIdx + Z.of_nat (Z.to_nat (rowIdx - overRowIdx))));
        simpl; try reflexivity; lia. }
  split; [exact Hget|]. split.
  - rewrite Hget. unfold getDraggedOverCellIdx. rewrite Hover. fold rowIdx.
    destruct (Z.ltb_spec rowIdx overRowIdx).
    + rewrite Z.ltb_irrefl. reflexivity.
    + rewrite Z.ltb_irrefl. reflexivity.
  - intros Hfinal k Hk. apply js_slice_get; assumption.
Qed.

(** X28.  A double click on the fill handle fills down to the last row:
    [onFill] gets the rows below the selected one as targets, and
    [onRowsChange] the raw rows with each of those replaced by the answer at
    its place; the selected row and the rows above it are untouched. *)
Theorem double_click_fills_down (g : Grid R K) (s : State R) (onFill : FillEvent R → list R)
    (column : CalculatedColumn.t R) :
  onRowsChange g = true →
  js_get (gridColumns g) (Position.idx (position (selectedPosition s))) = Some column →
  0 <= Position.rowIdx (position (selectedPosition s)) →
  let rowIdx := Position.rowIdx (position (selectedPosition s)) in
  let filled :=
    onFill {| fill_columnKey := CalculatedColumn.key column;
              fill_sourceRow := js_get (rawRows g) rowIdx;
              fill_targetRows :=
                js_slice (rawRows g) (rowIdx + 1) (js_length (rawRows g)) |} in
  ∃ updatedRows,
    rowsChanges (handleDoubleClick g s (Some onFill)) = [updatedRows]
    ∧ (∀ i, arrayGet updatedRows i
            = if (rowIdx <? i) && (i <? js_length (rawRows g))
              then js_get filled (i - (rowIdx + 1)) else js_get (rawRows g) i)
    ∧ (∀ k, 0 <= k < js_length (rawRows g) - (rowIdx + 1) →
         js_get (js_slice (rawRows g) (rowIdx + 1) (js_length (rawRows g))) k
         = js_get (rawRows g) (rowIdx + 1 + k)).
Proof.
  intros Hchange Hcolumn Hrow rowIdx filled.
  unfold handleDoubleClick. rewrite Hchange, Hcolumn. simpl.
  fold rowIdx. fold filled.
  eexists. split; [reflexivity|]. split.
  - intros i. rewrite fillRows_get by lia. rewrite arrayGet_spread.
    destruct (Z.leb_spec (rowIdx + 1) i), (Z.ltb_spec rowIdx i),
      (Z.ltb_spec i (js_length (rawRows g))),
      (Z.ltb_spec i (rowIdx + 1
                     + Z.of_nat (Z.to_nat (js_length (rawRows g) - (rowIdx + 1)))));
      simpl; try reflexivity; lia.
  - intros k Hk. apply js_slice_get; lia.
Qed.

End Fill.

(** ** The event bus *)

Section EventBusFacts.
Context {H : Type} {H_eq_dec : EqDecision H}.
Implicit Types (bus : Subscribers H) (type : string) (handler : H)
  (ops : list (BusOperation (H:=H))).

Lemma elem_of_setAdd (handlers : list H) handler x :
  x ∈ setAdd handlers handler ↔ x ∈ handlers ∨ x = handler.
Proof.
  unfold setAdd. destruct (bool_decide (handler ∈ handlers)) eqn:Hin.
  - apply bool_decide_eq_true in Hin. split; [by left|]. by intros [?| ->].
  - rewrite elem_of_app, list_elem_of_singleton. tauto.
Qed.

Lemma NoDup_setAdd (handlers : list H) handler :
  NoDup handlers → NoDup (setAdd handlers handler).
Proof.
  intros Hnodup. unfold setAdd.
  destruct (bool_decide (handler ∈ handlers)) eqn:Hin; [exact Hnodup|].
  apply bool_decide_eq_false in Hin. apply NoDup_app. split; [exact Hnodup|]. split.
  - intros x Hx Hx'. apply list_elem_of_singleton in Hx' as ->. done.
  - apply NoDup_singleton.
Qed.

Lemma elem_of_setDelete (handlers : list H) handler x :
  x ∈ setDelete handlers handler ↔ x ∈ handlers ∧ x ≠ handler.
Proof.
  unfold setDelete. rewrite elem_of_filter_bool, negb_true_iff, bool_decide_eq_false.
  tauto.
Qed.

Lemma NoDup_setDelete (handlers : list H) handler :
  NoDup handlers → NoDup (setDelete handlers handler).
Proof.
  intros Hnodup. unfold setDelete.
  induction Hnodup as [|x l Hx Hnodup IH]; simpl; [constructor|].
  destruct (negb (bool_decide (x = handler))); [|exact IH].
  constructor; [|exact IH]. intros Hin. apply Hx.
  by apply elem_of_filter_bool in Hin as [Hin _].
Qed.

Lemma dispatch_subscribe bus type handler type' :
  dispatch (subscribe bus type handler) type'
  = if decide (type' = type) then setAdd (dispatch bus type) handler
    else dispatch bus type'.
Proof.
  unfold dispatch, subscribe. destruct (decide (type' = type)) as [->|Hne].
  - rewrite lookup_insert_eq. by destruct (bus !! type).
  - by rewrite lookup_insert_ne.
Qed.

Lemma dispatch_unsubscribe bus type handler type' :
  dispatch (unsubscribe bus type handler) type'
  = if decide (type' = type) then setDelete (dispatch bus type) handler
    else dispatch bus type'.
Proof.
  unfold dispatch, unsubscribe. destruct (decide (type' = type)) as [->|Hne].
  - rewrite lookup_alter_eq. by destruct (bus !! type).
  - by rewrite lookup_alter_ne.
Qed.

Lemma subscribed_snoc ops (op : BusOperation (H:=H)) type handler :
  op ≠ Subscribe type handler → op ≠ Unsubscribe type handler →
  (∃ before after, ops ++ [op] = before ++ Subscribe type handler :: after
                   ∧ Unsubscribe type handler ∉ after)
  ↔ (∃ before after, ops = before ++ Subscribe type handler :: after
                     ∧ Unsubscribe type handler ∉ after).
Proof.
  intros Hsub Hunsub. split.
  - intros (before & after & Heq & Hnot).
    destruct after as [|x after _] using rev_ind.
    + apply app_inj_tail in Heq as [_ Heq]. done.
    + rewrite app_comm_cons, app_assoc in Heq. apply app_inj_tail in Heq as [-> ->].
      exists before, after. split; [reflexivity|].
      intros Hin. apply Hnot, elem_of_app. by left.
  - intros (before & after & -> & Hnot). exists before, (after ++ [op]).
    split; [by rewrite <- app_assoc|].
    rewrite elem_of_app, list_elem_of_singleton. intros [Hin|Heq]; [done|]. by symmetry in Heq.
Qed.


End EventBusFacts.

(** ** Sorting from a header cell *)

(** X30.  A sortable header cycles through three directions: three clicks
    bring back the direction it started from and no click leaves it as it is.
    The order is none, ascending, descending, or none, descending, ascending
    for a column that sorts descending first.  A click on a column that is not
    the sorted one asks for the first direction of that order, whatever the
    current direction is. *)
Theorem sort_direction_cycle (sortDescendingFirst : bool) (sortDirection : SortDirection) :
  nextSortDirection sortDescendingFirst
    (nextSortDirection sortDescendingFirst
       (nextSortDirection sortDescendingFirst sortDirection)) = sortDirection
  ∧ nextSortDirection sortDescendingFirst sortDirection ≠ sortDirection
  ∧ nextSortDirection sortDescendingFirst SORT_NONE
    = (if sortDescendingFirst then DESC else ASC)
  ∧ nextSortDirection sortDescendingFirst (if sortDescendingFirst then DESC else ASC)
    = (if sortDescendingFirst then ASC else DESC)
  ∧ ∀ columnKey sortColumn current,
      sortColumn ≠ Some columnKey →
      sortableHeaderClick true columnKey sortDescendingFirst sortColumn current
      = Some (columnKey, if sortDescendingFirst then DESC else ASC).
Proof.
  repeat split; try (by destruct sortDescendingFirst, sortDirection).
  intros columnKey sortColumn current Hother.
  unfold sortableHeaderClick, shownSortDirection.
  rewrite bool_decide_eq_false_2 by exact Hother. by destruct sortDescendingFirst.
Qed.

(** ** The further theorems at the example data *)

Lemma shift_click_selects_range_witness :
  ∃ selected,
    selectedRowsChanges (dispatchSelectRow plainGrid anchoredAtFirstRow shiftClickThirdRow)
    = [selected]
    ∧ rowId south1 ∈ selected.
Proof.
  destruct (shift_click_selects_range plainGrid anchoredAtFirstRow shiftClickThirdRow
              demoKeyGetter north2) as (selected & Hselected & _ & Hkeys);
    try (vm_compute; reflexivity); try (vm_compute; discriminate).
  exists selected. split; [exact Hselected|].
  apply Hkeys. right. right. exists 1. vm_compute. repeat split.
Defined.

Lemma row_checkbox_round_trip_witness :
  ∃ selected,
    selectedRowsChanges (dispatchSelectRow plainGrid initialState selectFirstRow)
    = [selected]
    ∧ isRowSelected (withSelectedRows plainGrid selected) north1 = true.
Proof.
  destruct (row_checkbox_round_trip plainGrid initialState selectFirstRow demoKeyGetter
              north1) as (selected & Hselected & Hshown & _);
    try (vm_compute; reflexivity).
  exists selected. split; [exact Hselected|exact Hshown].
Defined.

Lemma group_checkbox_round_trip_witness :
  ∃ groupRow selected,
    js_get (gridRows groupedGrid) 0 = Some (GroupHeader groupRow)
    ∧ selectedRowsChanges (dispatchSelectRow groupedGrid initialState selectFirstRow)
      = [selected]
    ∧ isGroupRowSelected (withSelectedRows groupedGrid selected) groupRow = Returned true.
Proof.
  destruct (js_get (gridRows groupedGrid) 0) as [[row|groupRow]|] eqn:Hrow;
    [vm_compute in Hrow; discriminate| |vm_compute in Hrow; discriminate].
  destruct (group_checkbox_round_trip groupedGrid initialState selectFirstRow demoKeyGetter
              groupRow) as (selected & Hselected & _ & Hshown);
    try (vm_compute; reflexivity); [exact Hrow|].
  exists groupRow, selected. split; [reflexivity|]. split; [exact Hselected|exact Hshown].
Defined.

Lemma select_all_round_trip_witness :
  selectedRowsChanges (handleAllRowsSelectionChange plainGrid false) = [∅].
Proof.
  apply (select_all_round_trip plainGrid demoKeyGetter); vm_compute; reflexivity.
Defined.

Lemma toggle_group_round_trip_witness :
  ∃ ids,
    expandedGroupIdsChanges (toggleGroup groupedGrid "north") = [ids]
    ∧ expandedGroupIdsChanges (toggleGroup (withExpandedGroupIds groupedGrid ids) "north")
      = [default ∅ (expandedGroupIds groupedGrid)].
Proof.
  destruct (toggle_group_round_trip groupedGrid "north") as (ids & Hids & _ & _ & Hback);
    [vm_compute; reflexivity|].
  exists ids. split; [exact Hids|exact Hback].
Defined.

Lemma keys_that_end_an_edit_witness :
  rowsChanges (handleKeyDown plainGrid editingFirstAmountChanged escapeKey) = []
  ∧ copiedCell (stateAfter editingFirstAmountChanged
                  (handleKeyDown plainGrid editingFirstAmountChanged escapeKey)) = None.
Proof.
  destruct (keys_that_end_an_edit plainGrid editingFirstAmountChanged escapeKey None north1'
              north1) as [Hescape _]; [reflexivity|].
  destruct Hescape as (Hrows & _ & _ & Hcopied); [reflexivity|].
  split; [exact Hrows|exact Hcopied].
Defined.

Lemma select_cell_commits_then_moves_witness :
  selectedPosition
    (stateAfter editingFirstAmountChanged
       (selectCell plainGrid editingFirstAmountChanged (Position.mk 0 1) false))
  = {| position := Position.mk 0 1; mode := SELECT |}.
Proof.
  apply (select_cell_commits_then_moves plainGrid editingFirstAmountChanged
           (Position.mk 0 1)).
  vm_compute. reflexivity.
Defined.

Lemma staged_edit_commit_or_cancel_witness :
  rowsChanges (handleRowChange plainGrid editingFirstAmount north1' false) = []
  ∧ rowsChanges (handleRowChange plainGrid editingFirstAmount north1' true)
    = [arraySet (spread (rawRows plainGrid)) 0 north1'].
Proof.
  pose proof (staged_edit_commit_or_cancel plainGrid editingFirstAmount None north1 north1
                north1' eq_refl) as Hstaged.
  cbv zeta in Hstaged. destruct Hstaged as (Hquiet & _ & _ & _ & _ & Hcommit & _).
  split; [exact Hquiet|exact Hcommit].
Defined.

Lemma tab_leaves_or_wraps_witness :
  selectedPosition
    (stateAfter (stateAt 1 0 SELECT None)
       (handleKeyDown plainGrid (stateAt 1 0 SELECT None) tabKey))
  = {| position := Position.mk 0 1; mode := SELECT |}.
Proof.
  pose proof (tab_leaves_or_wraps plainGrid (stateAt 1 0 SELECT None) tabKey) as Htab.
  assert (Hmode : cellNavigationMode plainGrid = CHANGE_ROW) by reflexivity.
  assert (Hlast : (Position.rowIdx (position (selectedPosition (stateAt 1 0 SELECT None)))
                   =? js_length (gridRows plainGrid) - 1) = false)
    by (vm_compute; reflexivity).
  cbv zeta in Htab. rewrite Hmode, Hlast in Htab.
  assert (Hidx : Position.idx (position (selectedPosition (stateAt 1 0 SELECT None)))
                 = js_length (gridColumns plainGrid) - 1) by (vm_compute; reflexivity).
  assert (Hcols : 0 < js_length (gridColumns plainGrid)) by (vm_compute; reflexivity).
  assert (Hrows : 0 <= Position.rowIdx
                         (position (selectedPosition (stateAt 1 0 SELECT None)))
                  < js_length (gridRows plainGrid))
    by (split; vm_compute; [discriminate | reflexivity]).
  destruct (Htab eq_refl eq_refl eq_refl eq_refl Hidx Hcols Hrows) as [Hmoved _].
  exact Hmoved.
Defined.

Lemma editor_opens_only_where_editable_witness :
  outcomeOf (selectCell plainGrid initialState (Position.mk 1 0) true) = Returned tt.
Proof.
  destruct (editor_opens_only_where_editable plainGrid initialState (Position.mk 1 0))
    as [_ Hcell]; [vm_compute; reflexivity|].
  destruct Hcell as (Hreturned & _); [vm_compute; discriminate|exact Hreturned].
Defined.

Lemma key_on_selected_row_throws_witness :
  handleKeyDown groupedGrid (stateAt (-1) 1 SELECT None) letterKey = ([], Threw TypeError).
Proof.
  apply (key_on_selected_row_throws groupedGrid (stateAt (-1) 1 SELECT None) letterKey north1);
    try (vm_compute; reflexivity); vm_compute; discriminate.
Defined.

Lemma copy_move_paste_witness :
  ∃ column,
    js_get (gridColumns plainGrid) 1 = Some column
    ∧ rowsChanges (handleKeyDown plainGrid (stateAt 1 2 SELECT None) ctrlC) = [].
Proof.
  destruct (js_get (gridColumns plainGrid) 1) as [column|] eqn:Hcolumn;
    [|vm_compute in Hcolumn; discriminate].
  exists column. split; [reflexivity|].
  pose proof (copy_move_paste plainGrid (stateAt 1 2 SELECT None) ctrlC ctrlV
                (Position.mk 1 0) pasteAmount column column) as Hcopy.
  cbv zeta in Hcopy. apply Hcopy; try exact Hcolumn; vm_compute; reflexivity.
Defined.

Lemma drag_fill_frame_witness :
  ∃ column updatedRows,
    js_get (gridColumns plainGrid) 1 = Some column
    ∧ rowsChanges (handleDragEnd plainGrid draggingToThirdRow (Some fillAmount))
      = [updatedRows]
    ∧ arrayGet updatedRows 0 = Some north1.
Proof.
  destruct (js_get (gridColumns plainGrid) 1) as [column|] eqn:Hcolumn;
    [|vm_compute in Hcolumn; discriminate].
  pose proof (drag_fill_frame plainGrid draggingToThirdRow fillAmount 2 column) as Hfill.
  cbv zeta in Hfill.
  destruct Hfill as (updatedRows & Hrows & _ & _ & Hsource & _);
    try exact Hcolumn; try (vm_compute; reflexivity); try (vm_compute; discriminate).
  exists column, updatedRows. split; [reflexivity|]. split; [exact Hrows|exact Hsource].
Defined.

Lemma double_click_fills_down_witness :
  ∃ column updatedRows,
    js_get (gridColumns plainGrid) 1 = Some column
    ∧ rowsChanges (handleDoubleClick plainGrid draggingToThirdRow (Some fillAmount))
      = [updatedRows]
    ∧ arrayGet updatedRows 0 = Some north1.
Proof.
  destruct (js_get (gridColumns plainGrid) 1) as [column|] eqn:Hcolumn;
    [|vm_compute in Hcolumn; discriminate].
  pose proof (double_click_fills_down plainGrid draggingToThirdRow fillAmount column)
    as Hfill.
  cbv zeta in Hfill.
  destruct Hfill as (updatedRows & Hrows & Hget & _);
    try exact Hcolumn; try (vm_compute; reflexivity); try (vm_compute; discriminate).
  exists column, updatedRows. split; [reflexivity|]. split; [exact Hrows|].
  rewrite Hget. vm_compute. reflexivity.
Defined.
